(** * A weighted graph container: the two variants [codigo_a.js] and
      [codigo_b.js] of the class [Graph]

    The class keeps two registries (JavaScript objects used as maps: vertices
    by key and edges by key) and a directedness flag.  Vertices and edges are
    heap objects that the graph only references: a vertex owns its list of
    incident edges, an edge owns its two endpoints and its weight.  The
    embedding makes the heap explicit (object references are addresses, the
    mutable fields live in a [Store]); the methods of [Graph] are written in
    a state monad in which an exception keeps the state reached so far, as a
    JavaScript [throw] does. *)

From Corelib Require Import PrimFloat.
From Stdlib Require Import List String ZArith NArith Lia Bool Arith PeanoNat DecimalString.
Import ListNotations.

(* ================================================================= *)
(** ** JavaScript objects used as maps *)

(** What [o[k]] evaluates to, as far as the class can tell the values
    apart: an object of the kind the registry stores, another value that is
    truthy (a function, another object), or a value that is falsy
    ([undefined] in every case under [Object.prototype]). *)
Inductive value (V : Type) : Type :=
| Ref (v : V)
| Foreign
| Nothing.
Arguments Ref {V} v.
Arguments Foreign {V}.
Arguments Nothing {V}.

Definition truthy {V} (x : value V) : bool :=
  match x with
  | Nothing => false
  | _ => true
  end.

(** An object that starts as the literal [{}] and is read with [o[k]],
    written with [o[k] = v], shrunk with [delete o[k]] and enumerated with
    [Object.keys] / [Object.values].

    - [props] holds the own properties in enumeration order: keys that are
      array indices first, in ascending order, then the other keys in the
      order in which they were created; an assignment to an existing key
      keeps its position.
    - [proto] is the object's prototype when an assignment to ["__proto__"]
      has replaced it, and [None] while it is [Object.prototype].
    - A read finds an own property, or else what the prototype chain gives:
      under [Object.prototype] the names of [objectPrototype] resolve to
      functions (["__proto__"] to the prototype object itself).

    [Object.prototype] is taken as the language defines it. *)
Module JSObject.

(** The property names of [Object.prototype]. *)
Definition objectPrototype : list string :=
  ["constructor"; "__defineGetter__"; "__defineSetter__"; "hasOwnProperty";
   "__lookupGetter__"; "__lookupSetter__"; "isPrototypeOf";
   "propertyIsEnumerable"; "toString"; "valueOf"; "__proto__";
   "toLocaleString"]%string.

Definition inheritedName (k : string) : bool :=
  existsb (String.eqb k) objectPrototype.

(** The array index that a key denotes: the canonical decimal form of a
    number below [2^32 - 1]. *)
Definition arrayIndex (k : string) : option N :=
  match NilZero.uint_of_string k with
  | Some d =>
      let n := N.of_uint d in
      if String.eqb k (NilZero.string_of_uint (N.to_uint n)) && N.ltb n 4294967295
      then Some n
      else None
  | None => None
  end.

(** A new key [k] is enumerated before the existing key [k']: [k] is an
    array index and [k'] is not, or is a larger one. *)
Definition precedes (k k' : string) : bool :=
  match arrayIndex k, arrayIndex k' with
  | Some n, Some n' => N.ltb n n'
  | Some _, None => true
  | None, _ => false
  end.

(** Keys in enumeration order: no key is preceded by a later one. *)
Fixpoint ordered (ks : list string) : Prop :=
  match ks with
  | [] => True
  | k :: ks' => Forall (fun k' => precedes k' k = false) ks' /\ ordered ks'
  end.

Section Obj.
Context {V : Type}.

Record t : Type := mk {
  props : list (string * V);
  proto : option V
}.

(** [{}] *)
Definition empty : t := {| props := []; proto := None |}.

Fixpoint lookup (l : list (string * V)) (k : string) : option V :=
  match l with
  | [] => None
  | (k', v) :: l' => if String.eqb k k' then Some v else lookup l' k
  end.

Fixpoint update (l : list (string * V)) (k : string) (v : V) : list (string * V) :=
  match l with
  | [] => []
  | (k', v') :: l' =>
      if String.eqb k k' then (k', v) :: l' else (k', v') :: update l' k v
  end.

Fixpoint insert (l : list (string * V)) (k : string) (v : V) : list (string * V) :=
  match l with
  | [] => [(k, v)]
  | (k', v') :: l' =>
      if precedes k k' then (k, v) :: l else (k', v') :: insert l' k v
  end.

Fixpoint remove (l : list (string * V)) (k : string) : list (string * V) :=
  match l with
  | [] => []
  | (k', v') :: l' =>
      if String.eqb k k' then l' else (k', v') :: remove l' k
  end.

(** The own property [k] of [o], if there is one. *)
Definition own (o : t) (k : string) : option V := lookup (props o) k.

(** What the prototype chain of [o] gives for [k].  [via p k] is what the
    name [k] resolves to on the object [p] that has become the prototype. *)
Definition inherited (via : V -> string -> value V) (o : t) (k : string) : value V :=
  match proto o with
  | None => if inheritedName k then Foreign else Nothing
  | Some p => if String.eqb k "__proto__" then Ref p else via p k
  end.

(** [o[k]] *)
Definition get (via : V -> string -> value V) (o : t) (k : string) : value V :=
  match own o k with
  | Some v => Ref v
  | None => inherited via o k
  end.

(** [o[k] = v] for an object [v]: an own property is overwritten in place;
    otherwise the key ["__proto__"] replaces the prototype and any other
    key becomes a new own property. *)
Definition assign (o : t) (k : string) (v : V) : t :=
  match own o k with
  | Some _ => {| props := update (props o) k v; proto := proto o |}
  | None =>
      if String.eqb k "__proto__" then {| props := props o; proto := Some v |}
      else {| props := insert (props o) k v; proto := proto o |}
  end.

(** [o[k] = n] for a number [n]: as [assign], but the key ["__proto__"]
    leaves the object as it is when it is not an own property. *)
Definition assignNumber (o : t) (k : string) (n : V) : t :=
  match own o k with
  | Some _ => {| props := update (props o) k n; proto := proto o |}
  | None =>
      if String.eqb k "__proto__" then o
      else {| props := insert (props o) k n; proto := proto o |}
  end.

(** [delete o[k]] *)
Definition delete (o : t) (k : string) : t :=
  {| props := remove (props o) k; proto := proto o |}.

(** [Object.keys(o)] and [Object.values(o)] *)
Definition keys (o : t) : list string := map fst (props o).
Definition values (o : t) : list V := map snd (props o).

(** What holds of every object that was created as [{}] and only written
    by assignment: the keys are pairwise distinct and in enumeration
    order, and ["__proto__"] is not an own property. *)
Definition wf (o : t) : Prop :=
  NoDup (keys o) /\ ordered (keys o) /\ ~ In "__proto__"%string (keys o).

(** The prototype is [Object.prototype]. *)
Definition pristine (o : t) : Prop := proto o = None.
End Obj.
Arguments t : clear implicits.

(** The prototype chain of an object whose prototype is never replaced. *)
Definition noMembers {V} : V -> string -> value V := fun _ _ => Nothing.
End JSObject.

(* ================================================================= *)
(** ** The heap of vertex and edge objects *)

Definition vref := nat.
Definition eref := nat.

(** A JavaScript number: an IEEE 754 double. *)
Definition number := float.

Definition Infinity : number := infinity.

(** The fields of the collaborator objects, indexed by object reference.
    [vertexKey] is what [GraphVertex.getKey()] returns; [vertexEdges] is the
    vertex's own list of incident edges; [startVertex], [endVertex] and
    [weight] are the fields of a [GraphEdge] that the graph reads. *)
Record Store : Type := mkStore {
  vertexKey   : vref -> string;
  vertexEdges : vref -> list eref;
  startVertex : eref -> vref;
  endVertex   : eref -> vref;
  weight      : eref -> number
}.

(** The fields of [Graph] set by its constructor. *)
Record Graph : Type := mkGraph {
  vertices   : JSObject.t vref;
  edges      : JSObject.t eref;
  isDirected : bool
}.

Record State : Type := mkState {
  this : Graph;
  heap : Store
}.

(** [new Graph(isDirected)] *)
Definition constructor (directed : bool) : Graph :=
  {| vertices := JSObject.empty; edges := JSObject.empty; isDirected := directed |}.

(* ================================================================= *)
(** ** Exceptions and the state monad *)

(** The two [throw new Error(...)] of the class, named as the
    specification names them, and the [TypeError] that JavaScript raises
    when a property of [null] or [undefined] is read or written, or when a
    value that is not a function is called. *)
Inductive exn : Type :=
| DuplicateEdgeError
| EdgeNotFoundError
| TypeError.

Inductive result (A : Type) : Type :=
| Return (a : A)
| Throw (e : exn).
Arguments Return {A} a.
Arguments Throw {A} e.

Definition M (A : Type) : Type := State -> result A * State.

Definition ret {A} (a : A) : M A := fun s => (Return a, s).

Definition throw {A} (e : exn) : M A := fun s => (Throw e, s).

Definition bind {A B} (m : M A) (f : A -> M B) : M B :=
  fun s =>
    match m s with
    | (Return a, s') => f a s'
    | (Throw e, s') => (Throw e, s')
    end.

Definition reads {A} (f : State -> A) : M A := fun s => (Return (f s), s).

Definition modify (f : State -> State) : M unit := fun s => (Return tt, f s).

Declare Scope js_scope.
Delimit Scope js_scope with js.
Notation "x <- m ;; k" := (bind m (fun x => k))
  (at level 61, m at next level, right associativity) : js_scope.
Notation "m ;; k" := (bind m (fun _ => k))
  (at level 61, right associativity) : js_scope.
Open Scope js_scope.

(** [xs.forEach(f)]: the callback runs on each element in order and what
    it returns is dropped; an exception leaves the loop. *)
Fixpoint forEach {A B} (xs : list A) (f : A -> M B) : M unit :=
  match xs with
  | [] => ret tt
  | x :: xs' => f x ;; forEach xs' f
  end.

(** A method call on the value that a registry gave: it reaches the object
    when the value is one, and raises a [TypeError] on [null] and on a
    value that has no such method. *)
Definition deref {A} (o : value A) : M A :=
  match o with
  | Ref a => ret a
  | _ => throw TypeError
  end.

(** What a mutator of the class hands back: nothing ([undefined]), or the
    graph itself ([return this]). *)
Inductive completion : Type :=
| Undefined
| This.

(** The result of a computation and the state it ends in. *)
Definition outcome {A} (m : M A) (s : State) : result A := fst (m s).
Definition after {A} (m : M A) (s : State) : State := snd (m s).

(* ================================================================= *)
(** ** The collaborators [GraphVertex] and [GraphEdge] *)

(** Modelled from the spec: the class [GraphEdge] is not part of the
    sources.  Its [getKey()] is "a deterministic function of
    (startVertex.key, endVertex.key)"; the function itself is a parameter
    of the development. *)
Class EdgeKey : Type := edgeKey : string -> string -> string.

(** Modelled from the spec: the read-only half of the contract of the class
    [GraphVertex], which is not part of the sources: [getNeighbors()], "a
    sequence of vertices derived from the vertex's adjacency", and
    [findEdge(endVertex)], "local lookup among the vertex's own incident
    edges toward a specific neighbor", returning an edge or not-found. *)
Class VertexLookup : Type := {
  getNeighbors : Store -> vref -> list vref;
  findEdge : Store -> vref -> vref -> option eref
}.

(** Modelled from the spec: the members of the collaborator objects, which
    are not part of the sources.  They matter once a vertex or an edge has
    become the prototype of a registry (after [registry["__proto__"] = x]):
    a name that is not an own property of the registry then resolves on
    that object.  [vertexMember h p k] is what the name [k] resolves to on
    the vertex [p] (through its fields, its class and [Object.prototype]):
    a vertex, another truthy value, which answers none of the methods of a
    vertex, or a falsy value; [edgeMember] is the same for an edge.  The
    members are taken to be plain writable properties. *)
Class Members : Type := {
  vertexMember : Store -> vref -> string -> value vref;
  edgeMember : Store -> eref -> string -> value eref
}.

Module GraphVertex.
(** Modelled from the spec: [getKey()], a "stable, deterministic
    identity". *)
Definition getKey (v : vref) : M string :=
  reads (fun s => vertexKey (heap s) v).

Definition with_edges (h : Store) (v : vref) (es : list eref) : Store :=
  {| vertexKey := vertexKey h;
     vertexEdges := fun v' => if Nat.eqb v' v then es else vertexEdges h v';
     startVertex := startVertex h;
     endVertex := endVertex h;
     weight := weight h |}.

(** Modelled from the spec: [addEdge(edge)] "mutates the vertex's own
    adjacency bookkeeping": the edge is appended to the vertex's list. *)
Definition appended (h : Store) (v : vref) (e : eref) : Store :=
  with_edges h v (vertexEdges h v ++ [e]).

Definition addEdge (v : vref) (e : eref) : M unit :=
  modify (fun s => {| this := this s; heap := appended (heap s) v e |}).

(** Modelled from the spec: [deleteEdge(edge)] makes the vertex "drop its
    reference" to the edge, and "on an edge not present must be a safe
    no-op". *)
Definition dropped (h : Store) (v : vref) (e : eref) : Store :=
  with_edges h v (filter (fun e' => negb (Nat.eqb e' e)) (vertexEdges h v)).

Definition deleteEdge (v : vref) (e : eref) : M unit :=
  modify (fun s => {| this := this s; heap := dropped (heap s) v e |}).
End GraphVertex.

Module GraphEdge.
Definition key `{EK : EdgeKey} (h : Store) (e : eref) : string :=
  edgeKey (vertexKey h (startVertex h e)) (vertexKey h (endVertex h e)).

(** Modelled from the spec: [getKey()], computed from the keys of the two
    endpoints the edge has at the time of the call. *)
Definition getKey `{EK : EdgeKey} (e : eref) : M string :=
  reads (fun s => key (heap s) e).

Definition swapped (h : Store) (e : eref) : Store :=
  {| vertexKey := vertexKey h;
     vertexEdges := vertexEdges h;
     startVertex := fun e' => if Nat.eqb e' e then endVertex h e else startVertex h e';
     endVertex := fun e' => if Nat.eqb e' e then startVertex h e else endVertex h e';
     weight := weight h |}.

(** Modelled from the spec: [reverse()] "swaps startVertex/endVertex in
    place". *)
Definition reverse (e : eref) : M unit :=
  modify (fun s => {| this := this s; heap := swapped (heap s) e |}).
End GraphEdge.

(** Modelled from the spec: the lookups of a vertex whose adjacency is a
    list of incident edges.  A neighbour is the other endpoint of an
    incident edge; [findEdge] returns the first incident edge that has the
    given vertex as an endpoint.  With this reading an edge registered in
    both endpoints of an undirected graph is found from either side, as the
    specification's matrix property requires. *)
Definition otherEnd (h : Store) (v : vref) (e : eref) : vref :=
  if Nat.eqb (startVertex h e) v then endVertex h e else startVertex h e.

Definition touches (h : Store) (n : vref) (e : eref) : bool :=
  Nat.eqb (startVertex h e) n || Nat.eqb (endVertex h e) n.

#[export] Instance incidentLookup : VertexLookup := {|
  getNeighbors := fun h v => map (otherEnd h v) (vertexEdges h v);
  findEdge := fun h v n => find (touches h n) (vertexEdges h v)
|}.

(** Modelled from the spec: a second reading of the same contract, in which
    [findEdge(endVertex)] only returns an edge that ends at the given
    vertex ("toward" it). *)
Definition endsAt (h : Store) (n : vref) (e : eref) : bool :=
  Nat.eqb (endVertex h e) n.

Definition directionalLookup : VertexLookup := {|
  getNeighbors := fun h v => map (otherEnd h v) (vertexEdges h v);
  findEdge := fun h v n => find (endsAt h n) (vertexEdges h v)
|}.

(** Modelled from the spec: one key derivation that fits the contract, the
    two endpoint keys joined by an underscore. *)
Definition joinedKey : EdgeKey :=
  fun a b => String.append a (String.append "_" b).

(** Modelled from the spec: collaborator objects that have no members
    beyond those of [Object.prototype]. *)
#[export] Instance bareMembers : Members := {|
  vertexMember := fun _ _ k => if JSObject.inheritedName k then Foreign else Nothing;
  edgeMember := fun _ _ k => if JSObject.inheritedName k then Foreign else Nothing
|}.

(* ================================================================= *)
(** ** Matrices *)

Definition matrix := list (list number).

(** [Array(n).fill(x)] *)
Definition fill {A} (n : nat) (x : A) : list A := repeat x n.

Fixpoint replaceAt {A} (l : list A) (i : nat) (x : A) : list A :=
  match l, i with
  | [], _ => []
  | _ :: l', O => x :: l'
  | y :: l', S i' => y :: replaceAt l' i' x
  end.

(** [row[j] = x] on a row array, where [j] is what the index object gave.
    When [j] is [undefined], or a value inherited from [Object.prototype],
    the assignment creates a property named by the string form of [j]
    ("undefined", the source text of a function, "[object Object]") and no
    cell changes.  A column index that is a number comes from
    [getVerticesIndices], so it is below the length of the row (lemma
    [indices_bound]); [replaceAt] leaves the row alone outside that
    range. *)
Definition assignCell (row : list number) (j : value nat) (x : number) : list number :=
  match j with
  | Ref j => replaceAt row j x
  | _ => row
  end.

(** [m[i][j] = x]: reading [m[i]] yields [undefined] when [i] is not the
    index of a row of [m], and the assignment then raises a
    [TypeError]. *)
Definition assign (m : matrix) (i j : value nat) (x : number) : result matrix :=
  match i with
  | Ref i =>
      match nth_error m i with
      | Some row => Return (replaceAt m i (assignCell row j x))
      | None => Throw TypeError
      end
  | _ => Throw TypeError
  end.

(** A [forEach] whose callback updates a local variable and may raise. *)
Fixpoint forEachLocal {A L} (xs : list A) (f : L -> A -> result L) (l : L) : result L :=
  match xs with
  | [] => Return l
  | x :: xs' =>
      match f l x with
      | Return l' => forEachLocal xs' f l'
      | Throw e => Throw e
      end
  end.

(** The elements of an array paired with their positions, as the callbacks
    of [forEach] and [reduce] receive them. *)
Definition indexed {A} (xs : list A) : list (nat * A) := combine (seq 0 (List.length xs)) xs.

(** [m[i][j]] *)
Definition cell (m : matrix) (i j : nat) : option number :=
  match nth_error m i with
  | Some row => nth_error row j
  | None => None
  end.

(* ================================================================= *)
(** ** Variant A: [codigo_a.js] *)

Module A.
Section Methods.
Context `{EK : EdgeKey} `{VL : VertexLookup} `{MB : Members}.

Definition setVertices (s : State) (vs : JSObject.t vref) : State :=
  {| this := {| vertices := vs; edges := edges (this s); isDirected := isDirected (this s) |};
     heap := heap s |}.

Definition setEdges (s : State) (es : JSObject.t eref) : State :=
  {| this := {| vertices := vertices (this s); edges := es; isDirected := isDirected (this s) |};
     heap := heap s |}.

(** [this.vertices[newVertex.getKey()] = newVertex; return this] *)
Definition addVertex (newVertex : vref) : M completion :=
  k <- GraphVertex.getKey newVertex ;;
  modify (fun s => setVertices s (JSObject.assign (vertices (this s)) k newVertex)) ;;
  ret This.

(** [this.vertices[vertexKey] || null] *)
Definition getVertexByKey (vertexKey : string) : M (value vref) :=
  reads (fun s => JSObject.get (vertexMember (heap s)) (vertices (this s)) vertexKey).

Definition getAllVertices : M (list vref) :=
  reads (fun s => JSObject.values (vertices (this s))).

Definition getAllEdges : M (list eref) :=
  reads (fun s => JSObject.values (edges (this s))).

Definition addEdge (edge : eref) : M completion :=
  edgeStart <- reads (fun s => startVertex (heap s) edge) ;;
  startKey <- GraphVertex.getKey edgeStart ;;
  startVertex <- getVertexByKey startKey ;;
  edgeEnd <- reads (fun s => endVertex (heap s) edge) ;;
  endKey <- GraphVertex.getKey edgeEnd ;;
  endVertex <- getVertexByKey endKey ;;
  startVertex <- (if truthy startVertex then ret startVertex
                  else addVertex edgeStart ;; getVertexByKey startKey) ;;
  endVertex <- (if truthy endVertex then ret endVertex
                else addVertex edgeEnd ;; getVertexByKey endKey) ;;
  k <- GraphEdge.getKey edge ;;
  registered <- reads (fun s => JSObject.get (edgeMember (heap s)) (edges (this s)) k) ;;
  (if truthy registered then throw DuplicateEdgeError
   else
     k <- GraphEdge.getKey edge ;;
     modify (fun s => setEdges s (JSObject.assign (edges (this s)) k edge))) ;;
  directed <- reads (fun s => isDirected (this s)) ;;
  (if directed then
     v <- deref startVertex ;; GraphVertex.addEdge v edge
   else
     v <- deref startVertex ;; GraphVertex.addEdge v edge ;;
     w <- deref endVertex ;; GraphVertex.addEdge w edge) ;;
  ret This.

Definition deleteEdge (edge : eref) : M completion :=
  k <- GraphEdge.getKey edge ;;
  registered <- reads (fun s => JSObject.get (edgeMember (heap s)) (edges (this s)) k) ;;
  (if truthy registered then
     k <- GraphEdge.getKey edge ;;
     modify (fun s => setEdges s (JSObject.delete (edges (this s)) k))
   else throw EdgeNotFoundError) ;;
  edgeStart <- reads (fun s => startVertex (heap s) edge) ;;
  startKey <- GraphVertex.getKey edgeStart ;;
  startVertex <- getVertexByKey startKey ;;
  edgeEnd <- reads (fun s => endVertex (heap s) edge) ;;
  endKey <- GraphVertex.getKey edgeEnd ;;
  endVertex <- getVertexByKey endKey ;;
  v <- deref startVertex ;; GraphVertex.deleteEdge v edge ;;
  w <- deref endVertex ;; GraphVertex.deleteEdge w edge ;;
  ret Undefined.

(** [if (!vertex) return null; return vertex.findEdge(endVertex)] *)
Definition findEdge (startVertex endVertex : vref) : M (option eref) :=
  k <- GraphVertex.getKey startVertex ;;
  vertex <- getVertexByKey k ;;
  if truthy vertex then
    vertex <- deref vertex ;;
    reads (fun s => findEdge (heap s) vertex endVertex)
  else ret None.

(** [reduce((weight, graphEdge) => weight + graphEdge.weight, 0)] *)
Definition getWeight : M number :=
  es <- getAllEdges ;;
  reads (fun s => fold_left (fun w graphEdge => (w + weight (heap s) graphEdge)%float) es 0%float).

Definition reverse : M completion :=
  es <- getAllEdges ;;
  forEach es (fun edge =>
    deleteEdge edge ;;
    GraphEdge.reverse edge ;;
    addEdge edge) ;;
  ret This.

(** [verticesIndices[vertex.getKey()] = index], for each vertex and its
    position. *)
Definition getVerticesIndices : M (JSObject.t nat) :=
  vs <- getAllVertices ;;
  reads (fun s =>
    fold_left (fun verticesIndices '(index, vertex) =>
                 JSObject.assignNumber verticesIndices (vertexKey (heap s) vertex) index)
              (indexed vs) JSObject.empty).

Definition getAdjacencyMatrix : M matrix :=
  vs <- getAllVertices ;;
  verticesIndices <- getVerticesIndices ;;
  let adjacencyMatrix := map (fun _ => fill (List.length vs) Infinity) (fill (List.length vs) tt) in
  fun s =>
    (forEachLocal (indexed vs) (fun m '(vertexIndex, vertex) =>
       forEachLocal (getNeighbors (heap s) vertex) (fun m neighbor =>
         let neighborIndex :=
           JSObject.get JSObject.noMembers verticesIndices (vertexKey (heap s) neighbor) in
         match outcome (findEdge vertex neighbor) s with
         | Return (Some e) => assign m (Ref vertexIndex) neighborIndex (weight (heap s) e)
         | Return None => Throw TypeError
         | Throw x => Throw x
         end) m) adjacencyMatrix, s).

(** [vertex.getNeighbors()] *)
Definition getNeighbors (vertex : vref) : M (list vref) :=
  reads (fun s => getNeighbors (heap s) vertex).

(** [Object.keys(this.vertices).toString()]: the string form of an array
    is its elements joined by a comma. *)
Definition toString : M string :=
  reads (fun s => String.concat "," (JSObject.keys (vertices (this s)))).
End Methods.
End A.

(* ================================================================= *)
(** ** Variant B: [codigo_b.js] *)

Module B.
Section Methods.
Context `{EK : EdgeKey} `{VL : VertexLookup} `{MB : Members}.

Definition setVertices (s : State) (vs : JSObject.t vref) : State :=
  {| this := {| vertices := vs; edges := edges (this s); isDirected := isDirected (this s) |};
     heap := heap s |}.

Definition setEdges (s : State) (es : JSObject.t eref) : State :=
  {| this := {| vertices := vertices (this s); edges := es; isDirected := isDirected (this s) |};
     heap := heap s |}.

(** [this.vertices[vertex.getKey()] = vertex] *)
Definition addVertex (vertex : vref) : M completion :=
  k <- GraphVertex.getKey vertex ;;
  modify (fun s => setVertices s (JSObject.assign (vertices (this s)) k vertex)) ;;
  ret Undefined.

(** [this.vertices[key] || null] *)
Definition getVertexByKey (key : string) : M (value vref) :=
  reads (fun s => JSObject.get (vertexMember (heap s)) (vertices (this s)) key).

Definition getAllVertices : M (list vref) :=
  reads (fun s => JSObject.values (vertices (this s))).

Definition getAllEdges : M (list eref) :=
  reads (fun s => JSObject.values (edges (this s))).

Definition _ensureVertexExists (vertex : vref) : M completion :=
  k <- GraphVertex.getKey vertex ;;
  registered <- getVertexByKey k ;;
  (if truthy registered then ret tt
   else addVertex vertex ;; ret tt) ;;
  ret Undefined.

Definition _connectVertices (edge : eref) : M completion :=
  edgeStart <- reads (fun s => startVertex (heap s) edge) ;;
  GraphVertex.addEdge edgeStart edge ;;
  directed <- reads (fun s => isDirected (this s)) ;;
  (if negb directed then
     edgeEnd <- reads (fun s => endVertex (heap s) edge) ;;
     GraphVertex.addEdge edgeEnd edge
   else ret tt) ;;
  ret Undefined.

Definition addEdge (edge : eref) : M completion :=
  k <- GraphEdge.getKey edge ;;
  registered <- reads (fun s => JSObject.get (edgeMember (heap s)) (edges (this s)) k) ;;
  (if truthy registered then throw DuplicateEdgeError else ret tt) ;;
  k <- GraphEdge.getKey edge ;;
  modify (fun s => setEdges s (JSObject.assign (edges (this s)) k edge)) ;;
  edgeStart <- reads (fun s => startVertex (heap s) edge) ;;
  _ensureVertexExists edgeStart ;;
  edgeEnd <- reads (fun s => endVertex (heap s) edge) ;;
  _ensureVertexExists edgeEnd ;;
  _connectVertices edge ;;
  ret Undefined.

Definition deleteEdge (edge : eref) : M completion :=
  k <- GraphEdge.getKey edge ;;
  registered <- reads (fun s => JSObject.get (edgeMember (heap s)) (edges (this s)) k) ;;
  (if truthy registered then ret tt else throw EdgeNotFoundError) ;;
  k <- GraphEdge.getKey edge ;;
  modify (fun s => setEdges s (JSObject.delete (edges (this s)) k)) ;;
  edgeStart <- reads (fun s => startVertex (heap s) edge) ;;
  GraphVertex.deleteEdge edgeStart edge ;;
  edgeEnd <- reads (fun s => endVertex (heap s) edge) ;;
  GraphVertex.deleteEdge edgeEnd edge ;;
  ret Undefined.

(** [startVertex?.findEdge(endVertex) || null]: the first argument may be
    [null] or [undefined]. *)
Definition findEdge (startVertex : option vref) (endVertex : vref) : M (option eref) :=
  match startVertex with
  | None => ret None
  | Some startVertex => reads (fun s => findEdge (heap s) startVertex endVertex)
  end.

(** [reduce((total, edge) => total + edge.weight, 0)] *)
Definition getWeight : M number :=
  es <- getAllEdges ;;
  reads (fun s => fold_left (fun total edge => (total + weight (heap s) edge)%float) es 0%float).

(** [const edges = [...this.getAllEdges()]] *)
Definition reverse : M completion :=
  es <- getAllEdges ;;
  forEach es (fun edge =>
    deleteEdge edge ;;
    GraphEdge.reverse edge ;;
    addEdge edge) ;;
  ret Undefined.

(** [reduce((acc, vertex, index) => { acc[vertex.getKey()] = index; return acc; }, {})] *)
Definition getVerticesIndices : M (JSObject.t nat) :=
  vs <- getAllVertices ;;
  reads (fun s =>
    fold_left (fun acc '(index, vertex) =>
                 JSObject.assignNumber acc (vertexKey (heap s) vertex) index)
              (indexed vs) JSObject.empty).

Definition getAdjacencyMatrix : M matrix :=
  vs <- getAllVertices ;;
  indices <- getVerticesIndices ;;
  let size := List.length vs in
  let matrix := map (fun _ => fill size Infinity) (fill size tt) in
  fun s =>
    (forEachLocal vs (fun m vertex =>
       forEachLocal (getNeighbors (heap s) vertex) (fun m neighbor =>
         let weight :=
           match outcome (findEdge (Some vertex) neighbor) s with
           | Return (Some e) => weight (heap s) e
           | _ => Infinity
           end in
         assign m (JSObject.get JSObject.noMembers indices (vertexKey (heap s) vertex))
                  (JSObject.get JSObject.noMembers indices (vertexKey (heap s) neighbor))
                  weight) m) matrix, s).

(** [Object.keys(this.vertices).join(', ')] *)
Definition toString : M string :=
  reads (fun s => String.concat ", " (JSObject.keys (vertices (this s)))).
End Methods.
End B.

(* ================================================================= *)
(** ** The example scenario of the specification *)

Module Scenario.
Local Open Scope string_scope.

(** Three vertex objects A, B, C at addresses 0, 1, 2 and three edge
    objects: 0 is A -> B of weight 1, 1 is B -> C of weight 2, and 2 is
    B -> A of weight 7. *)
Definition heap0 : Store :=
  {| vertexKey := fun v => match v with 0 => "A" | 1 => "B" | _ => "C" end;
     vertexEdges := fun _ => [];
     startVertex := fun e => match e with 0 => 0 | _ => 1 end;
     endVertex := fun e => match e with 0 => 1 | 1 => 2 | _ => 0 end;
     weight := fun e => match e with 0 => 1%float | 1 => 2%float | _ => 7%float end |}.

Definition start (directed : bool) : State :=
  {| this := constructor directed; heap := heap0 |}.
End Scenario.

(* ================================================================= *)
(** ** Properties of a state *)

(** [this.vertices[k]] and [this.edges[k]] in the state [s]. *)
Definition vertexAt `{MB : Members} (s : State) (k : string) : value vref :=
  JSObject.get (vertexMember (heap s)) (vertices (this s)) k.

Definition edgeAt `{MB : Members} (s : State) (k : string) : value eref :=
  JSObject.get (edgeMember (heap s)) (edges (this s)) k.

(** The vertex registry after [vertex] has been registered unless a lookup
    of its key gave a truthy value: what [addEdge] does to each
    endpoint. *)
Definition ensured `{MB : Members} (h : Store) (vs : JSObject.t vref) (v : vref)
    : JSObject.t vref :=
  if truthy (JSObject.get (vertexMember h) vs (vertexKey h v)) then vs
  else JSObject.assign vs (vertexKey h v) v.

(** Every edge in the edge registry has both its endpoints' keys in the
    vertex registry. *)
Definition edgesHaveVertices (s : State) : Prop :=
  forall k e, In (k, e) (JSObject.props (edges (this s))) ->
    JSObject.own (vertices (this s)) (vertexKey (heap s) (startVertex (heap s) e)) <> None /\
    JSObject.own (vertices (this s)) (vertexKey (heap s) (endVertex (heap s) e)) <> None.

(** Every key in the edge registry was derived from two keys that are in
    the vertex registry. *)
Definition keysHaveVertices `{EK : EdgeKey} (s : State) : Prop :=
  forall k e, In (k, e) (JSObject.props (edges (this s))) ->
    exists ka kb, k = edgeKey ka kb /\
      JSObject.own (vertices (this s)) ka <> None /\
      JSObject.own (vertices (this s)) kb <> None.

(** Two edges whose endpoints carry the same keys. *)
Definition sameEndpointKeys (h : Store) (e e' : eref) : Prop :=
  vertexKey h (startVertex h e) = vertexKey h (startVertex h e') /\
  vertexKey h (endVertex h e) = vertexKey h (endVertex h e').

(** A key derivation that tells pairs of endpoint keys apart. *)
Definition keyInjective (EK : EdgeKey) : Prop :=
  forall a b c d, edgeKey a b = edgeKey c d -> a = c /\ b = d.

(** Every edge is registered under the key it has now. *)
Definition edgesKeyed `{EK : EdgeKey} (s : State) : Prop :=
  forall k e, In (k, e) (JSObject.props (edges (this s))) -> k = GraphEdge.key (heap s) e.

(** The weights of a list of edges added up from the left, starting from
    0, as [reduce] does. *)
Definition total (h : Store) (es : list eref) : number :=
  fold_left (fun w e => (w + weight h e)%float) es 0%float.

(** That sum over the edges in the edge registry, in enumeration order. *)
Definition sumOfWeights (s : State) : number :=
  total (heap s) (JSObject.values (edges (this s))).

(** No vertex object has a key that [Object.prototype] defines. *)
Definition plainVertexKeys (h : Store) : Prop :=
  forall v, JSObject.inheritedName (vertexKey h v) = false.

(** The vertex objects have plain keys and the vertex registry still has
    [Object.prototype] as its prototype: a lookup of the key of a vertex
    then finds an own property or nothing. *)
Definition plainVertices (s : State) : Prop :=
  plainVertexKeys (heap s) /\ JSObject.pristine (vertices (this s)).

(** The three together: what a graph over vertex objects with plain keys
    keeps along the public operations. *)
Definition settled `{EK : EdgeKey} (s : State) : Prop :=
  plainVertices s /\ edgesHaveVertices s /\ keysHaveVertices s.

(** A key that a pristine object neither inherits nor enumerates out of
    insertion order. *)
Definition plainKey (k : string) : Prop :=
  JSObject.inheritedName k = false /\ JSObject.arrayIndex k = None.

(* ================================================================= *)
(** ** The states that addEdge and deleteEdge lead to *)

(** The heap after the edge has been connected: to the start vertex, and in
    an undirected graph to the end vertex as well. *)
Definition connected (directed : bool) (h : Store) (a b : vref) (e : eref) : Store :=
  if directed then GraphVertex.appended h a e
  else GraphVertex.appended (GraphVertex.appended h a e) b e.

(** The object that a key resolves to, or [v] itself when the key resolves
    to no vertex (and [v] is about to be registered). *)
Definition resolved `{MB : Members} (h : Store) (vs : JSObject.t vref) (v : vref) : vref :=
  match JSObject.get (vertexMember h) vs (vertexKey h v) with
  | Ref r => r
  | _ => v
  end.

(** Variant A looks both endpoints up before it registers either. *)
Definition ensuredBoth `{MB : Members} (h : Store) (vs : JSObject.t vref) (a b : vref)
    : JSObject.t vref :=
  if truthy (JSObject.get (vertexMember h) vs (vertexKey h b)) then ensured h vs a
  else JSObject.assign (ensured h vs a) (vertexKey h b) b.

(** The state after [addEdge(e)] has run to its end, variant A: the edge is
    connected to the vertex objects that the keys of its endpoints resolve
    to. *)
Definition addedA `{EK : EdgeKey} `{MB : Members} (s : State) (e : eref) : State :=
  let h := heap s in
  let a := startVertex h e in
  let b := endVertex h e in
  let vs := vertices (this s) in
  {| this := {| vertices := ensuredBoth h vs a b;
                edges := JSObject.assign (edges (this s)) (GraphEdge.key h e) e;
                isDirected := isDirected (this s) |};
     heap := connected (isDirected (this s)) h (resolved h vs a) (resolved h vs b) e |}.

(** The same for variant B: the edge is connected to its own endpoints. *)
Definition addedB `{EK : EdgeKey} `{MB : Members} (s : State) (e : eref) : State :=
  let h := heap s in
  let a := startVertex h e in
  let b := endVertex h e in
  let vs := vertices (this s) in
  {| this := {| vertices := ensured h (ensured h vs a) b;
                edges := JSObject.assign (edges (this s)) (GraphEdge.key h e) e;
                isDirected := isDirected (this s) |};
     heap := connected (isDirected (this s)) h a b e |}.

(** The state after [deleteEdge(e)] has run to its end, variant B. *)
Definition deletedB `{EK : EdgeKey} (s : State) (e : eref) : State :=
  let h := heap s in
  {| this := {| vertices := vertices (this s);
                edges := JSObject.delete (edges (this s)) (GraphEdge.key h e);
                isDirected := isDirected (this s) |};
     heap := GraphVertex.dropped (GraphVertex.dropped h (startVertex h e) e) (endVertex h e) e |}.

(** Variant A drops the edge from the vertex objects [v] and [w] that the
    keys of its endpoints resolve to. *)
Definition deletedA `{EK : EdgeKey} (s : State) (e : eref) (v w : vref) : State :=
  let h := heap s in
  {| this := {| vertices := vertices (this s);
                edges := JSObject.delete (edges (this s)) (GraphEdge.key h e);
                isDirected := isDirected (this s) |};
     heap := GraphVertex.dropped (GraphVertex.dropped h v e) w e |}.

(* ================================================================= *)
(** ** The parts of getAdjacencyMatrix *)

(** The object that [getVerticesIndices] builds from the list of vertices. *)
Definition indicesOf (h : Store) (vs : list vref) : JSObject.t nat :=
  fold_left (fun acc '(index, vertex) => JSObject.assignNumber acc (vertexKey h vertex) index)
            (indexed vs) JSObject.empty.

(** [indices[k]] *)
Definition indexAt (h : Store) (vs : list vref) (k : string) : value nat :=
  JSObject.get JSObject.noMembers (indicesOf h vs) k.

(** The matrix before any weight is written. *)
Definition blank (n : nat) : matrix := map (fun _ => fill n Infinity) (fill n tt).

(** An [n] by [n] matrix. *)
Definition square (n : nat) (m : matrix) : Prop :=
  List.length m = n /\ Forall (fun row => List.length row = n) m.

(** [this.findEdge(vertex, neighbor)?.weight ?? Infinity], variant B. *)
Definition weightOrInfinity `{VL : VertexLookup} (h : Store) (v n : vref) : number :=
  match findEdge h v n with
  | Some e => weight h e
  | None => Infinity
  end.

(** The edge that [this.findEdge(vertex, neighbor)] gives in variant A,
    where the vertex is looked up by its key before it is asked; [None]
    when the call gives [null] or raises. *)
Definition lookupA `{VL : VertexLookup} `{MB : Members} (s : State) (v n : vref)
    : option eref :=
  match vertexAt s (vertexKey (heap s) v) with
  | Ref registered => findEdge (heap s) registered n
  | _ => None
  end.

(** The loops of [getAdjacencyMatrix] over the blank matrix, variant A. *)
Definition fillA `{VL : VertexLookup} `{MB : Members} (s : State) : result matrix :=
  let h := heap s in
  let vs := JSObject.values (vertices (this s)) in
  forEachLocal (indexed vs) (fun m '(vertexIndex, vertex) =>
    forEachLocal (getNeighbors h vertex) (fun m neighbor =>
      match lookupA s vertex neighbor with
      | Some e => assign m (Ref vertexIndex) (indexAt h vs (vertexKey h neighbor)) (weight h e)
      | None => Throw TypeError
      end) m) (blank (List.length vs)).

(** The same for variant B. *)
Definition fillB `{VL : VertexLookup} (s : State) : result matrix :=
  let h := heap s in
  let vs := JSObject.values (vertices (this s)) in
  forEachLocal vs (fun m vertex =>
    forEachLocal (getNeighbors h vertex) (fun m neighbor =>
      assign m (indexAt h vs (vertexKey h vertex))
               (indexAt h vs (vertexKey h neighbor))
               (weightOrInfinity h vertex neighbor)) m) (blank (List.length vs)).

(** The pair [(v, n)] makes the loops write the cell [(i, j)]: [v] is a
    registered vertex, [n] one of its neighbours, and their keys have the
    indices [i] and [j]. *)
Definition writes `{VL : VertexLookup} (s : State) (v n : vref) (i j : nat) : Prop :=
  let h := heap s in
  let vs := JSObject.values (vertices (this s)) in
  In v vs /\ In n (getNeighbors h v) /\
  indexAt h vs (vertexKey h v) = Ref i /\
  indexAt h vs (vertexKey h n) = Ref j.

(** Every vertex is registered under the key it has. *)
Definition verticesKeyed (s : State) : Prop :=
  forall k v, In (k, v) (JSObject.props (vertices (this s))) -> vertexKey (heap s) v = k.

(** The vertex registry is a well-formed object that holds every vertex
    under the vertex's own key. *)
Definition registryKeyed (s : State) : Prop :=
  JSObject.wf (vertices (this s)) /\ verticesKeyed s.



(** The vertex object [v] is registered under its key, or a lookup of its
    key gives nothing. *)
Definition ownKey `{MB : Members} (s : State) (v : vref) : Prop :=
  JSObject.own (vertices (this s)) (vertexKey (heap s) v) = Some v \/
  vertexAt s (vertexKey (heap s) v) = Nothing.

(* ================================================================= *)
(** ** The graphs that reverse can process *)

(** The key that an edge gets once its endpoints are swapped. *)
Definition reversedKey `{EK : EdgeKey} (h : Store) (e : eref) : string :=
  edgeKey (vertexKey h (endVertex h e)) (vertexKey h (startVertex h e)).

(** The registry entries of a list of edges, under their keys and under
    their reversed keys. *)
Definition entries `{EK : EdgeKey} (h : Store) (es : list eref) : list (string * eref) :=
  map (fun e => (GraphEdge.key h e, e)) es.

Definition reversedEntries `{EK : EdgeKey} (h : Store) (es : list eref)
    : list (string * eref) :=
  map (fun e => (reversedKey h e, e)) es.

(** No registered edge is the reversal of another one: the reversed keys
    are pairwise distinct, and the reversed key of an edge is not the key of
    a different registered edge. *)
Definition noOppositeEdges `{EK : EdgeKey} (s : State) : Prop :=
  let es := JSObject.values (edges (this s)) in
  NoDup (map (reversedKey (heap s)) es) /\
  forall e e', In e es -> In e' es -> e <> e' ->
    reversedKey (heap s) e <> GraphEdge.key (heap s) e'.

(** The reversed key of every registered edge is a plain key: the edge
    registry does not inherit it and enumerates it where it is created. *)
Definition plainReversedKeys `{EK : EdgeKey} (s : State) : Prop :=
  forall e, In e (JSObject.values (edges (this s))) -> plainKey (reversedKey (heap s) e).

(** The heap [h] is [h0] with the endpoints of the edges in [done] swapped;
    the keys of the vertices are those of [h0]. *)
Definition flipped (h0 : Store) (done : list eref) (h : Store) : Prop :=
  vertexKey h = vertexKey h0 /\
  forall x,
    (In x done -> startVertex h x = endVertex h0 x /\ endVertex h x = startVertex h0 x) /\
    (~ In x done -> startVertex h x = startVertex h0 x /\ endVertex h x = endVertex h0 x).

(** The two heaps give every vertex the same set of incident edges. *)
Definition sameAdjacency (h0 h : Store) : Prop :=
  forall v x, In x (vertexEdges h v) <-> In x (vertexEdges h0 v).

(** Every registered edge is in the adjacency list of both its endpoints
    (variant B connects an edge to its own endpoints). *)
Definition attachedB (s : State) : Prop :=
  forall e, In e (JSObject.values (edges (this s))) ->
    In e (vertexEdges (heap s) (startVertex (heap s) e)) /\
    In e (vertexEdges (heap s) (endVertex (heap s) e)).

(** The same for variant A, which connects an edge to the vertices that the
    keys of its endpoints resolve to. *)
Definition attachedA (s : State) : Prop :=
  forall e, In e (JSObject.values (edges (this s))) ->
    exists a b,
      JSObject.own (vertices (this s)) (vertexKey (heap s) (startVertex (heap s) e)) = Some a /\
      JSObject.own (vertices (this s)) (vertexKey (heap s) (endVertex (heap s) e)) = Some b /\
      In e (vertexEdges (heap s) a) /\ In e (vertexEdges (heap s) b).

(** The edge registry is a well-formed object that holds every edge under
    the key the edge has now. *)
Definition edgeRegistryKeyed `{EK : EdgeKey} (s : State) : Prop :=
  JSObject.wf (edges (this s)) /\ edgesKeyed s.

(** The object with the own properties [l] and [Object.prototype] as its
    prototype. *)
Definition listed {V} (l : list (string * V)) : JSObject.t V :=
  {| JSObject.props := l; JSObject.proto := None |}.

(** The key of every registered edge is a plain key. *)
Definition plainEdgeKeys `{EK : EdgeKey} (s : State) : Prop :=
  forall e, In e (JSObject.values (edges (this s))) -> plainKey (GraphEdge.key (heap s) e).

(** What one pass of [reverse] may assume about the edges it still has to
    process ([rest]) and those it has flipped ([done]): the edges are
    pairwise distinct, the reversed key of an edge to process is a plain
    key and is neither a reversed key already registered nor the key of
    another edge to process, and every edge to process satisfies [E]. *)
Definition ready `{EK : EdgeKey} (h0 : Store) (E : eref -> Prop) (rest done : list eref) : Prop :=
  NoDup rest /\
  (forall x, In x rest -> ~ In x done) /\
  NoDup (map (reversedKey h0) rest) /\
  (forall x y, In x rest -> In y done -> reversedKey h0 x <> reversedKey h0 y) /\
  (forall x y, In x rest -> In y rest -> x <> y -> reversedKey h0 x <> GraphEdge.key h0 y) /\
  (forall x, In x rest -> plainKey (reversedKey h0 x)) /\
  (forall x, In x rest -> E x).

(** One round of the loop of [reverse]: from a state in which the edge [e]
    is the first entry of the edge registry, the processed edges follow the
    edges to process, and [I] holds, the body returns, moves [e] to the end
    of the registry under its reversed key, swaps its endpoints, and keeps
    [I]. *)
Definition iteration `{EK : EdgeKey} (h0 : Store) (I : State -> Prop) (E : eref -> Prop)
    (body : eref -> M completion) : Prop :=
  forall e t rest done,
    I t -> E e ->
    edges (this t) = listed (entries h0 (e :: rest) ++ reversedEntries h0 done) ->
    flipped h0 done (heap t) ->
    ~ In e done ->
    plainKey (reversedKey h0 e) ->
    (forall y, In y rest -> reversedKey h0 e <> GraphEdge.key h0 y) ->
    (forall y, In y done -> reversedKey h0 e <> reversedKey h0 y) ->
    exists x t', body e t = (Return x, t') /\ I t' /\
      edges (this t') = listed (entries h0 rest ++ reversedEntries h0 (done ++ [e])) /\
      flipped h0 (done ++ [e]) (heap t').

(** What the loop keeps in variant B: the flag, and, when [track] is asked
    for, the set of incident edges of every vertex. *)
Definition keepsB (h0 : Store) (d : bool) (track : Prop) (t : State) : Prop :=
  isDirected (this t) = d /\ (track -> sameAdjacency h0 (heap t)).

Definition joinedB (h0 : Store) (d : bool) (track : Prop) (e : eref) : Prop :=
  track -> d = false /\
    In e (vertexEdges h0 (startVertex h0 e)) /\ In e (vertexEdges h0 (endVertex h0 e)).

(** The state between [edge.reverse()] and [addEdge(edge)], variant B. *)
Definition flippedB `{EK : EdgeKey} (t : State) (e : eref) : State :=
  {| this := this (deletedB t e); heap := GraphEdge.swapped (heap (deletedB t e)) e |}.

(** The same for variant A, which also keeps the vertex registry. *)
Definition keepsA (h0 : Store) (vs0 : JSObject.t vref) (d : bool) (track : Prop)
    (t : State) : Prop :=
  vertices (this t) = vs0 /\ isDirected (this t) = d /\ (track -> sameAdjacency h0 (heap t)).

Definition joinedA (h0 : Store) (vs0 : JSObject.t vref) (d : bool) (track : Prop)
    (e : eref) : Prop :=
  exists a b,
    JSObject.own vs0 (vertexKey h0 (startVertex h0 e)) = Some a /\
    JSObject.own vs0 (vertexKey h0 (endVertex h0 e)) = Some b /\
    (track -> d = false /\ In e (vertexEdges h0 a) /\ In e (vertexEdges h0 b)).

Definition flippedA `{EK : EdgeKey} (t : State) (e : eref) (a b : vref) : State :=
  {| this := this (deletedA t e a b); heap := GraphEdge.swapped (heap (deletedA t e a b)) e |}.

(** The edge registry still has [Object.prototype] as its prototype. *)
Definition edgesPristine (s : State) : Prop := JSObject.pristine (edges (this s)).

(** A [deleteEdge] that keeps [edgeRegistryKeyed] and, when it returns,
    leaves the object it was given in no entry. *)
Definition deletes `{EK : EdgeKey} (deleteEdge : eref -> M completion) : Prop :=
  forall e s, edgeRegistryKeyed s ->
    edgeRegistryKeyed (after (deleteEdge e) s) /\
    (forall x, outcome (deleteEdge e) s = Return x ->
     forall k y, In (k, y) (JSObject.props (edges (this (after (deleteEdge e) s)))) -> y <> e).

(* ================================================================= *)
(** ** The states a graph can reach *)

(** The public operations that change a graph. *)
Inductive call : Type :=
| AddVertex (v : vref)
| AddEdge (e : eref)
| DeleteEdge (e : eref)
| Reverse.

Definition performA `{EK : EdgeKey} `{MB : Members} (c : call) : M completion :=
  match c with
  | AddVertex v => A.addVertex v
  | AddEdge e => A.addEdge e
  | DeleteEdge e => A.deleteEdge e
  | Reverse => A.reverse
  end.

Definition performB `{EK : EdgeKey} `{MB : Members} (c : call) : M completion :=
  match c with
  | AddVertex v => B.addVertex v
  | AddEdge e => B.addEdge e
  | DeleteEdge e => B.deleteEdge e
  | Reverse => B.reverse
  end.

(** A graph starts empty, over any heap of vertex and edge objects, and
    moves by the public operations; a call that throws leaves the graph in
    the state it had reached. *)
Inductive reachable (perform : call -> M completion) : State -> Prop :=
| reachable_new (directed : bool) (h : Store) :
    reachable perform {| this := constructor directed; heap := h |}
| reachable_call (s : State) (c : call) :
    reachable perform s -> reachable perform (after (perform c) s).

(** A property of states that a computation keeps, whether it returns or
    throws. *)
Definition preserves {A} (P : State -> Prop) (m : M A) : Prop :=
  forall s, P s -> P (after m s).

(** The executions used to show where the two variants part.  All of them
    use [joinedKey] and the incident-edge reading of the vertex lookups. *)
Module Collision.
Local Open Scope string_scope.

(** Four vertex objects with keys "a_b", "c", "a", "b_c" and two edge
    objects: 0 is "a_b" -> "c", 1 is "a" -> "b_c".  Both edges get the
    key "a_b_c". *)
Definition heap0 : Store :=
  {| vertexKey := fun v => match v with 0 => "a_b" | 1 => "c" | 2 => "a" | _ => "b_c" end;
     vertexEdges := fun _ => [];
     startVertex := fun e => match e with 0 => 0 | _ => 2 end;
     endVertex := fun e => match e with 0 => 1 | _ => 3 end;
     weight := fun e => match e with 0 => 1%float | _ => 5%float end |}.

Definition start : State := {| this := constructor false; heap := heap0 |}.

(** [g.addEdge(edge0)] on the empty graph, variant A. *)
Definition afterFirstA : State := after (A.addEdge (EK:=joinedKey) 0) start.
End Collision.

Module SharedVertex.
(** A second graph [g1], empty, next to the graph of the scenario after
    [g2.addEdge(A -> B)] (variant B): the vertex object A holds the edge
    but [g1] has no vertex registered. *)
Definition other : State :=
  {| this := constructor true;
     heap := heap (after (B.addEdge (EK:=joinedKey) 0) (Scenario.start true)) |}.
End SharedVertex.

(** Keys that a plain object inherits from [Object.prototype]. *)
Module Inherited.
Local Open Scope string_scope.

(** Four vertex objects with keys "constructor", "x", "" and "_proto__"
    and two edge objects: 0 is "constructor" -> "x", with key
    "constructor_x", and 1 is "" -> "_proto__", with key "__proto__". *)
Definition heap0 : Store :=
  {| vertexKey := fun v =>
       match v with 0 => "constructor" | 1 => "x" | 2 => "" | _ => "_proto__" end;
     vertexEdges := fun _ => [];
     startVertex := fun e => match e with 0 => 0 | _ => 2 end;
     endVertex := fun e => match e with 0 => 1 | _ => 3 end;
     weight := fun e => match e with 0 => 1%float | _ => 1%float end |}.

Definition start (directed : bool) : State :=
  {| this := constructor directed; heap := heap0 |}.
End Inherited.

(** Weights at which double-precision addition rounds. *)
Module Rounding.
Local Open Scope string_scope.

(** Vertices A, B, C, D and three edges: 0 is A -> B of weight 2^53, 1 is
    B -> C of weight 1, and 2 is C -> D of weight 1. *)
Definition heap0 : Store :=
  {| vertexKey := fun v => match v with 0 => "A" | 1 => "B" | 2 => "C" | _ => "D" end;
     vertexEdges := fun _ => [];
     startVertex := fun e => match e with 0 => 0 | 1 => 1 | _ => 2 end;
     endVertex := fun e => match e with 0 => 1 | 1 => 2 | _ => 3 end;
     weight := fun e => match e with 0 => 9007199254740992%float | _ => 1%float end |}.

Definition start : State := {| this := constructor true; heap := heap0 |}.

(** Another key derivation, the endpoint keys written one after the
    other, and vertices "2", "3", "1", "0" with three edges whose keys
    are array indices: 0 is "2" -> "0" of weight 2^53, with key "20"; 1 is
    "3" -> "0" of weight -2^53, with key "30"; and 2 is "1" -> "0" of
    weight 1, with key "10". *)
Definition concatKey : EdgeKey := String.append.

Definition heap1 : Store :=
  {| vertexKey := fun v => match v with 0 => "2" | 1 => "3" | 2 => "1" | _ => "0" end;
     vertexEdges := fun _ => [];
     startVertex := fun e => match e with 0 => 0 | 1 => 1 | _ => 2 end;
     endVertex := fun _ => 3;
     weight := fun e =>
       match e with
       | 0 => 9007199254740992%float
       | 1 => (-9007199254740992)%float
       | _ => 1%float
       end |}.

Definition numeric : State := {| this := constructor true; heap := heap1 |}.
End Rounding.

(** The graphs at which the theorems are instantiated. *)
(** Vertex objects for the cells of the matrix: 0 and 2 both have the key
    "A", 1 has the key "B".  The edge 0 is 0 -> 1 of weight 1, the edge 1 is
    the loop 0 -> 0 of weight 3, and the edge 2 is 2 -> 1 of weight 5. *)
Module Twin.
Local Open Scope string_scope.

Definition heap0 : Store :=
  {| vertexKey := fun v => match v with 1 => "B" | _ => "A" end;
     vertexEdges := fun _ => [];
     startVertex := fun e => match e with 2 => 2 | _ => 0 end;
     endVertex := fun e => match e with 1 => 0 | _ => 1 end;
     weight := fun e => match e with 0 => 1%float | 1 => 3%float | _ => 5%float end |}.

Definition start (directed : bool) : State :=
  {| this := constructor directed; heap := heap0 |}.
End Twin.

(** A vertex object that no longer answers [getKey()] with the key it is
    registered under: the registry holds the vertex 0 under "a", the vertex
    now has the key "__proto__", and it holds the edge 0 to the vertex 1,
    whose key is "b". *)
Module Renamed.
Local Open Scope string_scope.

Definition heap0 : Store :=
  {| vertexKey := fun v => match v with 0 => "__proto__" | _ => "b" end;
     vertexEdges := fun v => match v with 0 => [0] | _ => [] end;
     startVertex := fun _ => 0;
     endVertex := fun _ => 1;
     weight := fun _ => 1%float |}.

Definition state : State :=
  {| this := {| vertices := {| JSObject.props := [("a", 0)]; JSObject.proto := None |};
                edges := {| JSObject.props := [("a_b", 0)]; JSObject.proto := None |};
                isDirected := true |};
     heap := heap0 |}.
End Renamed.

Module Witnesses.
#[local] Existing Instance joinedKey.

(** The directed graph of the scenario after its first edge, A -> B. *)
Definition oneEdgeA : State := after (A.addEdge 0) (Scenario.start true).
Definition oneEdgeB : State := after (B.addEdge 0) (Scenario.start true).

(** The undirected graph of the scenario after the same edge. *)
Definition undirectedA : State := after (A.addEdge 0) (Scenario.start false).
Definition undirectedB : State := after (B.addEdge 0) (Scenario.start false).

(** The directed graph of the scenario after its first two edges, A -> B
    and B -> C. *)
Definition twoEdgesA : State := after (A.addEdge 1) oneEdgeA.
Definition twoEdgesB : State := after (B.addEdge 1) oneEdgeB.

(** The undirected graph of the scenario after the same two edges. *)
Definition twoUndirectedA : State := after (A.addEdge 1) undirectedA.
Definition twoUndirectedB : State := after (B.addEdge 1) undirectedB.

(** A key derivation that tells pairs of endpoint keys apart: every
    character of the first key follows a mark, and another mark ends the
    first key. *)
Fixpoint marked (a rest : string) : string :=
  match a with
  | EmptyString => String.append "0" rest
  | String c a => String.append "1" (String c (marked a rest))
  end.

Definition markedKey : EdgeKey := marked.

(** The directed graph of the scenario after its first edge, with that key
    derivation. *)
Definition markedA : State := after (A.addEdge (EK:=markedKey) 0) (Scenario.start true).
End Witnesses.

(* ================================================================= *)
(** ** Facts about objects used as maps *)

Module JSObjectFacts.
Import JSObject.

Lemma arrayIndex_inj (k k' : string) (n : N) :
  arrayIndex k = Some n -> arrayIndex k' = Some n -> k = k'.
Proof.
  unfold arrayIndex. intros H H'.
  destruct (NilZero.uint_of_string k) as [d|]; [|discriminate].
  destruct (NilZero.uint_of_string k') as [d'|]; [|discriminate].
  cbv zeta in *.
  destruct (String.eqb k _) eqn:E; [|discriminate].
  destruct (String.eqb k' _) eqn:E'; [|discriminate].
  destruct (N.ltb (N.of_uint d) _); [|discriminate].
  destruct (N.ltb (N.of_uint d') _); [|discriminate].
  simpl in *. injection H as H. injection H' as H'.
  apply String.eqb_eq in E, E'. rewrite E, E', H, H'. reflexivity.
Qed.

Lemma precedes_plain (k k' : string) : arrayIndex k = None -> precedes k k' = false.
Proof. unfold precedes. now intros ->. Qed.

Lemma precedes_irrefl (k : string) : precedes k k = false.
Proof.
  unfold precedes. destruct (arrayIndex k); [apply N.ltb_irrefl | reflexivity].
Qed.

(** A key that a later key does not precede and that precedes a key [k']
    is itself not preceded by what [k'] is not preceded by. *)
Lemma precedes_trans (k k' k'' : string) :
  precedes k k' = true -> precedes k'' k' = false -> precedes k'' k = false.
Proof.
  unfold precedes.
  destruct (arrayIndex k) as [n|]; [|discriminate].
  destruct (arrayIndex k'') as [n''|]; [|reflexivity].
  destruct (arrayIndex k') as [n'|]; [|discriminate].
  rewrite N.ltb_lt, !N.ltb_ge. lia.
Qed.

Lemma inheritedName_proto : inheritedName "__proto__" = true.
Proof. reflexivity. Qed.

Lemma arrayIndex_proto : arrayIndex "__proto__" = None.
Proof. reflexivity. Qed.

Section Lists.
Context {V : Type}.
Implicit Types (l : list (string * V)) (k : string) (v : V).

Lemma lookup_In l k v : lookup l k = Some v -> In (k, v) l.
Proof.
  induction l as [|[k' v'] l IH]; simpl; [discriminate|].
  destruct (String.eqb k k') eqn:E.
  - apply String.eqb_eq in E. intros [= ->]. left. now subst.
  - intros H. right. auto.
Qed.

Lemma lookup_None_notin l k : lookup l k = None <-> ~ In k (map fst l).
Proof.
  induction l as [|[k' v'] l IH]; simpl.
  - tauto.
  - destruct (String.eqb k k') eqn:E.
    + apply String.eqb_eq in E. subst. split; [discriminate | intros H; exfalso; apply H; now left].
    + apply String.eqb_neq in E. rewrite IH. split.
      * intros H [H'|H']; [congruence | contradiction].
      * intros H H'. apply H. now right.
Qed.

Lemma In_lookup l k v : NoDup (map fst l) -> In (k, v) l -> lookup l k = Some v.
Proof.
  induction l as [|[k' v'] l IH]; simpl; [tauto|].
  intros Hnd [H|H].
  - injection H as -> ->. now rewrite String.eqb_refl.
  - inversion Hnd as [|? ? Hnotin Hnd']; subst.
    destruct (String.eqb k k') eqn:E.
    + apply String.eqb_eq in E. subst k'. exfalso. apply Hnotin.
      change k with (fst (k, v)). now apply in_map.
    + auto.
Qed.

Lemma lookup_update_same l k v : lookup l k <> None -> lookup (update l k v) k = Some v.
Proof.
  induction l as [|[k' v'] l IH]; simpl; [congruence|].
  destruct (String.eqb k k') eqn:E; simpl; rewrite E; [reflexivity | exact IH].
Qed.

Lemma lookup_update_other l k k' v : k' <> k -> lookup (update l k v) k' = lookup l k'.
Proof.
  intros Hne. induction l as [|[k0 v0] l IH]; simpl; [reflexivity|].
  destruct (String.eqb k k0) eqn:E; simpl.
  - apply String.eqb_eq in E. subst k0.
    destruct (String.eqb k' k) eqn:E'; [apply String.eqb_eq in E'; contradiction | reflexivity].
  - destruct (String.eqb k' k0); [reflexivity | exact IH].
Qed.

Lemma update_same l k v : lookup l k = Some v -> update l k v = l.
Proof.
  induction l as [|[k' v'] l IH]; simpl; [reflexivity|].
  destruct (String.eqb k k') eqn:E.
  - now intros [= ->].
  - intros H. now rewrite IH.
Qed.

Lemma keys_update l k v : map fst (update l k v) = map fst l.
Proof.
  induction l as [|[k' v'] l IH]; simpl; [reflexivity|].
  destruct (String.eqb k k'); simpl; [reflexivity | now rewrite IH].
Qed.

Lemma In_update l k v k' v' :
  In (k', v') (update l k v) -> (k' = k /\ v' = v) \/ In (k', v') l.
Proof.
  induction l as [|[k0 v0] l IH]; simpl; [tauto|].
  destruct (String.eqb k k0) eqn:E; simpl.
  - apply String.eqb_eq in E. subst k0.
    intros [[= <- <-]|H]; [now left | right; now right].
  - intros [H|H]; [right; now left|].
    destruct (IH H) as [?|?]; [now left | right; now right].
Qed.

Lemma In_insert l k v (x : string * V) : In x (insert l k v) <-> x = (k, v) \/ In x l.
Proof.
  induction l as [|[k' v'] l IH]; simpl.
  - intuition.
  - destruct (precedes k k'); simpl; [intuition|]. rewrite IH. intuition.
Qed.

Lemma In_keys_insert l k v k' : In k' (map fst (insert l k v)) <-> k' = k \/ In k' (map fst l).
Proof.
  induction l as [|[k0 v0] l IH]; simpl.
  - intuition.
  - destruct (precedes k k0); simpl; [intuition|]. rewrite IH. intuition.
Qed.

Lemma lookup_insert_same l k v : lookup l k = None -> lookup (insert l k v) k = Some v.
Proof.
  induction l as [|[k' v'] l IH]; simpl.
  - now rewrite String.eqb_refl.
  - destruct (String.eqb k k') eqn:E; [discriminate|]. intros H.
    destruct (precedes k k'); simpl.
    + now rewrite String.eqb_refl.
    + rewrite E. auto.
Qed.

Lemma lookup_insert_other l k k' v : k' <> k -> lookup (insert l k v) k' = lookup l k'.
Proof.
  intros Hne. apply String.eqb_neq in Hne.
  induction l as [|[k0 v0] l IH]; simpl.
  - now rewrite Hne.
  - destruct (precedes k k0); simpl.
    + now rewrite Hne.
    + now rewrite IH.
Qed.

(** A key that precedes none of the keys is added at the end. *)
Lemma insert_append l k v :
  (forall k', In k' (map fst l) -> precedes k k' = false) -> insert l k v = l ++ [(k, v)].
Proof.
  induction l as [|[k' v'] l IH]; simpl; intros H; [reflexivity|].
  rewrite (H k' (or_introl eq_refl)). rewrite IH; [reflexivity|].
  intros k0 H0. apply H. now right.
Qed.

Lemma NoDup_insert l k v :
  NoDup (map fst l) -> ~ In k (map fst l) -> NoDup (map fst (insert l k v)).
Proof.
  induction l as [|[k' v'] l IH]; simpl; intros Hnd Hnew.
  - constructor; [simpl; tauto | constructor].
  - destruct (precedes k k'); simpl.
    + constructor; [exact Hnew | exact Hnd].
    + inversion Hnd as [|? ? Hnotin Hnd']; subst. constructor.
      * rewrite In_keys_insert. intros [->|H]; [apply Hnew; now left | contradiction].
      * apply IH; [exact Hnd'|]. intros H. apply Hnew. now right.
Qed.

Lemma ordered_insert l k v :
  ordered (map fst l) -> ~ In k (map fst l) -> ordered (map fst (insert l k v)).
Proof.
  induction l as [|[k' v'] l IH]; simpl; intros Hord Hnew.
  - split; [constructor | exact I].
  - destruct Hord as [Hall Hord].
    destruct (precedes k k') eqn:E; simpl.
    + split; [|split; assumption]. constructor.
      * destruct (precedes k' k) eqn:E'; [|reflexivity]. exfalso.
        unfold precedes in E, E'.
        destruct (arrayIndex k) as [n|]; [|discriminate].
        destruct (arrayIndex k') as [n'|]; [|discriminate].
        apply N.ltb_lt in E, E'. lia.
      * rewrite Forall_forall in *. intros k'' H''.
        apply (precedes_trans k k' k'' E). now apply Hall.
    + split.
      * rewrite Forall_forall in *. intros k'' H''. apply In_keys_insert in H''.
        destruct H'' as [->|H'']; [exact E | now apply Hall].
      * apply IH; [exact Hord|]. intros H. apply Hnew. now right.
Qed.

Lemma In_remove l k k' v' : In (k', v') (remove l k) -> In (k', v') l.
Proof.
  induction l as [|[k0 v0] l IH]; simpl; [tauto|].
  destruct (String.eqb k k0); simpl; [now right|].
  intros [H|H]; [now left | right; auto].
Qed.

Lemma In_keys_remove l k k' : In k' (map fst (remove l k)) -> In k' (map fst l).
Proof.
  induction l as [|[k0 v0] l IH]; simpl; [tauto|].
  destruct (String.eqb k k0); simpl; [now right|].
  intros [H|H]; [now left | right; auto].
Qed.

Lemma NoDup_remove l k : NoDup (map fst l) -> NoDup (map fst (remove l k)).
Proof.
  induction l as [|[k0 v0] l IH]; simpl; intros Hnd; [constructor|].
  inversion Hnd as [|? ? Hnotin Hnd']; subst.
  destruct (String.eqb k k0); simpl; [assumption|].
  constructor; [|auto]. intros Hin. apply Hnotin. eapply In_keys_remove; eauto.
Qed.

Lemma ordered_remove l k : ordered (map fst l) -> ordered (map fst (remove l k)).
Proof.
  induction l as [|[k0 v0] l IH]; simpl; intros Hord; [exact I|].
  destruct Hord as [Hall Hord].
  destruct (String.eqb k k0); simpl; [assumption|].
  split; [|auto]. rewrite Forall_forall in *. intros k' H'. apply Hall.
  eapply In_keys_remove; eauto.
Qed.

Lemma lookup_remove_same l k : NoDup (map fst l) -> lookup (remove l k) k = None.
Proof.
  induction l as [|[k0 v0] l IH]; simpl; intros Hnd; [reflexivity|].
  inversion Hnd as [|? ? Hnotin Hnd']; subst.
  destruct (String.eqb k k0) eqn:E; simpl.
  - apply String.eqb_eq in E. subst k0. now apply lookup_None_notin.
  - rewrite E. auto.
Qed.

Lemma lookup_remove_other l k k' : k' <> k -> lookup (remove l k) k' = lookup l k'.
Proof.
  intros Hne. induction l as [|[k0 v0] l IH]; simpl; [reflexivity|].
  destruct (String.eqb k k0) eqn:E; simpl.
  - apply String.eqb_eq in E. subst k0.
    destruct (String.eqb k' k) eqn:E'; [apply String.eqb_eq in E'; contradiction | reflexivity].
  - destruct (String.eqb k' k0); [reflexivity | exact IH].
Qed.

Lemma remove_absent l k : lookup l k = None -> remove l k = l.
Proof.
  induction l as [|[k0 v0] l IH]; simpl; [reflexivity|].
  destruct (String.eqb k k0); [discriminate|]. intros H. now rewrite IH.
Qed.

(** A new key that was added at the end is removed without a trace. *)
Lemma remove_insert l k v :
  lookup l k = None -> remove (insert l k v) k = l.
Proof.
  induction l as [|[k' v'] l IH]; simpl.
  - now rewrite String.eqb_refl.
  - destruct (String.eqb k k') eqn:E; [discriminate|]. intros H.
    destruct (precedes k k'); simpl.
    + now rewrite String.eqb_refl.
    + rewrite E. now rewrite IH.
Qed.
End Lists.

Section Objects.
Context {V : Type}.
Variable via : V -> string -> value V.
Implicit Types (o : JSObject.t V) (k : string) (v : V).

Lemma own_In o k v : own o k = Some v -> In (k, v) (props o).
Proof. apply lookup_In. Qed.

Lemma own_None_notin o k : own o k = None <-> ~ In k (keys o).
Proof. apply lookup_None_notin. Qed.

Lemma In_own o k v : wf o -> In (k, v) (props o) -> own o k = Some v.
Proof. intros (Hnd & _). now apply In_lookup. Qed.

Lemma get_own o k v : own o k = Some v -> get via o k = Ref v.
Proof. unfold get. now intros ->. Qed.

(** Under [Object.prototype] a read finds an own property, a name of
    [Object.prototype], or nothing. *)
Lemma get_pristine o k :
  pristine o ->
  get via o k = match own o k with
                | Some v => Ref v
                | None => if inheritedName k then Foreign else Nothing
                end.
Proof. unfold get, inherited, pristine. now intros ->. Qed.

Lemma get_pristine_any (via' : V -> string -> value V) o k :
  pristine o -> get via o k = get via' o k.
Proof. unfold get, inherited, pristine. now intros ->. Qed.

(** The key ["__proto__"] always reads as something. *)
Lemma get_proto_truthy o : truthy (get via o "__proto__") = true.
Proof.
  unfold get, inherited. destruct (own o "__proto__"); [reflexivity|].
  destruct (proto o); reflexivity.
Qed.

Lemma get_Nothing o k : get via o k = Nothing -> own o k = None /\ k <> "__proto__"%string.
Proof.
  intros H. split.
  - unfold get in H. destruct (own o k); [discriminate | reflexivity].
  - intros ->. pose proof (get_proto_truthy o) as Ht. now rewrite H in Ht.
Qed.

Lemma falsy_Nothing (x : value V) : truthy x = false <-> x = Nothing.
Proof. destruct x; simpl; split; congruence. Qed.

Lemma get_assign_same o k v : get via (assign o k v) k = Ref v.
Proof.
  unfold get, assign, own.
  destruct (lookup (props o) k) eqn:E; simpl.
  - rewrite lookup_update_same; [reflexivity | congruence].
  - destruct (String.eqb k "__proto__") eqn:Ep; simpl.
    + rewrite E. unfold inherited. simpl. now rewrite Ep.
    + now rewrite lookup_insert_same.
Qed.

Lemma own_assign_other o k k' v : k' <> k -> own (assign o k v) k' = own o k'.
Proof.
  intros Hne. unfold assign, own.
  destruct (lookup (props o) k) eqn:E; simpl.
  - now apply lookup_update_other.
  - destruct (String.eqb k "__proto__"); simpl; [reflexivity|].
    now apply lookup_insert_other.
Qed.

Lemma own_assign_same o k v :
  k <> "__proto__"%string \/ own o k <> None -> own (assign o k v) k = Some v.
Proof.
  intros H. unfold assign, own in *.
  destruct (lookup (props o) k) eqn:E; simpl.
  - rewrite lookup_update_same; [reflexivity | congruence].
  - destruct H as [H|H]; [|congruence].
    apply String.eqb_neq in H. rewrite H. simpl. now apply lookup_insert_same.
Qed.

Lemma proto_assign o k v :
  k <> "__proto__"%string \/ own o k <> None -> proto (assign o k v) = proto o.
Proof.
  intros H. unfold assign, own in *.
  destruct (lookup (props o) k) eqn:E; simpl; [reflexivity|].
  destruct H as [H|H]; [|congruence].
  apply String.eqb_neq in H. now rewrite H.
Qed.

Lemma get_assign_other o k k' v :
  k' <> k -> k <> "__proto__"%string \/ own o k <> None ->
  get via (assign o k v) k' = get via o k'.
Proof.
  intros Hne Hk. unfold get, inherited.
  rewrite (own_assign_other o k k' v Hne), (proto_assign o k v Hk). reflexivity.
Qed.

(** A key whose read gave nothing becomes a new own property. *)
Lemma assign_fresh o k v :
  own o k = None -> k <> "__proto__"%string ->
  assign o k v = {| props := insert (props o) k v; proto := proto o |}.
Proof.
  intros Hown Hk. unfold assign. rewrite Hown.
  apply String.eqb_neq in Hk. now rewrite Hk.
Qed.

Lemma assign_present o k v :
  own o k <> None ->
  assign o k v = {| props := update (props o) k v; proto := proto o |}.
Proof. unfold assign. destruct (own o k); [reflexivity | congruence]. Qed.

(** Assigning the value that a key already has changes nothing. *)
Lemma assign_again o k v : own o k = Some v -> assign o k v = o.
Proof.
  intros H. unfold assign. rewrite H. unfold own in H.
  rewrite (update_same _ _ _ H). now destruct o.
Qed.

Lemma keys_assign_present o k v : own o k <> None -> keys (assign o k v) = keys o.
Proof. intros H. rewrite (assign_present o k v H). apply keys_update. Qed.

Lemma In_assign o k v k' v' :
  In (k', v') (props (assign o k v)) -> (k' = k /\ v' = v) \/ In (k', v') (props o).
Proof.
  unfold assign. destruct (own o k); simpl.
  - apply In_update.
  - destruct (String.eqb k "__proto__"); simpl; [now right|].
    rewrite In_insert. intros [[= -> ->]|H]; [now left | now right].
Qed.

Lemma In_keys_assign o k v k' :
  In k' (keys (assign o k v)) -> k' = k \/ In k' (keys o).
Proof.
  unfold keys, assign. destruct (own o k); simpl.
  - rewrite keys_update. now right.
  - destruct (String.eqb k "__proto__"); simpl; [now right|].
    now rewrite In_keys_insert.
Qed.

Lemma own_assign_mono o k k' v : own o k' <> None -> own (assign o k v) k' <> None.
Proof.
  intros H. destruct (string_dec k' k) as [->|Hne].
  - rewrite own_assign_same; [discriminate | now right].
  - now rewrite own_assign_other.
Qed.

Lemma wf_empty : wf (@empty V).
Proof. repeat split; [constructor | simpl; tauto]. Qed.

Lemma wf_assign o k v : wf o -> wf (assign o k v).
Proof.
  intros (Hnd & Hord & Hproto). unfold assign.
  destruct (own o k) eqn:E.
  - unfold wf, keys. simpl. now rewrite keys_update.
  - destruct (String.eqb k "__proto__") eqn:Ep; [now repeat split|].
    apply own_None_notin in E. apply String.eqb_neq in Ep.
    unfold wf, keys. simpl. split; [now apply NoDup_insert|].
    split; [now apply ordered_insert|].
    rewrite In_keys_insert. intros [H|H]; [congruence | contradiction].
Qed.

Lemma wf_assignNumber o k v : wf o -> wf (assignNumber o k v).
Proof.
  intros (Hnd & Hord & Hproto). unfold assignNumber.
  destruct (own o k) eqn:E.
  - unfold wf, keys. simpl. now rewrite keys_update.
  - destruct (String.eqb k "__proto__") eqn:Ep; [now repeat split|].
    apply own_None_notin in E. apply String.eqb_neq in Ep.
    unfold wf, keys. simpl. split; [now apply NoDup_insert|].
    split; [now apply ordered_insert|].
    rewrite In_keys_insert. intros [H|H]; [congruence | contradiction].
Qed.

Lemma own_assignNumber_other o k k' v : k' <> k -> own (assignNumber o k v) k' = own o k'.
Proof.
  intros Hne. unfold assignNumber, own.
  destruct (lookup (props o) k) eqn:E; simpl.
  - now apply lookup_update_other.
  - destruct (String.eqb k "__proto__"); simpl; [reflexivity|].
    now apply lookup_insert_other.
Qed.

Lemma own_assignNumber_same o k v :
  k <> "__proto__"%string \/ own o k <> None -> own (assignNumber o k v) k = Some v.
Proof.
  intros H. unfold assignNumber, own in *.
  destruct (lookup (props o) k) eqn:E; simpl.
  - rewrite lookup_update_same; [reflexivity | congruence].
  - destruct H as [H|H]; [|congruence].
    apply String.eqb_neq in H. rewrite H. simpl. now apply lookup_insert_same.
Qed.

Lemma own_assignNumber o k k' v i :
  own (assignNumber o k v) k' = Some i -> (k' = k /\ i = v) \/ own o k' = Some i.
Proof.
  intros H. destruct (string_dec k' k) as [->|Hne].
  - destruct (own o k) eqn:E.
    + rewrite own_assignNumber_same in H by (right; congruence). left. split; congruence.
    + destruct (string_dec k "__proto__") as [->|Hp].
      * unfold assignNumber in H. rewrite E in H. simpl in H. congruence.
      * rewrite own_assignNumber_same in H by now left. left. split; congruence.
  - rewrite own_assignNumber_other in H by assumption. now right.
Qed.

Lemma own_assignNumber_mono o k k' v :
  own o k' <> None -> own (assignNumber o k v) k' <> None.
Proof.
  intros H. destruct (string_dec k' k) as [->|Hne].
  - rewrite own_assignNumber_same; [discriminate | now right].
  - now rewrite own_assignNumber_other.
Qed.

Lemma proto_assignNumber o k v : proto (assignNumber o k v) = proto o.
Proof.
  unfold assignNumber. destruct (own o k); [reflexivity|].
  now destruct (String.eqb k "__proto__").
Qed.

Lemma assignNumber_append o k v :
  own o k = None -> k <> "__proto__"%string ->
  (forall k', In k' (keys o) -> precedes k k' = false) ->
  props (assignNumber o k v) = props o ++ [(k, v)].
Proof.
  intros Hown Hk Hord. unfold assignNumber. rewrite Hown.
  apply String.eqb_neq in Hk. rewrite Hk. simpl.
  apply insert_append. exact Hord.
Qed.

(** Under [Object.prototype] a read gives an object of the registry only
    for an own property. *)
Lemma get_Ref_pristine o k v : pristine o -> get via o k = Ref v <-> own o k = Some v.
Proof.
  intros Hp. rewrite (get_pristine o k Hp). destruct (own o k).
  - split; congruence.
  - destruct (inheritedName k); split; discriminate.
Qed.

Lemma wf_delete o k : wf o -> wf (delete o k).
Proof.
  intros (Hnd & Hord & Hproto). unfold wf, keys, delete. simpl.
  split; [now apply NoDup_remove|]. split; [now apply ordered_remove|].
  intros H. apply Hproto. eapply In_keys_remove; eauto.
Qed.

Lemma In_delete o k k' v' : In (k', v') (props (delete o k)) -> In (k', v') (props o).
Proof. apply In_remove. Qed.

Lemma own_delete_same o k : wf o -> own (delete o k) k = None.
Proof. intros (Hnd & _). now apply lookup_remove_same. Qed.

Lemma own_delete_other o k k' : k' <> k -> own (delete o k) k' = own o k'.
Proof. apply lookup_remove_other. Qed.

Lemma delete_absent o k : own o k = None -> delete o k = o.
Proof.
  intros H. unfold delete. rewrite (remove_absent _ _ H). now destruct o.
Qed.

(** A key whose read gave nothing is assigned and deleted without a
    trace. *)
Lemma delete_assign_fresh o k v :
  own o k = None -> k <> "__proto__"%string -> delete (assign o k v) k = o.
Proof.
  intros Hown Hk. rewrite (assign_fresh o k v Hown Hk). unfold delete. simpl.
  rewrite (remove_insert _ _ _ Hown). now destruct o.
Qed.

(** A plain key that is new is added at the end of the enumeration. *)
Lemma assign_append o k v :
  own o k = None -> k <> "__proto__"%string -> arrayIndex k = None ->
  props (assign o k v) = props o ++ [(k, v)].
Proof.
  intros Hown Hk Hidx. rewrite (assign_fresh o k v Hown Hk). simpl.
  apply insert_append. intros k' _. now apply precedes_plain.
Qed.
End Objects.
End JSObjectFacts.

(* ================================================================= *)
(** ** Running monadic code *)

Ltac run_js :=
  unfold outcome, after, bind, ret, reads, modify, throw, deref,
    GraphVertex.getKey, GraphVertex.addEdge, GraphVertex.deleteEdge,
    GraphEdge.getKey, GraphEdge.reverse, edgeAt, vertexAt in *;
  simpl in *.

Ltac unfold_A :=
  unfold A.addEdge, A.deleteEdge, A.findEdge, A.addVertex, A.getVertexByKey,
    A.getWeight, A.getAllEdges, A.getAllVertices in *.

Ltac unfold_B :=
  unfold B.addEdge, B.deleteEdge, B.findEdge, B.addVertex, B.getVertexByKey,
    B.getWeight, B.getAllEdges, B.getAllVertices, B._ensureVertexExists,
    B._connectVertices in *.

(* ================================================================= *)
(** ** deleteEdge *)

Section DeleteEdge.
Context `{EK : EdgeKey} `{VL : VertexLookup} `{MB : Members}.

Lemma A_deleteEdge_absent (s : State) (edge : eref) :
  edgeAt s (GraphEdge.key (heap s) edge) = Nothing ->
  A.deleteEdge edge s = (Throw EdgeNotFoundError, s).
Proof. intros Habsent. unfold_A. run_js. now rewrite Habsent. Qed.

Lemma B_deleteEdge_absent (s : State) (edge : eref) :
  edgeAt s (GraphEdge.key (heap s) edge) = Nothing ->
  B.deleteEdge edge s = (Throw EdgeNotFoundError, s).
Proof. intros Habsent. unfold_B. run_js. now rewrite Habsent. Qed.

(** C9.  [deleteEdge] never touches the vertex registry: after the call,
    whether it succeeded or threw, the registry holds the same vertices
    under the same keys; in particular a vertex whose last incident edge
    was deleted is still registered.  Both variants. *)
Theorem deleteEdge_keeps_vertices (s : State) (edge : eref) :
  vertices (this (after (A.deleteEdge edge) s)) = vertices (this s) /\
  vertices (this (after (B.deleteEdge edge) s)) = vertices (this s).
Proof.
  split.
  - unfold_A. run_js.
    destruct (truthy (JSObject.get _ (edges (this s)) _)); simpl; [|reflexivity].
    destruct (JSObject.get _ (vertices (this s)) (vertexKey (heap s) (startVertex (heap s) edge)));
      simpl; try reflexivity.
    destruct (JSObject.get _ (vertices (this s)) (vertexKey (heap s) (endVertex (heap s) edge)));
      simpl; reflexivity.
  - unfold_B. run_js.
    destruct (truthy (JSObject.get _ (edges (this s)) _)); simpl; reflexivity.
Qed.
End DeleteEdge.

(** C2, at the input where both variants depart from it.  The edge from
    the vertex "" to the vertex "_proto__" has the key "__proto__", which
    is not in the edge registry of the empty graph, but
    [this.edges["__proto__"]] is the prototype of the registry and
    truthy: variant B deletes nothing and returns; variant A goes on to
    look the endpoints up and ends in a [TypeError].  Neither throws the
    edge-not-found error. *)
Theorem deleteEdge_absent_inherited_key :
  let s := Inherited.start true in
  GraphEdge.key (EK:=joinedKey) (heap s) 1 = "__proto__"%string /\
  JSObject.props (edges (this s)) = [] /\
  edgeAt s "__proto__" = Foreign /\
  outcome (B.deleteEdge (EK:=joinedKey) 1) s = Return Undefined /\
  outcome (A.deleteEdge (EK:=joinedKey) 1) s = Throw TypeError /\
  this (after (B.deleteEdge (EK:=joinedKey) 1) s) = this s /\
  this (after (A.deleteEdge (EK:=joinedKey) 1) s) = this s.
Proof. vm_compute. repeat split. Qed.

(* ================================================================= *)
(** ** findEdge *)

Section FindEdge.
Context `{EK : EdgeKey} `{VL : VertexLookup} `{MB : Members}.

(** Variant A resolves the start vertex by key: a key that resolves to
    nothing gives [null]; a key that resolves to a vertex delegates to
    that object; a key that resolves to another value ends in a
    [TypeError].  The state is never changed. *)
Lemma A_findEdge_resolves_by_key (s : State) (startV endV : vref) :
  (vertexAt s (vertexKey (heap s) startV) = Nothing ->
     A.findEdge startV endV s = (Return None, s)) /\
  (forall v, vertexAt s (vertexKey (heap s) startV) = Ref v ->
     A.findEdge startV endV s = (Return (findEdge (heap s) v endV), s)) /\
  (vertexAt s (vertexKey (heap s) startV) = Foreign ->
     A.findEdge startV endV s = (Throw TypeError, s)).
Proof.
  unfold_A. run_js.
  destruct (JSObject.get _ (vertices (this s)) (vertexKey (heap s) startV)) as [v| |];
    simpl; repeat split; try discriminate; eauto.
  intros v' [= <-]. reflexivity.
Qed.

(** Variant B asks the object it was given, whatever the registry holds. *)
Lemma B_findEdge_asks_argument (s : State) (startV endV : vref) :
  B.findEdge (Some startV) endV s = (Return (findEdge (heap s) startV endV), s).
Proof. reflexivity. Qed.
End FindEdge.

(** C3, at the input where variant B departs from it.  The graph [g1] has
    no vertex registered, so the key "A" does not resolve; the vertex object
    A holds the edge A -> B from another graph.  Variant A answers [null];
    variant B returns that edge. *)
Theorem B_findEdge_ignores_registry :
  let s := SharedVertex.other in
  JSObject.own (vertices (this s)) (vertexKey (heap s) 0) = None /\
  vertexAt s (vertexKey (heap s) 0) = Nothing /\
  outcome (A.findEdge 0 1) s = Return None /\
  outcome (B.findEdge (Some 0) 1) s = Return (Some 0).
Proof. vm_compute. repeat split. Qed.

(* ================================================================= *)
(** ** addEdge on a key that is already registered *)

Section DuplicateEdge.
Context `{EK : EdgeKey} `{VL : VertexLookup} `{MB : Members}.

(** Variant B checks the key first: the call throws and the state is the
    state before the call. *)
Lemma B_addEdge_duplicate_atomic (s : State) (edge : eref) :
  truthy (edgeAt s (GraphEdge.key (heap s) edge)) = true ->
  B.addEdge edge s = (Throw DuplicateEdgeError, s).
Proof. intros Hdup. unfold_B. run_js. now rewrite Hdup. Qed.

(** Variant A throws as well and leaves the edge registry, the flag and
    the heap alone, but by then it has registered the endpoints whose
    lookup gave nothing. *)
Lemma A_addEdge_duplicate (s : State) (edge : eref) :
  truthy (edgeAt s (GraphEdge.key (heap s) edge)) = true ->
  A.addEdge edge s =
    (Throw DuplicateEdgeError,
     A.setVertices s
       (ensuredBoth (heap s) (vertices (this s))
          (startVertex (heap s) edge) (endVertex (heap s) edge))).
Proof.
  intros Hdup. unfold_A. unfold ensuredBoth, ensured. run_js.
  destruct s as [[vs es d] h]; simpl in *.
  destruct (truthy (JSObject.get (vertexMember h) vs (vertexKey h (startVertex h edge))));
    destruct (truthy (JSObject.get (vertexMember h) vs (vertexKey h (endVertex h edge))));
    simpl; unfold GraphEdge.key in *; simpl; rewrite Hdup; reflexivity.
Qed.

(** Hence variant A is atomic exactly on the calls whose two endpoint keys
    resolve to something. *)
Lemma A_addEdge_duplicate_registered (s : State) (edge : eref) :
  truthy (edgeAt s (GraphEdge.key (heap s) edge)) = true ->
  truthy (vertexAt s (vertexKey (heap s) (startVertex (heap s) edge))) = true ->
  truthy (vertexAt s (vertexKey (heap s) (endVertex (heap s) edge))) = true ->
  A.addEdge edge s = (Throw DuplicateEdgeError, s).
Proof.
  intros Hdup Ha Hb. rewrite (A_addEdge_duplicate _ _ Hdup).
  unfold ensuredBoth, ensured, vertexAt in *. rewrite Ha, Hb.
  destruct s as [[vs es d] h]. reflexivity.
Qed.
End DuplicateEdge.

(** C1, at the input where variant A departs from it.  After
    [addEdge("a_b" -> "c")] the key "a_b_c" is registered; [addEdge] of the
    edge "a" -> "b_c", which derives the same key, throws the duplicate
    error in both variants.  Variant B leaves the state as it was; variant
    A has added the vertices "a" and "b_c" to the vertex registry. *)
Theorem A_addEdge_duplicate_leaks_vertices :
  let s := Collision.afterFirstA in
  JSObject.own (edges (this s)) (GraphEdge.key (EK:=joinedKey) (heap s) 1) = Some 0 /\
  outcome (A.addEdge (EK:=joinedKey) 1) s = Throw DuplicateEdgeError /\
  JSObject.keys (vertices (this s)) = ["a_b"; "c"]%string /\
  JSObject.keys (vertices (this (after (A.addEdge (EK:=joinedKey) 1) s)))
    = ["a_b"; "c"; "a"; "b_c"]%string /\
  B.addEdge (EK:=joinedKey) 1 s = (Throw DuplicateEdgeError, s).
Proof.
  split; [reflexivity|]. split; [reflexivity|]. split; [reflexivity|].
  split; [reflexivity|].
  apply (B_addEdge_duplicate_atomic (EK:=joinedKey) _ 1). reflexivity.
Qed.

(* ================================================================= *)
(** ** Closed forms of addEdge and deleteEdge *)

Section ClosedForms.
Context `{EK : EdgeKey} `{MB : Members}.

Lemma A_addEdge_fresh (s : State) (e : eref) :
  edgeAt s (GraphEdge.key (heap s) e) = Nothing ->
  vertexAt s (vertexKey (heap s) (startVertex (heap s) e)) <> Foreign ->
  vertexAt s (vertexKey (heap s) (endVertex (heap s) e)) <> Foreign ->
  A.addEdge e s = (Return This, addedA s e).
Proof.
  intros Hfresh Hsa Hsb. unfold_A.
  unfold addedA, ensuredBoth, ensured, resolved, connected. run_js.
  destruct s as [[vs es d] h]; simpl in *. unfold GraphEdge.key in *.
  destruct (JSObject.get (vertexMember h) vs (vertexKey h (startVertex h e)))
    as [a| |] eqn:Ha; [| congruence |];
    destruct (JSObject.get (vertexMember h) vs (vertexKey h (endVertex h e)))
      as [b| |] eqn:Hb; try congruence;
    simpl; rewrite ?Hfresh; simpl;
    rewrite ?JSObjectFacts.get_assign_same; simpl; rewrite ?Hfresh; simpl;
    destruct d; simpl; try reflexivity.
Qed.

Lemma B_addEdge_fresh (s : State) (e : eref) :
  edgeAt s (GraphEdge.key (heap s) e) = Nothing ->
  B.addEdge e s = (Return Undefined, addedB s e).
Proof.
  intros Hfresh. unfold_B. unfold addedB, ensured, connected. run_js.
  destruct s as [[vs es d] h]; simpl in *. unfold GraphEdge.key in *.
  rewrite Hfresh; simpl.
  destruct (truthy (JSObject.get (vertexMember h) vs (vertexKey h (startVertex h e))));
    simpl;
    match goal with
    | |- context [truthy (JSObject.get _ ?o (vertexKey h (endVertex h e)))] =>
        destruct (truthy (JSObject.get (vertexMember h) o (vertexKey h (endVertex h e))))
    end; simpl; destruct d; reflexivity.
Qed.

Lemma B_deleteEdge_present (s : State) (e : eref) :
  truthy (edgeAt s (GraphEdge.key (heap s) e)) = true ->
  B.deleteEdge e s = (Return Undefined, deletedB s e).
Proof.
  intros Hreg. unfold_B. unfold deletedB. run_js. now rewrite Hreg.
Qed.

Lemma A_deleteEdge_present (s : State) (e v w : eref) :
  truthy (edgeAt s (GraphEdge.key (heap s) e)) = true ->
  vertexAt s (vertexKey (heap s) (startVertex (heap s) e)) = Ref v ->
  vertexAt s (vertexKey (heap s) (endVertex (heap s) e)) = Ref w ->
  A.deleteEdge e s = (Return Undefined, deletedA s e v w).
Proof.
  intros Hreg Hv Hw. unfold_A. unfold deletedA. run_js. rewrite Hreg. simpl.
  rewrite Hv, Hw. reflexivity.
Qed.

(** A call that returns found the key free (addEdge) or taken
    (deleteEdge). *)
Lemma A_addEdge_returns (s : State) (e : eref) (x : completion) :
  outcome (A.addEdge e) s = Return x ->
  edgeAt s (GraphEdge.key (heap s) e) = Nothing.
Proof.
  intros Hok. apply JSObjectFacts.falsy_Nothing.
  destruct (truthy (edgeAt s (GraphEdge.key (heap s) e))) eqn:Hreg; [|reflexivity].
  unfold outcome in Hok. rewrite (A_addEdge_duplicate _ _ Hreg) in Hok. discriminate.
Qed.

Lemma B_addEdge_returns (s : State) (e : eref) (x : completion) :
  outcome (B.addEdge e) s = Return x ->
  edgeAt s (GraphEdge.key (heap s) e) = Nothing.
Proof.
  intros Hok. apply JSObjectFacts.falsy_Nothing.
  destruct (truthy (edgeAt s (GraphEdge.key (heap s) e))) eqn:Hreg; [|reflexivity].
  unfold outcome in Hok. rewrite (B_addEdge_duplicate_atomic _ _ Hreg) in Hok. discriminate.
Qed.

(** A read of a key that is an own property. *)
Lemma edgeAt_own (s : State) (k : string) (e : eref) :
  JSObject.own (edges (this s)) k = Some e -> edgeAt s k = Ref e.
Proof. apply JSObjectFacts.get_own. Qed.

Lemma vertexAt_own (s : State) (k : string) (v : vref) :
  JSObject.own (vertices (this s)) k = Some v -> vertexAt s k = Ref v.
Proof. apply JSObjectFacts.get_own. Qed.
End ClosedForms.

(* ================================================================= *)
(** ** deleteEdge in variant A never calls a method of null *)

Section DeleteLookups.
Context `{EK : EdgeKey} `{MB : Members}.

(** C10, amended.  In variant A, when the key of the given edge is
    registered, every registered edge has its endpoints' keys in the
    vertex registry, and the edge registered under that key has the same
    endpoint keys as the given edge, both lookups of [deleteEdge] find a
    vertex and the call returns. *)
Theorem A_deleteEdge_lookups_defined (s : State) (edge registered : eref) :
  JSObject.own (edges (this s)) (GraphEdge.key (heap s) edge) = Some registered ->
  edgesHaveVertices s ->
  sameEndpointKeys (heap s) edge registered ->
  (exists v, vertexAt s (vertexKey (heap s) (startVertex (heap s) edge)) = Ref v) /\
  (exists w, vertexAt s (vertexKey (heap s) (endVertex (heap s) edge)) = Ref w) /\
  outcome (A.deleteEdge edge) s = Return Undefined.
Proof.
  intros Hreg Hinv [Hs He].
  destruct (Hinv _ _ (JSObjectFacts.own_In _ _ _ Hreg)) as [Ha Hb].
  rewrite <- Hs in Ha. rewrite <- He in Hb.
  destruct (JSObject.own (vertices (this s)) (vertexKey (heap s) (startVertex (heap s) edge)))
    as [v|] eqn:Hv; [|congruence].
  destruct (JSObject.own (vertices (this s)) (vertexKey (heap s) (endVertex (heap s) edge)))
    as [w|] eqn:Hw; [|congruence].
  apply vertexAt_own in Hv, Hw.
  split; [eauto|]. split; [eauto|].
  unfold outcome. rewrite (A_deleteEdge_present s edge v w); auto.
  now rewrite (edgeAt_own _ _ _ Hreg).
Qed.

(** The third premise holds when the given edge is the registered one. *)
Lemma sameEndpointKeys_refl (h : Store) (e : eref) : sameEndpointKeys h e e.
Proof. split; reflexivity. Qed.

(** It also holds when the key derivation is injective and every edge is
    registered under its current key. *)
Lemma sameEndpointKeys_injective (s : State) (edge registered : eref) :
  keyInjective EK ->
  edgesKeyed s ->
  JSObject.own (edges (this s)) (GraphEdge.key (heap s) edge) = Some registered ->
  sameEndpointKeys (heap s) edge registered.
Proof.
  intros Hinj Hkeyed Hreg.
  apply JSObjectFacts.own_In in Hreg. apply Hkeyed in Hreg.
  unfold GraphEdge.key in Hreg. apply Hinj in Hreg. exact Hreg.
Qed.
End DeleteLookups.

(** C10 as stated fails when two edges with different endpoints derive the
    same key.  After [addEdge("a_b" -> "c")], the edge "a" -> "b_c" has a
    registered key and the invariant holds, yet the lookup of "a" returns
    [null] and [deleteEdge] ends in a [TypeError]. *)
Lemma A_deleteEdge_null_lookup :
  let s := Collision.afterFirstA in
  JSObject.own (edges (this s)) (GraphEdge.key (EK:=joinedKey) (heap s) 1) = Some 0 /\
  edgesHaveVertices s /\
  vertexAt s (vertexKey (heap s) (startVertex (heap s) 1)) = Nothing /\
  outcome (A.deleteEdge (EK:=joinedKey) 1) s = Throw TypeError.
Proof.
  split; [reflexivity|]. split.
  - intros k e Hin. vm_compute in Hin. destruct Hin as [[= <- <-]|[]].
    split; vm_compute; discriminate.
  - split; reflexivity.
Qed.

Lemma A_deleteEdge_lookups_defined_witness :
  let s := Collision.afterFirstA in
  (exists v, vertexAt s (vertexKey (heap s) (startVertex (heap s) 0)) = Ref v) /\
  (exists w, vertexAt s (vertexKey (heap s) (endVertex (heap s) 0)) = Ref w) /\
  outcome (A.deleteEdge (EK:=joinedKey) 0) s = Return Undefined.
Proof.
  apply (@A_deleteEdge_lookups_defined joinedKey bareMembers Collision.afterFirstA 0 0).
  - reflexivity.
  - intros k e Hin. vm_compute in Hin. destruct Hin as [[= <- <-]|[]].
    split; vm_compute; discriminate.
  - apply sameEndpointKeys_refl.
Defined.

(* ================================================================= *)
(** ** getWeight *)

Section Weight.
Context `{EK : EdgeKey} `{MB : Members}.

Lemma total_snoc (h : Store) (es : list eref) (e : eref) :
  total h (es ++ [e]) = (total h es + weight h e)%float.
Proof. unfold total. now rewrite fold_left_app. Qed.

Lemma remove_split {V} (l1 l2 : list (string * V)) (k : string) (v : V) :
  ~ In k (map fst l1) -> JSObject.remove (l1 ++ (k, v) :: l2) k = l1 ++ l2.
Proof.
  induction l1 as [|[k' v'] l1 IH]; simpl; intros Hnew.
  - now rewrite String.eqb_refl.
  - destruct (String.eqb k k') eqn:E.
    + apply String.eqb_eq in E. exfalso. apply Hnew. now left.
    + rewrite IH; [reflexivity|]. intros H. apply Hnew. now right.
Qed.

(** What [addEdge] leaves of the edge registry and of the weights when it
    returns, and [deleteEdge] likewise. *)
Lemma A_addEdge_edges (s : State) (e : eref) (x : completion) :
  outcome (A.addEdge e) s = Return x ->
  edges (this (after (A.addEdge e) s))
    = JSObject.assign (edges (this s)) (GraphEdge.key (heap s) e) e /\
  weight (heap (after (A.addEdge e) s)) = weight (heap s).
Proof.
  unfold_A. run_js.
  destruct s as [[vs es d] h]; simpl. unfold GraphEdge.key.
  destruct (JSObject.get (vertexMember h) vs (vertexKey h (startVertex h e))) as [a| |];
    destruct (JSObject.get (vertexMember h) vs (vertexKey h (endVertex h e))) as [b| |];
    simpl; rewrite ?JSObjectFacts.get_assign_same; simpl;
    destruct (truthy (JSObject.get (edgeMember h) es _)); simpl; try discriminate;
    destruct d; simpl; try discriminate; intros _; split; reflexivity.
Qed.

Lemma B_addEdge_edges (s : State) (e : eref) (x : completion) :
  outcome (B.addEdge e) s = Return x ->
  edges (this (after (B.addEdge e) s))
    = JSObject.assign (edges (this s)) (GraphEdge.key (heap s) e) e /\
  weight (heap (after (B.addEdge e) s)) = weight (heap s).
Proof.
  intros Hok. pose proof (B_addEdge_returns _ _ _ Hok) as Hfresh.
  unfold after. rewrite (B_addEdge_fresh _ _ Hfresh). unfold addedB, connected. simpl.
  destruct (isDirected (this s)); split; reflexivity.
Qed.

Lemma A_deleteEdge_edges (s : State) (e : eref) (x : completion) :
  outcome (A.deleteEdge e) s = Return x ->
  edges (this (after (A.deleteEdge e) s))
    = JSObject.delete (edges (this s)) (GraphEdge.key (heap s) e) /\
  weight (heap (after (A.deleteEdge e) s)) = weight (heap s).
Proof.
  unfold_A. run_js.
  destruct (truthy (JSObject.get _ (edges (this s)) _)); simpl; [|discriminate].
  destruct (JSObject.get _ (vertices (this s)) (vertexKey (heap s) (startVertex (heap s) e)));
    simpl; try discriminate.
  destruct (JSObject.get _ (vertices (this s)) (vertexKey (heap s) (endVertex (heap s) e)));
    simpl; try discriminate.
  intros _. split; reflexivity.
Qed.

Lemma B_deleteEdge_edges (s : State) (e : eref) (x : completion) :
  outcome (B.deleteEdge e) s = Return x ->
  edges (this (after (B.deleteEdge e) s))
    = JSObject.delete (edges (this s)) (GraphEdge.key (heap s) e) /\
  weight (heap (after (B.deleteEdge e) s)) = weight (heap s).
Proof.
  unfold_B. run_js.
  destruct (truthy (JSObject.get _ (edges (this s)) _)); simpl; [|discriminate].
  intros _. split; reflexivity.
Qed.

Lemma sum_added (s s' : State) (e : eref) :
  edgeAt s (GraphEdge.key (heap s) e) = Nothing ->
  JSObject.arrayIndex (GraphEdge.key (heap s) e) = None ->
  edges (this s') = JSObject.assign (edges (this s)) (GraphEdge.key (heap s) e) e /\
  weight (heap s') = weight (heap s) ->
  sumOfWeights s' = (sumOfWeights s + weight (heap s) e)%float.
Proof.
  intros Hfresh Hidx [Hedges Hw]. apply JSObjectFacts.get_Nothing in Hfresh.
  destruct Hfresh as [Hown Hk].
  unfold sumOfWeights, JSObject.values.
  rewrite Hedges, (JSObjectFacts.assign_append _ _ _ Hown Hk Hidx), map_app. simpl.
  rewrite total_snoc. unfold total. now rewrite Hw.
Qed.

Lemma sum_deleted (s s' : State) (e : eref) (l1 l2 : list (string * eref)) :
  JSObject.props (edges (this s)) = l1 ++ (GraphEdge.key (heap s) e, e) :: l2 ->
  ~ In (GraphEdge.key (heap s) e) (map fst l1) ->
  edges (this s') = JSObject.delete (edges (this s)) (GraphEdge.key (heap s) e) /\
  weight (heap s') = weight (heap s) ->
  sumOfWeights s' = total (heap s) (map snd (l1 ++ l2)).
Proof.
  intros Hsplit Hnew [Hedges Hw].
  unfold sumOfWeights, JSObject.values. rewrite Hedges. unfold JSObject.delete. simpl.
  rewrite Hsplit, (remove_split _ _ _ _ Hnew). unfold total. now rewrite Hw.
Qed.

(** C8, amended.  [getWeight] returns the weights of the edges in the
    edge registry added up from 0 in enumeration order, in double
    precision, which is 0 when the registry is empty.  An [addEdge] that
    returns, of an edge whose key is not an array index, turns that sum
    [t] into the double [t + w] for the weight [w] of the edge.  A
    [deleteEdge] that returns, of the edge registered under its key,
    leaves the sum of the weights of the other edges, in their order.
    Both variants. *)
Theorem getWeight_is_sum (s : State) :
  (A.getWeight s = (Return (sumOfWeights s), s) /\
   B.getWeight s = (Return (sumOfWeights s), s)) /\
  (JSObject.props (edges (this s)) = [] -> sumOfWeights s = 0%float) /\
  (forall e x,
     JSObject.arrayIndex (GraphEdge.key (heap s) e) = None ->
     (outcome (A.addEdge e) s = Return x ->
        sumOfWeights (after (A.addEdge e) s) = (sumOfWeights s + weight (heap s) e)%float) /\
     (outcome (B.addEdge e) s = Return x ->
        sumOfWeights (after (B.addEdge e) s) = (sumOfWeights s + weight (heap s) e)%float)) /\
  (forall e x l1 l2,
     JSObject.props (edges (this s)) = l1 ++ (GraphEdge.key (heap s) e, e) :: l2 ->
     ~ In (GraphEdge.key (heap s) e) (map fst l1) ->
     (outcome (A.deleteEdge e) s = Return x ->
        sumOfWeights (after (A.deleteEdge e) s) = total (heap s) (map snd (l1 ++ l2))) /\
     (outcome (B.deleteEdge e) s = Return x ->
        sumOfWeights (after (B.deleteEdge e) s) = total (heap s) (map snd (l1 ++ l2)))).
Proof.
  split; [|split; [|split]].
  - split; reflexivity.
  - intros Hempty. unfold sumOfWeights, JSObject.values. now rewrite Hempty.
  - intros e x Hidx. split; intros Hok.
    + apply (sum_added s _ e (A_addEdge_returns _ _ _ Hok) Hidx).
      exact (A_addEdge_edges s e x Hok).
    + apply (sum_added s _ e (B_addEdge_returns _ _ _ Hok) Hidx).
      exact (B_addEdge_edges s e x Hok).
  - intros e x l1 l2 Hsplit Hnew. split; intros Hok.
    + apply (sum_deleted s _ e l1 l2 Hsplit Hnew). exact (A_deleteEdge_edges s e x Hok).
    + apply (sum_deleted s _ e l1 l2 Hsplit Hnew). exact (B_deleteEdge_edges s e x Hok).
Qed.
End Weight.

(** C8 as stated fails, because the sum is a sum of doubles.  With an
    edge of weight 2^53 registered, an [addEdge] of an edge of weight 1
    returns and leaves [getWeight] at 2^53; with the weights 2^53, 1, 1
    registered, [getWeight] is 2^53 and a [deleteEdge] of the first edge
    leaves 2, not 2^53 less.  An edge whose key is an array index is
    enumerated before the edges with larger indices: after the edges "20"
    and "30" of weights 2^53 and -2^53, whose sum is 0, the edge "10" of
    weight 1 leaves [getWeight] at 0. *)
Lemma getWeight_rounds :
  (let s := after (B.addEdge (EK:=joinedKey) 0) Rounding.start in
   let s' := after (B.addEdge (EK:=joinedKey) 1) s in
   outcome (B.addEdge (EK:=joinedKey) 1) s = Return Undefined /\
   outcome (A.addEdge (EK:=joinedKey) 1) s = Return This /\
   weight (heap s) 1 = 1%float /\
   outcome B.getWeight s = Return 9007199254740992%float /\
   outcome B.getWeight s' = Return 9007199254740992%float /\
   outcome A.getWeight (after (A.addEdge (EK:=joinedKey) 1) s)
     = Return 9007199254740992%float) /\
  (let s := after (B.addEdge (EK:=joinedKey) 2)
              (after (B.addEdge (EK:=joinedKey) 1)
                 (after (B.addEdge (EK:=joinedKey) 0) Rounding.start)) in
   JSObject.props (edges (this s)) = [("A_B", 0); ("B_C", 1); ("C_D", 2)]%string /\
   outcome B.getWeight s = Return 9007199254740992%float /\
   outcome (B.deleteEdge (EK:=joinedKey) 0) s = Return Undefined /\
   outcome (A.deleteEdge (EK:=joinedKey) 0) s = Return Undefined /\
   outcome B.getWeight (after (B.deleteEdge (EK:=joinedKey) 0) s) = Return 2%float /\
   outcome A.getWeight (after (A.deleteEdge (EK:=joinedKey) 0) s) = Return 2%float) /\
  (let s := after (B.addEdge (EK:=Rounding.concatKey) 1)
              (after (B.addEdge (EK:=Rounding.concatKey) 0) Rounding.numeric) in
   let s' := after (B.addEdge (EK:=Rounding.concatKey) 2) s in
   outcome (B.addEdge (EK:=Rounding.concatKey) 2) s = Return Undefined /\
   JSObject.keys (edges (this s')) = ["10"; "20"; "30"]%string /\
   weight (heap s) 2 = 1%float /\
   outcome B.getWeight s = Return 0%float /\
   outcome B.getWeight s' = Return 0%float).
Proof. vm_compute. repeat split. Qed.

Lemma getWeight_is_sum_witness :
  let s := Witnesses.oneEdgeA in
  sumOfWeights (after (A.addEdge (EK:=joinedKey) 1) s) = 3%float /\
  sumOfWeights (after (B.addEdge (EK:=joinedKey) 1) s) = 3%float /\
  sumOfWeights (after (A.deleteEdge (EK:=joinedKey) 0) s) = 0%float /\
  sumOfWeights (after (B.deleteEdge (EK:=joinedKey) 0) s) = 0%float.
Proof.
  destruct (getWeight_is_sum (EK:=joinedKey) Witnesses.oneEdgeA) as (_ & _ & Hadd & Hdel).
  destruct (Hadd 1 This eq_refl) as [HaddA _].
  destruct (Hadd 1 Undefined eq_refl) as [_ HaddB].
  destruct (Hdel 0 Undefined [] [] eq_refl (fun H => H)) as [HdelA HdelB].
  split; [|split; [|split]];
    [apply HaddA | apply HaddB | apply HdelA | apply HdelB]; reflexivity.
Defined.

(* ================================================================= *)
(** ** Properties kept along a computation *)

Section Preservation.
Variable P : State -> Prop.

Lemma preserves_ret {A} (a : A) : preserves P (ret a).
Proof. intros s H. exact H. Qed.

Lemma preserves_throw {A} (e : exn) : preserves P (throw (A:=A) e).
Proof. intros s H. exact H. Qed.

Lemma preserves_reads {A} (f : State -> A) : preserves P (reads f).
Proof. intros s H. exact H. Qed.

Lemma preserves_bind {A B} (m : M A) (f : A -> M B) :
  preserves P m -> (forall a, preserves P (f a)) -> preserves P (bind m f).
Proof.
  intros Hm Hf s H. unfold after, bind. specialize (Hm s H). unfold after in Hm.
  destruct (m s) as [[a|e] s']; simpl in *; [apply Hf; exact Hm | exact Hm].
Qed.

Lemma preserves_forEach {A B} (xs : list A) (f : A -> M B) :
  (forall x, preserves P (f x)) -> preserves P (forEach xs f).
Proof.
  intros Hf. induction xs as [|x xs IH]; simpl.
  - apply preserves_ret.
  - apply preserves_bind; [apply Hf | intros _; exact IH].
Qed.

Lemma preserves_modify (f : State -> State) :
  (forall s, P s -> P (f s)) -> preserves P (modify f).
Proof. intros H s Hs. now apply H. Qed.

Lemma preserves_deref {A} (o : value A) : preserves P (deref o).
Proof. destruct o; [apply preserves_ret | apply preserves_throw | apply preserves_throw]. Qed.

Lemma reachable_ind_preserved (perform : call -> M completion) :
  (forall d h, P {| this := constructor d; heap := h |}) ->
  (forall c, preserves P (perform c)) ->
  forall s, reachable perform s -> P s.
Proof.
  intros Hnew Hcall s Hs. induction Hs as [d h|s c Hs IH]; [apply Hnew | now apply Hcall].
Qed.
End Preservation.

(** A computation is taken apart into its steps; [step] settles the
    [modify] steps. *)
Ltac frame_with step :=
  repeat first
    [ apply preserves_bind; [|intros ?]
    | apply preserves_reads
    | apply preserves_ret
    | apply preserves_throw
    | apply preserves_deref
    | apply preserves_forEach; intros ?
    | apply preserves_modify; intros ? ?; step
    | match goal with
      | |- preserves _ (if ?x then _ else _) => destruct x
      | |- preserves _ (match ?x with _ => _ end) => destruct x
      end ].

Ltac unfold_methods :=
  unfold A.reverse, A.addEdge, A.deleteEdge, A.addVertex, A.getVertexByKey, A.getAllEdges,
    B.reverse, B.addEdge, B.deleteEdge, B.addVertex, B.getVertexByKey, B.getAllEdges,
    B._ensureVertexExists, B._connectVertices,
    GraphVertex.getKey, GraphEdge.getKey, GraphVertex.addEdge, GraphVertex.deleteEdge,
    GraphEdge.reverse.

(* ================================================================= *)
(** ** The public operations keep the fields the graph does not own *)

Section Kept.
Context `{EK : EdgeKey} `{MB : Members}.

(** No operation changes the key of a vertex, the weight of an edge or
    the flag of the graph. *)
Lemma performA_keeps (keys : vref -> string) (ws : eref -> number) (d : bool) (c : call) :
  preserves (fun s => vertexKey (heap s) = keys /\ weight (heap s) = ws /\
                      isDirected (this s) = d) (performA c).
Proof.
  destruct c; simpl; unfold_methods; frame_with ltac:(assumption).
Qed.

Lemma performB_keeps (keys : vref -> string) (ws : eref -> number) (d : bool) (c : call) :
  preserves (fun s => vertexKey (heap s) = keys /\ weight (heap s) = ws /\
                      isDirected (this s) = d) (performB c).
Proof.
  destruct c; simpl; unfold_methods; frame_with ltac:(assumption).
Qed.
End Kept.

(* ================================================================= *)
(** ** Registering the endpoints of an edge *)

Section Ensured.
Context `{MB : Members}.
Variables (h : Store) (vs : JSObject.t vref).
Implicit Types (a b v : vref) (k : string).

Lemma ensured_mono v k :
  JSObject.own vs k <> None -> JSObject.own (ensured h vs v) k <> None.
Proof.
  intros H. unfold ensured. destruct (truthy _); [exact H|].
  now apply JSObjectFacts.own_assign_mono.
Qed.

(** A vertex is only registered when the lookup of its key gave nothing,
    so its key is not ["__proto__"]. *)
Lemma ensured_cases v :
  ensured h vs v = vs \/
  (JSObject.get (vertexMember h) vs (vertexKey h v) = Nothing /\
   ensured h vs v = JSObject.assign vs (vertexKey h v) v).
Proof.
  unfold ensured.
  destruct (JSObject.get (vertexMember h) vs (vertexKey h v)); simpl; auto.
Qed.

Lemma ensured_proto v : JSObject.proto (ensured h vs v) = JSObject.proto vs.
Proof.
  destruct (ensured_cases v) as [->|[Hget ->]]; [reflexivity|].
  apply JSObjectFacts.get_Nothing in Hget. apply JSObjectFacts.proto_assign. left. tauto.
Qed.

Lemma ensured_In v k v' :
  In (k, v') (JSObject.props (ensured h vs v)) ->
  (k = vertexKey h v /\ v' = v) \/ In (k, v') (JSObject.props vs).
Proof.
  destruct (ensured_cases v) as [->|[_ ->]]; [now right|]. apply JSObjectFacts.In_assign.
Qed.

Lemma ensured_wf v : JSObject.wf vs -> JSObject.wf (ensured h vs v).
Proof.
  destruct (ensured_cases v) as [->|[_ ->]]; [auto|]. apply JSObjectFacts.wf_assign.
Qed.

Lemma ensured_get_other v k :
  vertexKey h v <> k ->
  JSObject.get (vertexMember h) (ensured h vs v) k = JSObject.get (vertexMember h) vs k.
Proof.
  intros Hne. destruct (ensured_cases v) as [->|[Hget ->]]; [reflexivity|].
  apply JSObjectFacts.get_Nothing in Hget.
  apply JSObjectFacts.get_assign_other; [congruence | left; tauto].
Qed.

(** What a lookup of the key gives once the vertex has been ensured. *)
Lemma ensured_get v :
  JSObject.get (vertexMember h) (ensured h vs v) (vertexKey h v)
  = match JSObject.get (vertexMember h) vs (vertexKey h v) with
    | Nothing => Ref v
    | x => x
    end.
Proof.
  unfold ensured.
  destruct (JSObject.get (vertexMember h) vs (vertexKey h v)) eqn:E; simpl; try exact E.
  apply JSObjectFacts.get_assign_same.
Qed.
End Ensured.

Section EnsuredPlain.
Context `{MB : Members}.
Variables (h : Store) (vs : JSObject.t vref).
Hypothesis Hplain : plainVertexKeys h.
Hypothesis Hpristine : JSObject.pristine vs.
Implicit Types (a b v : vref) (k : string).

(** Over plain keys and [Object.prototype] a lookup finds an own property
    or nothing. *)
Lemma lookup_plain v :
  JSObject.get (vertexMember h) vs (vertexKey h v)
  = match JSObject.own vs (vertexKey h v) with
    | Some r => Ref r
    | None => Nothing
    end.
Proof.
  rewrite (JSObjectFacts.get_pristine _ _ _ Hpristine).
  destruct (JSObject.own vs (vertexKey h v)); [reflexivity|]. now rewrite Hplain.
Qed.

Lemma lookup_plain_not_Foreign v :
  JSObject.get (vertexMember h) vs (vertexKey h v) <> Foreign.
Proof. rewrite lookup_plain. destruct (JSObject.own vs (vertexKey h v)); discriminate. Qed.

Lemma ensured_pristine v : JSObject.pristine (ensured h vs v).
Proof. unfold JSObject.pristine. now rewrite ensured_proto. Qed.

Lemma ensured_has v : JSObject.own (ensured h vs v) (vertexKey h v) <> None.
Proof.
  unfold ensured. rewrite lookup_plain.
  destruct (JSObject.own vs (vertexKey h v)) eqn:E; simpl.
  - rewrite E. discriminate.
  - rewrite JSObjectFacts.own_assign_same; [discriminate|].
    left. intros Hk. pose proof (Hplain v) as Hp. now rewrite Hk in Hp.
Qed.
End EnsuredPlain.

Section EnsuredBoth.
Context `{MB : Members}.
Variables (h : Store) (vs : JSObject.t vref).
Implicit Types (a b v : vref) (k : string).

Lemma ensuredBoth_cases a b :
  ensuredBoth h vs a b = ensured h vs a \/
  (JSObject.get (vertexMember h) vs (vertexKey h b) = Nothing /\
   ensuredBoth h vs a b = JSObject.assign (ensured h vs a) (vertexKey h b) b).
Proof.
  unfold ensuredBoth.
  destruct (JSObject.get (vertexMember h) vs (vertexKey h b)); simpl; auto.
Qed.

Lemma ensuredBoth_mono a b k :
  JSObject.own vs k <> None -> JSObject.own (ensuredBoth h vs a b) k <> None.
Proof.
  intros H. destruct (ensuredBoth_cases a b) as [->|[_ ->]].
  - now apply ensured_mono.
  - apply JSObjectFacts.own_assign_mono. now apply ensured_mono.
Qed.

Lemma ensuredBoth_proto a b : JSObject.proto (ensuredBoth h vs a b) = JSObject.proto vs.
Proof.
  destruct (ensuredBoth_cases a b) as [->|[Hget ->]]; [apply ensured_proto|].
  apply JSObjectFacts.get_Nothing in Hget.
  rewrite JSObjectFacts.proto_assign; [apply ensured_proto | left; tauto].
Qed.

Lemma ensuredBoth_In a b k v' :
  In (k, v') (JSObject.props (ensuredBoth h vs a b)) ->
  (k = vertexKey h a /\ v' = a) \/ (k = vertexKey h b /\ v' = b) \/
  In (k, v') (JSObject.props vs).
Proof.
  destruct (ensuredBoth_cases a b) as [->|[_ ->]]; intros Hin.
  - apply ensured_In in Hin. tauto.
  - apply JSObjectFacts.In_assign in Hin. destruct Hin as [Hin|Hin]; [tauto|].
    apply ensured_In in Hin. tauto.
Qed.

Lemma ensuredBoth_wf a b : JSObject.wf vs -> JSObject.wf (ensuredBoth h vs a b).
Proof.
  intros Hwf. destruct (ensuredBoth_cases a b) as [->|[_ ->]].
  - now apply ensured_wf.
  - apply JSObjectFacts.wf_assign. now apply ensured_wf.
Qed.

Lemma ensuredBoth_has a b :
  plainVertexKeys h -> JSObject.pristine vs ->
  JSObject.own (ensuredBoth h vs a b) (vertexKey h a) <> None /\
  JSObject.own (ensuredBoth h vs a b) (vertexKey h b) <> None.
Proof.
  intros Hplain Hpr. unfold ensuredBoth. rewrite (lookup_plain h vs Hplain Hpr b).
  destruct (JSObject.own vs (vertexKey h b)) eqn:E; simpl; split.
  - now apply ensured_has.
  - apply ensured_mono. rewrite E. discriminate.
  - apply JSObjectFacts.own_assign_mono. now apply ensured_has.
  - rewrite JSObjectFacts.own_assign_same; [discriminate|].
    left. intros Hk. pose proof (Hplain b) as Hp. now rewrite Hk in Hp.
Qed.
End EnsuredBoth.

Lemma connected_fields (d : bool) (h : Store) (a b : vref) (e : eref) :
  vertexKey (connected d h a b e) = vertexKey h /\
  startVertex (connected d h a b e) = startVertex h /\
  endVertex (connected d h a b e) = endVertex h /\
  weight (connected d h a b e) = weight h.
Proof. unfold connected. destruct d; repeat split. Qed.

Lemma addVertex_after (v : vref) (s : State) :
  after (A.addVertex v) s
  = A.setVertices s (JSObject.assign (vertices (this s)) (vertexKey (heap s) v) v).
Proof. reflexivity. Qed.

Lemma B_addVertex_after (v : vref) (s : State) :
  after (B.addVertex v) s = after (A.addVertex v) s.
Proof. reflexivity. Qed.

(* ================================================================= *)
(** ** Graphs over vertex objects with plain keys *)

Section Settled.
Context `{EK : EdgeKey} `{MB : Members}.

(** The invariant only reads the two registries, the keys of the
    vertices and the endpoints of the edges. *)
Lemma settled_grow (s s' : State) :
  settled s ->
  vertexKey (heap s') = vertexKey (heap s) ->
  startVertex (heap s') = startVertex (heap s) ->
  endVertex (heap s') = endVertex (heap s) ->
  JSObject.proto (vertices (this s')) = JSObject.proto (vertices (this s)) ->
  (forall k, JSObject.own (vertices (this s)) k <> None ->
             JSObject.own (vertices (this s')) k <> None) ->
  (forall k e, In (k, e) (JSObject.props (edges (this s'))) ->
     In (k, e) (JSObject.props (edges (this s))) \/
     (k = GraphEdge.key (heap s) e /\
      JSObject.own (vertices (this s')) (vertexKey (heap s) (startVertex (heap s) e)) <> None /\
      JSObject.own (vertices (this s')) (vertexKey (heap s) (endVertex (heap s) e)) <> None)) ->
  settled s'.
Proof.
  intros ((Hplain & Hpr) & Hinv & Hkeys) Hk Hs He Hp Hvs Hes. split; [|split].
  - split; [unfold plainVertexKeys; now rewrite Hk|].
    unfold JSObject.pristine in *. congruence.
  - intros k e Hin. rewrite Hk, Hs, He.
    destruct (Hes _ _ Hin) as [Hold|(_ & Hnew)]; [|exact Hnew].
    destruct (Hinv _ _ Hold). split; apply Hvs; assumption.
  - intros k e Hin.
    destruct (Hes _ _ Hin) as [Hold|(-> & Ha & Hb)].
    + destruct (Hkeys _ _ Hold) as (ka & kb & -> & Ha & Hb). exists ka, kb. auto.
    + eexists _, _. split; [reflexivity|]. split; assumption.
Qed.

Lemma addVertex_settled (v : vref) : preserves settled (A.addVertex v).
Proof.
  intros s Hinv. rewrite addVertex_after.
  assert (Hk : vertexKey (heap s) v <> "__proto__"%string).
  { destruct Hinv as ((Hplain & _) & _). intros Hk. pose proof (Hplain v) as Hp.
    now rewrite Hk in Hp. }
  apply (settled_grow _ _ Hinv); try reflexivity.
  - simpl. apply JSObjectFacts.proto_assign. now left.
  - intros k. apply JSObjectFacts.own_assign_mono.
  - intros k e Hin. now left.
Qed.

Lemma A_addEdge_settled (e : eref) : preserves settled (A.addEdge e).
Proof.
  intros s Hinv. pose proof Hinv as ((Hplain & Hpr) & _). unfold after.
  destruct (truthy (edgeAt s (GraphEdge.key (heap s) e))) eqn:Hreg.
  - rewrite (A_addEdge_duplicate _ _ Hreg). simpl.
    apply (settled_grow _ _ Hinv); try reflexivity.
    + apply ensuredBoth_proto.
    + intros k. apply ensuredBoth_mono.
    + intros k e' Hin. now left.
  - apply JSObjectFacts.falsy_Nothing in Hreg.
    rewrite (A_addEdge_fresh _ _ Hreg
               (lookup_plain_not_Foreign _ _ Hplain Hpr _)
               (lookup_plain_not_Foreign _ _ Hplain Hpr _)).
    apply (settled_grow _ _ Hinv); try apply connected_fields.
    + apply ensuredBoth_proto.
    + intros k. apply ensuredBoth_mono.
    + intros k e' Hin. simpl in Hin. apply JSObjectFacts.In_assign in Hin.
      destruct Hin as [[-> ->]|Hin]; [right | now left].
      split; [reflexivity|]. now apply ensuredBoth_has.
Qed.

Lemma B_addEdge_settled (e : eref) : preserves settled (B.addEdge e).
Proof.
  intros s Hinv. pose proof Hinv as ((Hplain & Hpr) & _). unfold after.
  destruct (truthy (edgeAt s (GraphEdge.key (heap s) e))) eqn:Hreg.
  - now rewrite (B_addEdge_duplicate_atomic _ _ Hreg).
  - apply JSObjectFacts.falsy_Nothing in Hreg. rewrite (B_addEdge_fresh _ _ Hreg).
    apply (settled_grow _ _ Hinv); try apply connected_fields.
    + simpl. now rewrite !ensured_proto.
    + intros k Hk. now apply ensured_mono, ensured_mono.
    + intros k e' Hin. simpl in Hin. apply JSObjectFacts.In_assign in Hin.
      destruct Hin as [[-> ->]|Hin]; [right | now left].
      split; [reflexivity|]. split.
      * apply ensured_mono. now apply ensured_has.
      * apply ensured_has; [exact Hplain | now apply ensured_pristine].
Qed.

Lemma deleted_settled (s s' : State) (k : string) :
  settled s ->
  vertices (this s') = vertices (this s) ->
  edges (this s') = JSObject.delete (edges (this s)) k ->
  vertexKey (heap s') = vertexKey (heap s) ->
  startVertex (heap s') = startVertex (heap s) ->
  endVertex (heap s') = endVertex (heap s) ->
  settled s'.
Proof.
  intros Hinv Hv He H1 H2 H3. apply (settled_grow _ _ Hinv); auto.
  - now rewrite Hv.
  - intros k'. now rewrite Hv.
  - intros k' e' Hin. left. rewrite He in Hin. eapply JSObjectFacts.In_delete; eauto.
Qed.

Lemma A_deleteEdge_settled (e : eref) : preserves settled (A.deleteEdge e).
Proof.
  intros s Hinv. unfold after. unfold_A. run_js.
  destruct (truthy (JSObject.get _ (edges (this s)) _)); simpl; [|exact Hinv].
  destruct (JSObject.get _ (vertices (this s)) (vertexKey (heap s) (startVertex (heap s) e)));
    simpl; try (apply (deleted_settled s _ (GraphEdge.key (heap s) e) Hinv); reflexivity).
  destruct (JSObject.get _ (vertices (this s)) (vertexKey (heap s) (endVertex (heap s) e)));
    simpl; apply (deleted_settled s _ (GraphEdge.key (heap s) e) Hinv); reflexivity.
Qed.

Lemma B_deleteEdge_settled (e : eref) : preserves settled (B.deleteEdge e).
Proof.
  intros s Hinv. unfold after.
  destruct (truthy (edgeAt s (GraphEdge.key (heap s) e))) eqn:Hreg.
  - rewrite (B_deleteEdge_present _ _ Hreg).
    apply (deleted_settled s _ (GraphEdge.key (heap s) e) Hinv); reflexivity.
  - apply JSObjectFacts.falsy_Nothing in Hreg. now rewrite (B_deleteEdge_absent s e Hreg).
Qed.

Lemma edge_reverse_settled (e : eref) : preserves settled (GraphEdge.reverse e).
Proof.
  intros s (Hplain & Hinv & Hkeys). unfold after. simpl.
  split; [exact Hplain|]. split; [|exact Hkeys].
  intros k e' Hin. simpl.
  destruct (Hinv _ _ Hin) as [Ha Hb].
  destruct (Nat.eqb e' e) eqn:E; [|split; assumption].
  apply Nat.eqb_eq in E. subst e'. split; assumption.
Qed.

Lemma A_reverse_settled : preserves settled A.reverse.
Proof.
  unfold A.reverse. apply preserves_bind; [apply preserves_reads|].
  intros es. apply preserves_bind; [|intros _; apply preserves_ret].
  apply preserves_forEach. intros e.
  apply preserves_bind; [apply A_deleteEdge_settled|]. intros _.
  apply preserves_bind; [apply edge_reverse_settled|]. intros _.
  apply A_addEdge_settled.
Qed.

Lemma B_reverse_settled : preserves settled B.reverse.
Proof.
  unfold B.reverse. apply preserves_bind; [apply preserves_reads|].
  intros es. apply preserves_bind; [|intros _; apply preserves_ret].
  apply preserves_forEach. intros e.
  apply preserves_bind; [apply B_deleteEdge_settled|]. intros _.
  apply preserves_bind; [apply edge_reverse_settled|]. intros _.
  apply B_addEdge_settled.
Qed.

Lemma performA_settled (c : call) : preserves settled (performA c).
Proof.
  destruct c; simpl;
    [apply addVertex_settled | apply A_addEdge_settled
    | apply A_deleteEdge_settled | apply A_reverse_settled].
Qed.

Lemma performB_settled (c : call) : preserves settled (performB c).
Proof.
  destruct c; simpl;
    [apply addVertex_settled | apply B_addEdge_settled
    | apply B_deleteEdge_settled | apply B_reverse_settled].
Qed.

Lemma new_settled (d : bool) (h : Store) :
  plainVertexKeys h -> settled {| this := constructor d; heap := h |}.
Proof.
  intros Hplain. split; [split; [exact Hplain | reflexivity]|].
  split; intros k e [].
Qed.

(** Over vertex objects with plain keys every reachable graph is
    settled. *)
Lemma reachable_settled :
  (forall s, reachable performA s -> plainVertexKeys (heap s) -> settled s) /\
  (forall s, reachable performB s -> plainVertexKeys (heap s) -> settled s).
Proof.
  split; intros s Hs; induction Hs as [d h|s c Hs IH]; intros Hplain;
    try (now apply new_settled).
  - apply performA_settled. apply IH.
    destruct (performA_keeps (vertexKey (heap s)) (weight (heap s)) (isDirected (this s)) c s)
      as (Hk & _); [auto|].
    unfold plainVertexKeys in *. now rewrite <- Hk.
  - apply performB_settled. apply IH.
    destruct (performB_keeps (vertexKey (heap s)) (weight (heap s)) (isDirected (this s)) c s)
      as (Hk & _); [auto|].
    unfold plainVertexKeys in *. now rewrite <- Hk.
Qed.
End Settled.

(** C7, at the input where both variants depart from it.  On the empty
    graph, [addEdge] of the edge from the vertex "constructor" to the
    vertex "x" finds [this.vertices["constructor"]] truthy, the function
    [Object], and does not register the start vertex.  Variant B returns
    with the edge registered and the vertex "constructor" not; variant A
    registers the edge and then ends in a [TypeError], calling [addEdge]
    on that function.  Either way the graph has reached a state in which
    a registered edge has an endpoint that is not registered. *)
Theorem addEdge_skips_inherited_vertex_key :
  let s := Inherited.start true in
  let sa := after (A.addEdge (EK:=joinedKey) 0) s in
  let sb := after (B.addEdge (EK:=joinedKey) 0) s in
  vertexKey (heap s) (startVertex (heap s) 0) = "constructor"%string /\
  vertexAt s "constructor" = Foreign /\
  (outcome (B.addEdge (EK:=joinedKey) 0) s = Return Undefined /\
   reachable (performB (EK:=joinedKey)) sb /\
   JSObject.props (edges (this sb)) = [("constructor_x", 0)]%string /\
   JSObject.props (vertices (this sb)) = [("x", 1)]%string /\
   ~ edgesHaveVertices sb) /\
  (outcome (A.addEdge (EK:=joinedKey) 0) s = Throw TypeError /\
   reachable (performA (EK:=joinedKey)) sa /\
   JSObject.props (edges (this sa)) = [("constructor_x", 0)]%string /\
   JSObject.props (vertices (this sa)) = [("x", 1)]%string /\
   ~ edgesHaveVertices sa).
Proof.
  cbv zeta. split; [reflexivity|]. split; [reflexivity|]. split.
  - split; [reflexivity|]. split.
    { apply (reachable_call (performB (EK:=joinedKey)) _ (AddEdge 0)). apply reachable_new. }
    split; [reflexivity|]. split; [reflexivity|].
    intros H. destruct (H "constructor_x"%string 0) as [Ha _]; [now left|].
    now apply Ha.
  - split; [reflexivity|]. split.
    { apply (reachable_call (performA (EK:=joinedKey)) _ (AddEdge 0)). apply reachable_new. }
    split; [reflexivity|]. split; [reflexivity|].
    intros H. destruct (H "constructor_x"%string 0) as [Ha _]; [now left|].
    now apply Ha.
Qed.

(* ================================================================= *)
(** ** Every vertex is registered under its own key *)

Section ReadThenModify.
Variable P : State -> Prop.

(** A [modify] that uses what was read from the same state. *)
Lemma preserves_read_modify {A} (g : State -> A) (F : A -> State -> State) :
  (forall s, P s -> P (F (g s) s)) ->
  preserves P (k <- reads g ;; modify (F k)).
Proof. intros H s Hs. now apply H. Qed.

Lemma preserves_read_modify_then {A B} (g : State -> A) (F : A -> State -> State)
    (rest : M B) :
  (forall s, P s -> P (F (g s) s)) -> preserves P rest ->
  preserves P (k <- reads g ;; modify (F k) ;; rest).
Proof.
  intros H Hrest s Hs. unfold after, bind, reads, modify. simpl.
  apply Hrest. now apply H.
Qed.
End ReadThenModify.

Section VerticesKeyed.
Context `{EK : EdgeKey} `{MB : Members}.

Lemma keyed_frame (s s' : State) :
  vertices (this s') = vertices (this s) ->
  vertexKey (heap s') = vertexKey (heap s) ->
  registryKeyed s -> registryKeyed s'.
Proof.
  intros Hv Hk [Hwf Hkeyed]. split.
  - now rewrite Hv.
  - intros k v. rewrite Hv, Hk. apply Hkeyed.
Qed.

Lemma addVertex_keyed (v : vref) : preserves registryKeyed (A.addVertex v).
Proof.
  intros s [Hwf Hkeyed]. rewrite addVertex_after. split.
  - now apply JSObjectFacts.wf_assign.
  - intros k v' Hin. simpl in Hin. apply JSObjectFacts.In_assign in Hin.
    destruct Hin as [[-> ->]|Hin]; [reflexivity | now apply Hkeyed].
Qed.

Lemma B_addVertex_keyed (v : vref) : preserves registryKeyed (B.addVertex v).
Proof. intros s H. rewrite B_addVertex_after. now apply addVertex_keyed. Qed.

Ltac keyed_steps :=
  repeat first
    [ apply addVertex_keyed
    | apply B_addVertex_keyed
    | apply preserves_bind; [|intros ?]
    | apply preserves_reads
    | apply preserves_ret
    | apply preserves_throw
    | apply preserves_deref
    | apply preserves_forEach; intros ?
    | apply preserves_modify; intros ? ?; eapply keyed_frame;
        [reflexivity | reflexivity | eassumption]
    | match goal with
      | |- preserves _ (if ?x then _ else _) => destruct x
      | |- preserves _ (match ?x with _ => _ end) => destruct x
      end ].

Lemma A_addEdge_keyed (e : eref) : preserves registryKeyed (A.addEdge e).
Proof.
  unfold A.addEdge, A.getVertexByKey, GraphVertex.getKey, GraphEdge.getKey,
    GraphVertex.addEdge.
  keyed_steps.
Qed.

Lemma A_deleteEdge_keyed (e : eref) : preserves registryKeyed (A.deleteEdge e).
Proof.
  unfold A.deleteEdge, A.getVertexByKey, GraphVertex.getKey, GraphEdge.getKey,
    GraphVertex.deleteEdge.
  keyed_steps.
Qed.

Lemma B_addEdge_keyed (e : eref) : preserves registryKeyed (B.addEdge e).
Proof.
  unfold B.addEdge, B._ensureVertexExists, B._connectVertices, B.getVertexByKey,
    GraphVertex.getKey, GraphEdge.getKey, GraphVertex.addEdge.
  keyed_steps.
Qed.

Lemma B_deleteEdge_keyed (e : eref) : preserves registryKeyed (B.deleteEdge e).
Proof.
  unfold B.deleteEdge, GraphVertex.getKey, GraphEdge.getKey, GraphVertex.deleteEdge.
  keyed_steps.
Qed.

Lemma A_reverse_keyed : preserves registryKeyed A.reverse.
Proof.
  unfold A.reverse, A.getAllEdges, GraphEdge.reverse.
  keyed_steps; first [apply A_deleteEdge_keyed | apply A_addEdge_keyed].
Qed.

Lemma B_reverse_keyed : preserves registryKeyed B.reverse.
Proof.
  unfold B.reverse, B.getAllEdges, GraphEdge.reverse.
  keyed_steps; first [apply B_deleteEdge_keyed | apply B_addEdge_keyed].
Qed.

(** The premises on the vertex registry in the theorems about the matrix
    hold in every state a graph can reach. *)
Lemma reachable_keyed :
  (forall s, reachable performA s -> registryKeyed s) /\
  (forall s, reachable performB s -> registryKeyed s).
Proof.
  split; apply reachable_ind_preserved;
    try (intros d h; split; [apply JSObjectFacts.wf_empty | intros k v []]).
  - intros [v|e|e|]; simpl;
      [apply addVertex_keyed | apply A_addEdge_keyed | apply A_deleteEdge_keyed
      | apply A_reverse_keyed].
  - intros [v|e|e|]; simpl;
      [apply B_addVertex_keyed | apply B_addEdge_keyed | apply B_deleteEdge_keyed
      | apply B_reverse_keyed].
Qed.
End VerticesKeyed.

(* ================================================================= *)
(** ** Every edge is registered under the key it has *)

Section EdgesKeyed.
Context `{EK : EdgeKey} `{MB : Members}.

Lemma edgeKeyed_frame (s s' : State) :
  edges (this s') = edges (this s) ->
  vertexKey (heap s') = vertexKey (heap s) ->
  startVertex (heap s') = startVertex (heap s) ->
  endVertex (heap s') = endVertex (heap s) ->
  edgeRegistryKeyed s -> edgeRegistryKeyed s'.
Proof.
  intros He Hk Hs Hend [Hwf Hkeyed]. split.
  - now rewrite He.
  - intros k e. unfold GraphEdge.key. rewrite He, Hk, Hs, Hend. apply Hkeyed.
Qed.

Lemma edgeKeyed_assign (s s' : State) (e : eref) :
  edges (this s') = JSObject.assign (edges (this s)) (GraphEdge.key (heap s) e) e ->
  vertexKey (heap s') = vertexKey (heap s) ->
  startVertex (heap s') = startVertex (heap s) ->
  endVertex (heap s') = endVertex (heap s) ->
  edgeRegistryKeyed s -> edgeRegistryKeyed s'.
Proof.
  intros He Hk Hs Hend [Hwf Hkeyed]. split.
  - rewrite He. now apply JSObjectFacts.wf_assign.
  - intros k x. unfold GraphEdge.key. rewrite He, Hk, Hs, Hend. intros Hin.
    apply JSObjectFacts.In_assign in Hin. destruct Hin as [[-> ->]|Hin]; [reflexivity|].
    now apply Hkeyed.
Qed.

Lemma edgeKeyed_delete (s s' : State) (k0 : string) :
  edges (this s') = JSObject.delete (edges (this s)) k0 ->
  vertexKey (heap s') = vertexKey (heap s) ->
  startVertex (heap s') = startVertex (heap s) ->
  endVertex (heap s') = endVertex (heap s) ->
  edgeRegistryKeyed s -> edgeRegistryKeyed s'.
Proof.
  intros He Hk Hs Hend [Hwf Hkeyed]. split.
  - rewrite He. now apply JSObjectFacts.wf_delete.
  - intros k x. unfold GraphEdge.key. rewrite He, Hk, Hs, Hend. intros Hin.
    apply JSObjectFacts.In_delete in Hin. now apply Hkeyed.
Qed.

(** Once the key of [e] is deleted, no entry holds the object [e]. *)
Lemma deleted_unregistered (s : State) (e : eref) (k : string) (x : eref) :
  edgeRegistryKeyed s ->
  In (k, x) (JSObject.props (JSObject.delete (edges (this s)) (GraphEdge.key (heap s) e))) ->
  x <> e.
Proof.
  intros [Hwf Hkeyed] Hin ->.
  pose proof (JSObjectFacts.In_delete _ _ _ _ Hin) as Hold.
  apply Hkeyed in Hold. subst k.
  pose proof (JSObjectFacts.own_delete_same (edges (this s)) (GraphEdge.key (heap s) e) Hwf)
    as Hnone.
  apply JSObjectFacts.own_None_notin in Hnone. apply Hnone.
  change (GraphEdge.key (heap s) e) with (fst (GraphEdge.key (heap s) e, e)) at 1.
  unfold JSObject.keys. now apply in_map.
Qed.

Ltac edgeKeyed_steps :=
  repeat first
    [ apply preserves_read_modify_then;
        [intros ? ?; first
           [ eapply edgeKeyed_assign; [reflexivity | reflexivity .. | eassumption]
           | eapply edgeKeyed_frame; [reflexivity | reflexivity .. | eassumption] ]|]
    | apply preserves_read_modify; intros ? ?; first
        [ eapply edgeKeyed_assign; [reflexivity | reflexivity .. | eassumption]
        | eapply edgeKeyed_delete; [reflexivity | reflexivity .. | eassumption] ]
    | apply preserves_bind; [|intros ?]
    | apply preserves_reads
    | apply preserves_ret
    | apply preserves_throw
    | apply preserves_deref
    | apply preserves_modify; intros ? ?; first
        [ eapply edgeKeyed_frame; [reflexivity | reflexivity .. | eassumption]
        | eapply edgeKeyed_delete; [reflexivity | reflexivity .. | eassumption] ]
    | match goal with
      | |- preserves _ (if ?x then _ else _) => destruct x
      | |- preserves _ (match ?x with _ => _ end) => destruct x
      end ].

Lemma addVertex_edgeKeyed (v : vref) : preserves edgeRegistryKeyed (A.addVertex v).
Proof. intros s H. rewrite addVertex_after. revert H. now apply edgeKeyed_frame. Qed.

Lemma B_addVertex_edgeKeyed (v : vref) : preserves edgeRegistryKeyed (B.addVertex v).
Proof. intros s H. rewrite B_addVertex_after. now apply addVertex_edgeKeyed. Qed.

Lemma A_addEdge_edgeKeyed (e : eref) : preserves edgeRegistryKeyed (A.addEdge e).
Proof.
  unfold A.addEdge, A.getVertexByKey, GraphVertex.getKey, GraphEdge.getKey,
    GraphVertex.addEdge.
  repeat first [apply addVertex_edgeKeyed | progress edgeKeyed_steps].
Qed.

Lemma B_addEdge_edgeKeyed (e : eref) : preserves edgeRegistryKeyed (B.addEdge e).
Proof.
  unfold B.addEdge, B._ensureVertexExists, B._connectVertices, B.getVertexByKey,
    GraphVertex.getKey, GraphEdge.getKey, GraphVertex.addEdge.
  repeat first [apply B_addVertex_edgeKeyed | progress edgeKeyed_steps].
Qed.

Lemma A_deleteEdge_deletes : deletes A.deleteEdge.
Proof.
  intros e s H. unfold after, outcome. unfold_A. run_js.
  destruct (truthy (JSObject.get _ (edges (this s)) _)); simpl;
    [|split; [exact H | discriminate]].
  assert (Hdel : forall h', vertexKey h' = vertexKey (heap s) ->
            startVertex h' = startVertex (heap s) -> endVertex h' = endVertex (heap s) ->
            edgeRegistryKeyed
              {| this := this (A.setEdges s (JSObject.delete (edges (this s))
                                               (GraphEdge.key (heap s) e)));
                 heap := h' |}).
  { intros h' H1 H2 H3. revert H. now apply (edgeKeyed_delete s _ (GraphEdge.key (heap s) e)). }
  destruct (JSObject.get _ (vertices (this s)) (vertexKey (heap s) (startVertex (heap s) e)));
    simpl; try (split; [now apply Hdel | discriminate]).
  destruct (JSObject.get _ (vertices (this s)) (vertexKey (heap s) (endVertex (heap s) e)));
    simpl; (split; [now apply Hdel|]); try discriminate.
  intros _ _ k x Hin. now apply (deleted_unregistered s e k x H).
Qed.

Lemma B_deleteEdge_deletes : deletes B.deleteEdge.
Proof.
  intros e s H. unfold after, outcome.
  destruct (truthy (edgeAt s (GraphEdge.key (heap s) e))) eqn:Hreg.
  - rewrite (B_deleteEdge_present _ _ Hreg). simpl. split.
    + revert H. now apply (edgeKeyed_delete s _ (GraphEdge.key (heap s) e)).
    + intros _ _ k x Hin. now apply (deleted_unregistered s e k x H).
  - apply JSObjectFacts.falsy_Nothing in Hreg.
    rewrite (B_deleteEdge_absent _ _ Hreg). simpl. split; [exact H | discriminate].
Qed.

Lemma swap_unregistered (s : State) (e : eref) :
  edgeRegistryKeyed s ->
  (forall k x, In (k, x) (JSObject.props (edges (this s))) -> x <> e) ->
  edgeRegistryKeyed (after (GraphEdge.reverse e) s).
Proof.
  intros [Hwf Hkeyed] Hnot. split; [exact Hwf|].
  intros k x Hin. unfold after in *. simpl in *.
  rewrite (Hkeyed k x Hin). unfold GraphEdge.key. simpl.
  destruct (Nat.eqb x e) eqn:E; [|reflexivity].
  apply Nat.eqb_eq in E. now destruct (Hnot k x Hin).
Qed.

Lemma reverse_body_edgeKeyed (deleteEdge addEdge : eref -> M completion) (e : eref) :
  deletes deleteEdge ->
  preserves edgeRegistryKeyed (addEdge e) ->
  preserves edgeRegistryKeyed (deleteEdge e ;; GraphEdge.reverse e ;; addEdge e).
Proof.
  intros Hdel Hadd s H. destruct (Hdel e s H) as [H1 Hgone].
  unfold after, outcome in *. unfold bind.
  destruct (deleteEdge e s) as [[u|x] s1]; simpl in *; [|exact H1].
  apply Hadd. apply (swap_unregistered s1 e H1). now apply (Hgone u).
Qed.

Lemma A_reverse_edgeKeyed : preserves edgeRegistryKeyed A.reverse.
Proof.
  unfold A.reverse. apply preserves_bind; [apply preserves_reads|].
  intros es. apply preserves_bind; [|intros _; apply preserves_ret].
  apply preserves_forEach. intros e.
  apply reverse_body_edgeKeyed; [apply A_deleteEdge_deletes | apply A_addEdge_edgeKeyed].
Qed.

Lemma B_reverse_edgeKeyed : preserves edgeRegistryKeyed B.reverse.
Proof.
  unfold B.reverse. apply preserves_bind; [apply preserves_reads|].
  intros es. apply preserves_bind; [|intros _; apply preserves_ret].
  apply preserves_forEach. intros e.
  apply reverse_body_edgeKeyed; [apply B_deleteEdge_deletes | apply B_addEdge_edgeKeyed].
Qed.

(** In every state a graph can reach, the edge registry holds each edge
    under the key the edge has now. *)
Lemma reachable_edgeKeyed :
  (forall s, reachable performA s -> edgeRegistryKeyed s) /\
  (forall s, reachable performB s -> edgeRegistryKeyed s).
Proof.
  split; apply reachable_ind_preserved;
    try (intros d h; split; [apply JSObjectFacts.wf_empty | intros k v []]).
  - intros [v|e|e|]; simpl;
      [apply addVertex_edgeKeyed | apply A_addEdge_edgeKeyed
      | intros s H; apply (A_deleteEdge_deletes e s H) | apply A_reverse_edgeKeyed].
  - intros [v|e|e|]; simpl;
      [apply B_addVertex_edgeKeyed | apply B_addEdge_edgeKeyed
      | intros s H; apply (B_deleteEdge_deletes e s H) | apply B_reverse_edgeKeyed].
Qed.

(** The prototype of the edge registry is never replaced: the class only
    assigns a key of the edge registry after a read of that key gave
    nothing, which a read of ["__proto__"] never does. *)
Lemma edges_proto_assign (s s' : State) (k : string) (e : eref) :
  edgeAt s k = Nothing ->
  edges (this s') = JSObject.assign (edges (this s)) k e ->
  JSObject.proto (edges (this s')) = JSObject.proto (edges (this s)).
Proof.
  intros Hget ->. apply JSObjectFacts.get_Nothing in Hget.
  apply JSObjectFacts.proto_assign. left. tauto.
Qed.
End EdgesKeyed.

(* ================================================================= *)
(** ** Arrays and local loops *)

Section Arrays.
Context {A : Type}.

Lemma replaceAt_length (l : list A) (i : nat) (x : A) :
  List.length (replaceAt l i x) = List.length l.
Proof.
  revert i. induction l as [|y l IH]; intros [|i]; simpl; auto.
Qed.

Lemma nth_error_replaceAt_same (l : list A) (i : nat) (x : A) :
  i < List.length l -> nth_error (replaceAt l i x) i = Some x.
Proof.
  revert i. induction l as [|y l IH]; intros [|i] Hlt; simpl in *; try lia; auto.
  apply IH. lia.
Qed.

Lemma nth_error_replaceAt_other (l : list A) (i j : nat) (x : A) :
  i <> j -> nth_error (replaceAt l i x) j = nth_error l j.
Proof.
  revert i j. induction l as [|y l IH]; intros [|i] [|j] Hne; simpl;
    try reflexivity; try contradiction.
  apply IH. lia.
Qed.

Lemma In_replaceAt (l : list A) (i : nat) (x y : A) :
  In y (replaceAt l i x) -> y = x \/ In y l.
Proof.
  revert i. induction l as [|z l IH]; intros [|i]; simpl; try tauto.
  - intros [H|H]; auto.
  - intros [H|H]; auto. destruct (IH _ H); auto.
Qed.
End Arrays.

Section LocalLoops.
Context {A L : Type}.
Implicit Types (xs : list A) (f : L -> A -> result L) (l : L).

(** A property of the local variable kept by every step is kept by the
    loop. *)
Lemma forEachLocal_inv (P : L -> Prop) xs f :
  (forall x l l', In x xs -> P l -> f l x = Return l' -> P l') ->
  forall l l', P l -> forEachLocal xs f l = Return l' -> P l'.
Proof.
  induction xs as [|x xs IH]; intros Hstep l l' Hl; simpl.
  - intros [= <-]. exact Hl.
  - destruct (f l x) as [l1|e] eqn:E; [|discriminate].
    apply IH.
    + intros y l0 l0' Hy. apply Hstep. now right.
    + eapply Hstep; eauto. now left.
Qed.


(** A loop whose steps all return, returns. *)
Lemma forEachLocal_total (P : L -> Prop) xs f :
  (forall x l, In x xs -> P l -> exists l', f l x = Return l' /\ P l') ->
  forall l, P l -> exists l', forEachLocal xs f l = Return l' /\ P l'.
Proof.
  induction xs as [|x xs IH]; intros Hstep l Hl; simpl.
  - eauto.
  - destruct (Hstep x l (or_introl eq_refl) Hl) as (l1 & -> & Hl1).
    apply IH; auto. intros y l0 Hy. apply Hstep. now right.
Qed.

(** A loop with a step that throws from every value of the local
    variable, throws. *)
Lemma forEachLocal_fails xs f x0 :
  In x0 xs ->
  (forall l, exists e, f l x0 = Throw e) ->
  forall l, exists e, forEachLocal xs f l = Throw e.
Proof.
  induction xs as [|x xs IH]; intros Hin Hthrow l; simpl; [destruct Hin|].
  destruct (f l x) as [l1|e] eqn:E; [|eauto].
  destruct Hin as [->|Hin].
  - destruct (Hthrow l) as [e He]. congruence.
  - apply IH; auto.
Qed.

Lemma forEachLocal_throws_only (e0 : exn) xs f :
  (forall x l e, In x xs -> f l x = Throw e -> e = e0) ->
  forall l e, forEachLocal xs f l = Throw e -> e = e0.
Proof.
  induction xs as [|x xs IH]; intros Hstep l e; simpl; [discriminate|].
  destruct (f l x) as [l1|e1] eqn:E.
  - apply IH. intros y l0 e' Hy. apply Hstep. now right.
  - intros [= <-]. eapply Hstep; eauto. now left.
Qed.

Lemma forEachLocal_ext xs f g :
  (forall x l, In x xs -> f l x = g l x) ->
  forall l, forEachLocal xs f l = forEachLocal xs g l.
Proof.
  induction xs as [|x xs IH]; intros Heq l; simpl; [reflexivity|].
  rewrite (Heq x l (or_introl eq_refl)).
  destruct (g l x); [|reflexivity].
  apply IH. intros y l0 Hy. apply Heq. now right.
Qed.

Lemma forEachLocal_unchanged xs f l :
  (forall x l, In x xs -> f l x = Return l) -> forEachLocal xs f l = Return l.
Proof.
  induction xs as [|x xs IH]; intros H; simpl; [reflexivity|].
  rewrite (H x l (or_introl eq_refl)). apply IH. intros y l' Hy. apply H. now right.
Qed.
End LocalLoops.

(* ================================================================= *)
(** ** Matrices *)

Section Matrices.
Implicit Types (m : matrix) (x : number).

Lemma blank_square (n : nat) : square n (blank n).
Proof.
  unfold square, blank, fill. split.
  - now rewrite length_map, repeat_length.
  - apply Forall_forall. intros row Hin. apply in_map_iff in Hin.
    destruct Hin as (u & <- & _). apply repeat_length.
Qed.

Lemma blank_cell (n i j : nat) : i < n -> j < n -> cell (blank n) i j = Some Infinity.
Proof.
  intros Hi Hj. unfold cell, blank, fill.
  rewrite nth_error_map, nth_error_repeat by assumption. simpl.
  now apply nth_error_repeat.
Qed.


Lemma square_row (n : nat) m (i : nat) (row : list number) :
  square n m -> nth_error m i = Some row -> List.length row = n.
Proof.
  intros [_ Hrows] Hrow. rewrite Forall_forall in Hrows.
  apply Hrows. eapply nth_error_In; eauto.
Qed.

Lemma assignCell_length (row : list number) (j : value nat) x :
  List.length (assignCell row j x) = List.length row.
Proof. destruct j; simpl; [apply replaceAt_length | reflexivity..]. Qed.

(** Writing a row that exists returns, and keeps the shape. *)
Lemma assign_row (n : nat) m (i : nat) (j : value nat) x :
  square n m -> i < n -> exists m', assign m (Ref i) j x = Return m' /\ square n m'.
Proof.
  intros Hsq Hi. pose proof Hsq as [Hlen Hrows]. unfold assign.
  destruct (nth_error m i) as [row|] eqn:Hrow.
  - eexists. split; [reflexivity|]. split.
    + now rewrite replaceAt_length.
    + apply Forall_forall. intros r Hr. apply In_replaceAt in Hr.
      destruct Hr as [->|Hr].
      * rewrite assignCell_length. eapply square_row; eauto.
      * rewrite Forall_forall in Hrows. auto.
  - exfalso. apply nth_error_None in Hrow. lia.
Qed.

Lemma assign_square (n : nat) m m' (i j : value nat) x :
  square n m -> assign m i j x = Return m' -> square n m'.
Proof.
  intros Hsq. unfold assign. destruct i as [i| |]; try discriminate.
  destruct (nth_error m i) as [row|] eqn:Hrow; [|discriminate].
  assert (Hi : i < n).
  { destruct Hsq as [<- _]. apply nth_error_Some. congruence. }
  destruct (assign_row n m i j x Hsq Hi) as (m1 & H1 & Hsq1).
  unfold assign in H1. rewrite Hrow in H1. congruence.
Qed.

Lemma assign_throws m (i j : value nat) x (e : exn) :
  assign m i j x = Throw e -> e = TypeError.
Proof.
  unfold assign. destruct i as [i| |]; [destruct (nth_error m i)| |]; congruence.
Qed.

(** A row index that is not a number makes the assignment throw. *)
Lemma assign_no_row m (i j : value nat) x :
  (forall p, i <> Ref p) -> assign m i j x = Throw TypeError.
Proof. intros H. destruct i as [p| |]; [now destruct (H p) | reflexivity..]. Qed.

(** The cell that an assignment names holds the assigned value. *)
Lemma cell_assign_hit (n : nat) m m' (i j : nat) x :
  square n m -> j < n ->
  assign m (Ref i) (Ref j) x = Return m' -> cell m' i j = Some x.
Proof.
  intros Hsq Hj. unfold assign.
  destruct (nth_error m i) as [row|] eqn:Hrow; [|discriminate].
  intros [= <-]. unfold cell.
  rewrite nth_error_replaceAt_same.
  - simpl. apply nth_error_replaceAt_same. now rewrite (square_row n m i row Hsq Hrow).
  - apply nth_error_Some. congruence.
Qed.

(** Every other cell keeps its value. *)
Lemma cell_assign_miss m m' (i' j' : value nat) (i j : nat) x :
  assign m i' j' x = Return m' ->
  i' <> Ref i \/ j' <> Ref j ->
  cell m' i j = cell m i j.
Proof.
  unfold assign. destruct i' as [i'| |]; try discriminate.
  destruct (nth_error m i') as [row|] eqn:Hrow; [|discriminate].
  intros [= <-] Hmiss. unfold cell.
  destruct (Nat.eq_dec i' i) as [->|Hne].
  - rewrite nth_error_replaceAt_same by (apply nth_error_Some; congruence).
    rewrite Hrow. destruct j' as [j'| |]; simpl; try reflexivity.
    apply nth_error_replaceAt_other. intros ->. destruct Hmiss; congruence.
  - now rewrite nth_error_replaceAt_other.
Qed.
End Matrices.

(* ================================================================= *)
(** ** The indices of the vertices *)

Section Indices.
Variable h : Store.

Lemma In_combine_seq {A} (xs : list A) (start i : nat) (x : A) :
  In (i, x) (combine (seq start (List.length xs)) xs) <->
  start <= i /\ nth_error xs (i - start) = Some x.
Proof.
  revert start. induction xs as [|y ys IH]; intros start; simpl.
  - split; [tauto|]. intros [_ H]. destruct (i - start); discriminate.
  - rewrite IH. split.
    + intros [[= <- <-]|[Hle Hnth]].
      * rewrite Nat.sub_diag. auto.
      * split; [lia|]. replace (i - start) with (S (i - S start)) by lia. exact Hnth.
    + intros [Hle Hnth]. destruct (i - start) as [|d] eqn:E; simpl in Hnth.
      * left. injection Hnth as ->. f_equal. lia.
      * right. split; [lia|]. replace (i - S start) with d by lia. exact Hnth.
Qed.

Lemma In_indexed {A} (xs : list A) (i : nat) (x : A) :
  In (i, x) (indexed xs) <-> nth_error xs i = Some x.
Proof.
  unfold indexed. rewrite In_combine_seq, Nat.sub_0_r. split; [tauto | split; [lia | assumption]].
Qed.

Let step := fun (acc : JSObject.t nat) '(index, vertex) =>
  JSObject.assignNumber acc (vertexKey h vertex) index.

Lemma indices_fold_proto acc start vs :
  JSObject.proto (fold_left step (combine (seq start (List.length vs)) vs) acc)
  = JSObject.proto acc.
Proof.
  revert acc start. induction vs as [|v vs IH]; intros acc start; simpl; [reflexivity|].
  rewrite IH. apply JSObjectFacts.proto_assignNumber.
Qed.

Lemma indices_fold_own acc start vs k i :
  JSObject.own (fold_left step (combine (seq start (List.length vs)) vs) acc) k = Some i ->
  JSObject.own acc k = Some i \/
  exists p v, nth_error vs p = Some v /\ vertexKey h v = k /\ i = start + p.
Proof.
  revert acc start. induction vs as [|v vs IH]; intros acc start; simpl; [auto|].
  intros H. apply IH in H. destruct H as [H|(p & v' & Hp & Hk & ->)].
  - apply JSObjectFacts.own_assignNumber in H. destruct H as [[-> ->]|H]; [|now left].
    right. exists 0, v. simpl. repeat split; lia.
  - right. exists (S p), v'. simpl. repeat split; auto; lia.
Qed.

Lemma indices_fold_other acc start vs k :
  (forall v, In v vs -> vertexKey h v <> k) ->
  JSObject.own (fold_left step (combine (seq start (List.length vs)) vs) acc) k
  = JSObject.own acc k.
Proof.
  revert acc start. induction vs as [|v vs IH]; intros acc start Hne; simpl; [reflexivity|].
  rewrite IH by (intros v' Hv'; apply Hne; now right).
  apply JSObjectFacts.own_assignNumber_other. intros ->. apply (Hne v); [now left | reflexivity].
Qed.

Lemma indices_fold_keeps acc start vs k :
  JSObject.own acc k <> None ->
  JSObject.own (fold_left step (combine (seq start (List.length vs)) vs) acc) k <> None.
Proof.
  revert acc start. induction vs as [|v vs IH]; intros acc start Hk; simpl; [exact Hk|].
  apply IH. now apply JSObjectFacts.own_assignNumber_mono.
Qed.

Lemma indices_fold_has acc start vs v :
  In v vs -> vertexKey h v <> "__proto__"%string ->
  JSObject.own (fold_left step (combine (seq start (List.length vs)) vs) acc) (vertexKey h v)
  <> None.
Proof.
  revert acc start. induction vs as [|v' vs IH]; intros acc start; simpl; [tauto|].
  intros [->|Hin] Hk; [|now apply IH].
  apply indices_fold_keeps. rewrite JSObjectFacts.own_assignNumber_same; [discriminate|].
  now left.
Qed.

Lemma indices_fold_position acc start vs p v :
  NoDup (map (vertexKey h) vs) ->
  nth_error vs p = Some v -> vertexKey h v <> "__proto__"%string ->
  JSObject.own (fold_left step (combine (seq start (List.length vs)) vs) acc) (vertexKey h v)
  = Some (start + p).
Proof.
  revert acc start p. induction vs as [|v' vs IH]; intros acc start p Hnd Hp Hk; simpl.
  - destruct p; discriminate.
  - inversion Hnd as [|? ? Hnotin Hnd']; subst. destruct p as [|p]; simpl in Hp.
    + injection Hp as ->. rewrite indices_fold_other.
      * rewrite JSObjectFacts.own_assignNumber_same by now left. f_equal. lia.
      * intros v' Hv' Heq. apply Hnotin. rewrite <- Heq. now apply in_map.
    + rewrite (IH _ _ p Hnd' Hp Hk). f_equal. lia.
Qed.

(** The index object keeps [Object.prototype]: a read gives a number only
    for an own property. *)
Lemma indicesOf_pristine (vs : list vref) : JSObject.pristine (indicesOf h vs).
Proof. unfold JSObject.pristine, indicesOf, indexed. fold step. apply indices_fold_proto. Qed.

Lemma indexAt_own (vs : list vref) (k : string) (i : nat) :
  indexAt h vs k = Ref i <-> JSObject.own (indicesOf h vs) k = Some i.
Proof. apply JSObjectFacts.get_Ref_pristine, indicesOf_pristine. Qed.

(** An index that [getVerticesIndices] gives to a key is the position of a
    vertex with that key, hence below the number of vertices. *)
Lemma indices_bound (vs : list vref) (k : string) (i : nat) :
  indexAt h vs k = Ref i ->
  exists v, nth_error vs i = Some v /\ vertexKey h v = k.
Proof.
  intros H. apply indexAt_own, indices_fold_own in H.
  destruct H as [H|(p & v & Hp & Hk & ->)].
  - discriminate.
  - exists v. auto.
Qed.

Lemma indices_lt (vs : list vref) (k : string) (i : nat) :
  indexAt h vs k = Ref i -> i < List.length vs.
Proof.
  intros H. apply indices_bound in H. destruct H as (v & Hv & _).
  apply nth_error_Some. congruence.
Qed.

(** The key of every listed vertex has an index, unless the key is
    ["__proto__"], which the index object does not take. *)
Lemma indices_has (vs : list vref) (v : vref) :
  In v vs -> vertexKey h v <> "__proto__"%string ->
  exists i, indexAt h vs (vertexKey h v) = Ref i.
Proof.
  intros Hin Hk. pose proof (indices_fold_has JSObject.empty 0 vs v Hin Hk) as H.
  fold (indexed vs) in H. fold step in H.
  destruct (JSObject.own _ _) as [i|] eqn:E; [|contradiction].
  exists i. apply indexAt_own. exact E.
Qed.

Lemma indices_proto (vs : list vref) : indexAt h vs "__proto__" = Foreign.
Proof.
  unfold indexAt. rewrite (JSObjectFacts.get_pristine _ _ _ (indicesOf_pristine vs)).
  destruct (JSObject.own (indicesOf h vs) "__proto__") as [i|] eqn:E; [|reflexivity].
  exfalso. unfold indicesOf, indexed in E. fold step in E.
  revert E. generalize 0.
  assert (G : forall acc start (l : list vref),
             JSObject.own acc "__proto__" = None ->
             JSObject.own (fold_left step (combine (seq start (List.length l)) l) acc)
               "__proto__" = None).
  { intros acc start l. revert acc start.
    induction l as [|v l IH]; intros acc start Hacc; simpl; [exact Hacc|].
    apply IH. destruct (string_dec (vertexKey h v) "__proto__") as [E|E].
    - rewrite E. unfold JSObject.assignNumber. now rewrite Hacc.
    - rewrite JSObjectFacts.own_assignNumber_other; [exact Hacc | congruence]. }
  intros n E. rewrite G in E; [discriminate | reflexivity].
Qed.

(** When the keys are pairwise distinct the index is the position. *)
Lemma indices_position (vs : list vref) (p : nat) (v : vref) :
  NoDup (map (vertexKey h) vs) ->
  nth_error vs p = Some v -> vertexKey h v <> "__proto__"%string ->
  indexAt h vs (vertexKey h v) = Ref p.
Proof.
  intros Hnd Hp Hk. apply indexAt_own.
  exact (indices_fold_position JSObject.empty 0 vs p v Hnd Hp Hk).
Qed.
End Indices.

(* ================================================================= *)
(** ** getAdjacencyMatrix *)

Section MatrixLoops.
Context `{VL : VertexLookup} `{MB : Members}.
Variable s : State.

Local Abbreviation h := (heap s).
Local Abbreviation vs := (JSObject.values (vertices (this s))).
Local Abbreviation size := (List.length (JSObject.values (vertices (this s)))).

Local Ltac plain := unfold writes in *; cbv zeta in *.

Lemma A_matrix_unfold : A.getAdjacencyMatrix s = (fillA s, s).
Proof.
  unfold A.getAdjacencyMatrix, fillA. unfold_A. unfold A.getVerticesIndices. unfold_A. run_js.
  f_equal. apply forEachLocal_ext. intros [p v] m _.
  apply forEachLocal_ext. intros n m' _.
  unfold lookupA, vertexAt.
  destruct (JSObject.get _ (vertices (this s)) (vertexKey (heap s) v)); reflexivity.
Qed.

Lemma B_matrix_unfold : B.getAdjacencyMatrix s = (fillB s, s).
Proof.
  unfold B.getAdjacencyMatrix, fillB. unfold_B. unfold B.getVerticesIndices. unfold_B. run_js.
  reflexivity.
Qed.

(** Variant B returns a matrix, and the matrix is square, when every
    registered vertex that reports a neighbour has a key that the index
    object takes. *)
Lemma B_matrix_returns :
  (forall v, In v vs -> getNeighbors h v <> [] -> vertexKey h v <> "__proto__"%string) ->
  exists m, fillB s = Return m /\ square size m.
Proof.
  intros Hkeys.
  unfold fillB. plain. apply (forEachLocal_total (square size)); [|apply blank_square].
  intros v m Hv Hm. apply (forEachLocal_total (square size)); [|exact Hm].
  intros n m' Hn Hm'.
  assert (Hk : vertexKey h v <> "__proto__"%string).
  { apply Hkeys; [exact Hv|]. intros E. rewrite E in Hn. destruct Hn. }
  destruct (indices_has h vs v Hv Hk) as [i Hi]. rewrite Hi.
  apply assign_row; [exact Hm'|]. eapply indices_lt; eauto.
Qed.

Lemma B_matrix_square (m : matrix) : fillB s = Return m -> square size m.
Proof.
  unfold fillB. cbv zeta. apply (forEachLocal_inv (square size)); [|apply blank_square].
  intros v m0 m1 _ Hm0. apply (forEachLocal_inv (square size)); [|exact Hm0].
  intros n m2 m3 _ Hsq. now apply assign_square.
Qed.

Lemma B_matrix_throws (e : exn) : fillB s = Throw e -> e = TypeError.
Proof.
  unfold fillB. cbv zeta. apply forEachLocal_throws_only.
  intros v m0 e0 _. apply forEachLocal_throws_only.
  intros n m1 e1 _. apply assign_throws.
Qed.

(** A cell that every write fills with [x], and that holds [x] at the
    start or is written at least once, holds [x] at the end. *)
Lemma B_cell_step (i j : nat) (x : number) (v n : vref) (m m' : matrix) :
  (forall v n, writes s v n i j -> weightOrInfinity h v n = x) ->
  In v vs -> In n (getNeighbors h v) ->
  square size m -> cell m i j = Some x ->
  assign m (indexAt h vs (vertexKey h v)) (indexAt h vs (vertexKey h n))
         (weightOrInfinity h v n) = Return m' ->
  cell m' i j = Some x.
Proof.
  intros Hall Hv Hn Hsq Hcell Hassign. plain.
  destruct (indexAt h vs (vertexKey h v)) as [i'| |] eqn:Hi; try discriminate.
  destruct (indexAt h vs (vertexKey h n)) as [j'| |] eqn:Hj.
  - destruct (Nat.eq_dec i' i) as [->|Hne]; [destruct (Nat.eq_dec j' j) as [->|Hne]|].
    + rewrite (Hall v n) in Hassign by (repeat split; assumption).
      eapply cell_assign_hit; eauto. eapply indices_lt; eauto.
    + rewrite (cell_assign_miss _ _ _ _ i j _ Hassign); [assumption|]. right. congruence.
    + rewrite (cell_assign_miss _ _ _ _ i j _ Hassign); [assumption|]. left. congruence.
  - rewrite (cell_assign_miss _ _ _ _ i j _ Hassign); [assumption|]. right. discriminate.
  - rewrite (cell_assign_miss _ _ _ _ i j _ Hassign); [assumption|]. right. discriminate.
Qed.

Lemma B_cell_default (m : matrix) (i j : nat) :
  fillB s = Return m -> i < size -> j < size ->
  (forall v n, writes s v n i j -> weightOrInfinity h v n = Infinity) ->
  cell m i j = Some Infinity.
Proof.
  intros Hm Hi Hj Hall.
  enough (G : square size m /\ cell m i j = Some Infinity) by apply G.
  revert Hm. unfold fillB. cbv zeta.
  apply (forEachLocal_inv (fun m => square size m /\ cell m i j = Some Infinity)).
  - intros v m0 m1 Hv Hm0.
    apply (forEachLocal_inv (fun m => square size m /\ cell m i j = Some Infinity)); [|exact Hm0].
    intros n m2 m3 Hn [Hsq Hcell] Hassign. split.
    + eapply assign_square; eauto.
    + eapply B_cell_step; eauto.
  - split; [apply blank_square | now apply blank_cell].
Qed.



(** Variant A returns a square matrix when it returns, and throws nothing
    but a [TypeError]. *)
Lemma A_matrix_square (m : matrix) : fillA s = Return m -> square size m.
Proof.
  unfold fillA. cbv zeta. apply (forEachLocal_inv (square size)); [|apply blank_square].
  intros [p v] m0 m1 _ Hm0. apply (forEachLocal_inv (square size)); [|exact Hm0].
  intros n m2 m3 _ Hsq. destruct (lookupA s v n); [|discriminate].
  now apply assign_square.
Qed.

Lemma A_matrix_throws (e : exn) : fillA s = Throw e -> e = TypeError.
Proof.
  unfold fillA. cbv zeta. apply forEachLocal_throws_only.
  intros [p v] m0 e0 _. apply forEachLocal_throws_only.
  intros n m1 e1 _. destruct (lookupA s v n); [apply assign_throws | congruence].
Qed.

(** A registered vertex with a neighbour that the lookup of variant A does
    not find makes variant A throw. *)
Lemma A_matrix_fails (v n : vref) :
  In v vs -> In n (getNeighbors h v) -> lookupA s v n = None ->
  fillA s = Throw TypeError.
Proof.
  intros Hv Hn Hnone.
  apply In_nth_error in Hv. destruct Hv as [p Hp]. apply In_indexed in Hp.
  assert (H : exists e, fillA s = Throw e).
  { unfold fillA. cbv zeta. apply (forEachLocal_fails _ _ (p, v) Hp).
    intros m. apply (forEachLocal_fails _ _ n Hn).
    intros m'. rewrite Hnone. eauto. }
  destruct H as [e He]. rewrite He. f_equal. now apply A_matrix_throws.
Qed.

Lemma A_matrix_returns :
  (forall v n, In v vs -> In n (getNeighbors h v) -> lookupA s v n <> None) ->
  exists m, fillA s = Return m /\ square size m.
Proof.
  intros Hfound. unfold fillA. cbv zeta.
  apply (forEachLocal_total (square size)); [|apply blank_square].
  intros [p v] m Hp Hm. apply In_indexed in Hp.
  assert (Hv : In v vs) by (eapply nth_error_In; eauto).
  assert (Hlt : p < size) by (apply nth_error_Some; congruence).
  apply (forEachLocal_total (square size)); [|exact Hm].
  intros n m' Hn Hm'.
  destruct (lookupA s v n) as [e|] eqn:E; [|now destruct (Hfound v n Hv Hn)].
  now apply assign_row.
Qed.

(** A registered vertex with a neighbour, whose key the index object does
    not take, makes variant B throw. *)
Lemma B_matrix_fails (v n : vref) :
  In v vs -> In n (getNeighbors h v) -> vertexKey h v = "__proto__"%string ->
  fillB s = Throw TypeError.
Proof.
  intros Hv Hn Hk.
  assert (H : exists e, fillB s = Throw e).
  { unfold fillB. cbv zeta. apply (forEachLocal_fails _ _ v Hv).
    intros m. apply (forEachLocal_fails _ _ n Hn).
    intros m'. rewrite Hk, indices_proto. simpl. eauto. }
  destruct H as [e He]. rewrite He. f_equal. now apply B_matrix_throws.
Qed.


Lemma keyed_values_NoDup :
  JSObject.wf (vertices (this s)) -> verticesKeyed s -> NoDup (map (vertexKey h) vs).
Proof.
  unfold JSObject.keys, JSObject.values, verticesKeyed.
  intros (Hnd & _) Hkeyed. unfold JSObject.keys in Hnd. rewrite map_map.
  rewrite (map_ext_in _ fst); [exact Hnd|].
  intros [k v] Hin. simpl. now apply Hkeyed.
Qed.

(** In a keyed registry no registered vertex has the key ["__proto__"]. *)
Lemma keyed_not_proto (v : vref) :
  registryKeyed s -> In v vs -> vertexKey h v <> "__proto__"%string.
Proof.
  intros [(_ & _ & Hproto) Hkeyed] Hv Hk. apply Hproto.
  unfold JSObject.values in Hv. apply in_map_iff in Hv.
  destruct Hv as ([k v'] & <- & Hin). simpl in Hk.
  rewrite (Hkeyed _ _ Hin) in Hk. subst k.
  unfold JSObject.keys. change "__proto__"%string with (fst ("__proto__"%string, v')).
  now apply in_map.
Qed.


End MatrixLoops.

(* ================================================================= *)
(** ** A neighbour without an edge *)

Section FailedLookup.
Context `{VL : VertexLookup} `{MB : Members}.

(** C6, amended.  When a registered vertex reports a neighbour for which
    the edge lookup finds nothing, variant A ends [getAdjacencyMatrix] with
    a [TypeError].  Variant B returns the matrix, provided no registered
    vertex that reports a neighbour has the key ["__proto__"], and the cell
    of that pair holds [Infinity] when every write to it comes from such a
    pair. *)
Theorem failed_lookup_in_matrix (s : State) (v n : vref) :
  In v (JSObject.values (vertices (this s))) ->
  In n (getNeighbors (heap s) v) ->
  (lookupA s v n = None -> A.getAdjacencyMatrix s = (Throw TypeError, s)) /\
  (findEdge (heap s) v n = None ->
   (forall v', In v' (JSObject.values (vertices (this s))) ->
      getNeighbors (heap s) v' <> [] -> vertexKey (heap s) v' <> "__proto__"%string) ->
     exists m, B.getAdjacencyMatrix s = (Return m, s) /\
       forall i j, writes s v n i j ->
         (forall v' n', writes s v' n' i j -> findEdge (heap s) v' n' = None) ->
         cell m i j = Some Infinity).
Proof.
  intros Hv Hn. split.
  - intros Hnone. rewrite A_matrix_unfold. f_equal. eapply A_matrix_fails; eauto.
  - intros _ Hkeys. destruct (B_matrix_returns s Hkeys) as (m & Hm & Hsq).
    exists m. split; [rewrite B_matrix_unfold; now f_equal|].
    intros i j (_ & _ & Hi & Hj) Hall.
    apply (B_cell_default s m i j Hm).
    + eapply indices_lt; eauto.
    + eapply indices_lt; eauto.
    + intros v' n' Hw. unfold weightOrInfinity. now rewrite (Hall v' n' Hw).
Qed.
End FailedLookup.

(** C6 as stated fails in variant B.  With the reading of the vertex
    contract in which [findEdge] only returns edges that end at the given
    vertex, the undirected graph with the single edge A -> B has the vertex
    B report the neighbour A and find no edge toward it; variant B returns
    the matrix with [Infinity] in that cell.  Variant B does end with a
    [TypeError] where a registered vertex that reports a neighbour answers
    [getKey()] with ["__proto__"]: the index object takes no index for that
    key, and the row of the vertex is [undefined]. *)
Lemma B_matrix_defaults_to_Infinity :
  (let s := after (B.addEdge (EK:=joinedKey) 0) (Scenario.start false) in
   In 1 (JSObject.values (vertices (this s))) /\
   In 0 (getNeighbors (VertexLookup:=directionalLookup) (heap s) 1) /\
   findEdge (VertexLookup:=directionalLookup) (heap s) 1 0 = None /\
   outcome (B.getAdjacencyMatrix (VL:=directionalLookup)) s
     = Return [[Infinity; 1%float]; [Infinity; Infinity]]) /\
  (let s := Renamed.state in
   In 0 (JSObject.values (vertices (this s))) /\
   In 1 (getNeighbors (heap s) 0) /\
   vertexKey (heap s) 0 = "__proto__"%string /\
   outcome B.getAdjacencyMatrix s = Throw TypeError).
Proof.
  split.
  - split; [right; now left|]. split; [now left|]. split; reflexivity.
  - split; [now left|]. split; [now left|]. split; reflexivity.
Qed.

Lemma failed_lookup_in_matrix_witness :
  let sa := after (A.addEdge (EK:=joinedKey) 0) (Scenario.start false) in
  let sb := after (B.addEdge (EK:=joinedKey) 0) (Scenario.start false) in
  A.getAdjacencyMatrix (VL:=directionalLookup) sa = (Throw TypeError, sa) /\
  exists m, B.getAdjacencyMatrix (VL:=directionalLookup) sb = (Return m, sb) /\
            cell m 1 0 = Some Infinity.
Proof.
  intros sa sb. split.
  - apply (failed_lookup_in_matrix (VL:=directionalLookup) sa 1 0);
      [right; now left | now left | reflexivity].
  - destruct (failed_lookup_in_matrix (VL:=directionalLookup) sb 1 0) as [_ HB];
      [right; now left | now left |].
    destruct (HB eq_refl) as (m & Hm & Hcell).
    + intros v' [<-|[<-|[]]] _; discriminate.
    + exists m. split; [exact Hm|]. apply Hcell.
      * repeat split; [right; now left | now left].
      * intros v' n' (Hv' & Hn' & Hi & Hj).
        destruct Hv' as [<-|[<-|[]]]; [discriminate Hi|].
        destruct Hn' as [<-|[]]. reflexivity.
Defined.

(* ================================================================= *)
(** ** The matrix after addEdge *)

Section IncidentLookup.





End IncidentLookup.

Section Connected.
Variables (d : bool) (h : Store) (a b : vref) (e : eref).
Hypothesis Hab : a <> b.




End Connected.


Section MatrixAfterAddEdge.
Context `{EK : EdgeKey} `{MB : Members}.
Variables (s : State) (e : eref).

Local Abbreviation h := (heap s).
Local Abbreviation a := (startVertex (heap s) e).
Local Abbreviation b := (endVertex (heap s) e).
Local Abbreviation s' := (addedB s e).
Local Abbreviation vs' := (JSObject.values (vertices (this (addedB s e)))).

Hypothesis Hreg : registryKeyed s.
Hypothesis Hkeys : vertexKey h a <> vertexKey h b.
Hypothesis Ha : ownKey s a.
Hypothesis Hb : ownKey s b.

Lemma ownKey_get (v : vref) :
  ownKey s v ->
  vertexAt s (vertexKey h v) = Ref v \/ vertexAt s (vertexKey h v) = Nothing.
Proof.
  intros [H|H]; [left | now right]. now apply JSObjectFacts.get_own.
Qed.

Lemma ownKey_resolved (v : vref) : ownKey s v -> resolved h (vertices (this s)) v = v.
Proof.
  intros H. apply ownKey_get in H. unfold resolved, vertexAt in *.
  destruct H as [-> | ->]; reflexivity.
Qed.

Lemma ownKey_not_Foreign (v : vref) : ownKey s v -> vertexAt s (vertexKey h v) <> Foreign.
Proof. intros H. apply ownKey_get in H. destruct H as [-> | ->]; discriminate. Qed.

























Hypothesis Hfresh : edgeAt s (GraphEdge.key h e) = Nothing.

End MatrixAfterAddEdge.





(* ================================================================= *)
(** ** reverse *)

(** C4, at the input where both variants depart from it.  In the directed
    graph with the edges A -> B and B -> A, [reverse] deletes A -> B, flips
    it, and finds its new key "B_A" taken by the edge it has not processed
    yet: [addEdge] throws, [reverse] ends with the duplicate error, and the
    flipped edge is left out of the edge registry. *)
Theorem reverse_fails_on_opposite_edges :
  let s := after (A.addEdge (EK:=joinedKey) 2)
             (after (A.addEdge (EK:=joinedKey) 0) (Scenario.start true)) in
  JSObject.keys (edges (this s)) = ["A_B"; "B_A"]%string /\
  outcome (A.reverse (EK:=joinedKey)) s = Throw DuplicateEdgeError /\
  outcome (B.reverse (EK:=joinedKey)) s = Throw DuplicateEdgeError /\
  JSObject.props (edges (this (after (A.reverse (EK:=joinedKey)) s))) = [("B_A", 2)]%string /\
  JSObject.props (edges (this (after (B.reverse (EK:=joinedKey)) s))) = [("B_A", 2)]%string /\
  (let h := heap (after (A.reverse (EK:=joinedKey)) s) in
   (startVertex h 0, endVertex h 0) = (1, 0)).
Proof. vm_compute. repeat split. Qed.

(* ================================================================= *)
(** * Further properties of the two variants *)

(* ================================================================= *)
(** ** toString and getVerticesIndices *)

Section ToString.

Lemma append_length (a b : string) :
  String.length (a ++ b) = String.length a + String.length b.
Proof. induction a as [|c a IH]; simpl; [reflexivity | now rewrite IH]. Qed.

Lemma concat_length (sep : string) (l : list string) :
  String.length (String.concat sep l)
  = list_sum (map String.length l) + String.length sep * (List.length l - 1).
Proof.
  induction l as [|x [|y l] IH]; simpl in *.
  - lia.
  - lia.
  - rewrite !append_length, IH. lia.
Qed.

Lemma keyed_keys (s : State) :
  verticesKeyed s ->
  JSObject.keys (vertices (this s))
  = map (vertexKey (heap s)) (JSObject.values (vertices (this s))).
Proof.
  unfold verticesKeyed, JSObject.keys, JSObject.values. intros Hkeyed.
  rewrite map_map. apply map_ext_in. intros [k v] Hin. simpl. symmetry. now apply Hkeyed.
Qed.

(** X4.  [toString] always returns and leaves the state
    as it is.  In a graph whose vertices are registered under their own
    keys the two variants give the keys of the registered vertices in
    enumeration order, joined by [","] in variant A and by [", "] in
    variant B.  The string of variant B is longer by one character per
    separator, so the two variants give the same string exactly when the
    graph has at most one vertex. *)
Theorem toString_variants (s : State) :
  exists a b,
    A.toString s = (Return a, s) /\ B.toString s = (Return b, s) /\
    (verticesKeyed s ->
       a = String.concat "," (map (vertexKey (heap s)) (JSObject.values (vertices (this s)))) /\
       b = String.concat ", " (map (vertexKey (heap s)) (JSObject.values (vertices (this s))))) /\
    String.length b
      = String.length a + (List.length (JSObject.values (vertices (this s))) - 1) /\
    (a = b <-> List.length (JSObject.values (vertices (this s))) <= 1).
Proof.
  eexists _, _. split; [reflexivity|]. split; [reflexivity|].
  assert (Hlen : List.length (JSObject.values (vertices (this s)))
                 = List.length (JSObject.keys (vertices (this s)))).
  { unfold JSObject.values, JSObject.keys. now rewrite !length_map. }
  rewrite Hlen.
  assert (Hdiff : String.length (String.concat ", " (JSObject.keys (vertices (this s))))
                  = String.length (String.concat "," (JSObject.keys (vertices (this s))))
                    + (List.length (JSObject.keys (vertices (this s))) - 1)).
  { rewrite !concat_length. simpl. lia. }
  split; [intros Hkeyed; now rewrite (keyed_keys s Hkeyed)|].
  split; [exact Hdiff|]. split.
  - intros Heq. rewrite <- Heq in Hdiff. lia.
  - intros Hle. destruct (JSObject.keys (vertices (this s))) as [|x [|y l]]; simpl in *;
      try reflexivity. lia.
Qed.
End ToString.

Section IndicesObject.
Variable h : Store.

Lemma ordered_before (l1 l2 : list string) (k k' : string) :
  JSObject.ordered (l1 ++ k :: l2) -> In k' l1 -> JSObject.precedes k k' = false.
Proof.
  induction l1 as [|k1 l1 IH]; simpl; [tauto|].
  intros [Hall Hord] [->|Hin]; [|now apply IH].
  rewrite Forall_forall in Hall. apply Hall. apply in_or_app. right. now left.
Qed.

Lemma indices_fold_fresh (acc : JSObject.t nat) (start : nat) (vs : list vref) :
  NoDup (map (vertexKey h) vs) ->
  (forall v, In v vs -> JSObject.own acc (vertexKey h v) = None) ->
  (forall v, In v vs -> vertexKey h v <> "__proto__"%string) ->
  JSObject.ordered (JSObject.keys acc ++ map (vertexKey h) vs) ->
  JSObject.props
    (fold_left (fun (acc : JSObject.t nat) '(index, vertex) =>
                  JSObject.assignNumber acc (vertexKey h vertex) index)
               (combine (seq start (List.length vs)) vs) acc)
  = JSObject.props acc ++ combine (map (vertexKey h) vs) (seq start (List.length vs)).
Proof.
  revert acc start. induction vs as [|v vs IH]; intros acc start Hnd Hfresh Hproto Hord; simpl.
  - now rewrite app_nil_r.
  - inversion Hnd as [|? ? Hnotin Hnd']; subst.
    assert (Hstep : JSObject.props (JSObject.assignNumber acc (vertexKey h v) start)
                    = JSObject.props acc ++ [(vertexKey h v, start)]).
    { apply JSObjectFacts.assignNumber_append.
      - apply Hfresh. now left.
      - apply Hproto. now left.
      - intros k' Hk'. simpl in Hord. eapply ordered_before; eauto. }
    rewrite IH; auto.
    + rewrite Hstep. now rewrite <- app_assoc.
    + intros v' Hv'. rewrite JSObjectFacts.own_assignNumber_other.
      * apply Hfresh. now right.
      * intros Heq. apply Hnotin. rewrite <- Heq. now apply in_map.
    + intros v' Hv'. apply Hproto. now right.
    + unfold JSObject.keys. rewrite Hstep, map_app, <- app_assoc. exact Hord.
Qed.

Lemma indicesOf_keyed (vs : list vref) :
  NoDup (map (vertexKey h) vs) ->
  (forall v, In v vs -> vertexKey h v <> "__proto__"%string) ->
  JSObject.ordered (map (vertexKey h) vs) ->
  JSObject.props (indicesOf h vs) = combine (map (vertexKey h) vs) (seq 0 (List.length vs)).
Proof.
  intros Hnd Hproto Hord. unfold indicesOf, indexed.
  now rewrite (indices_fold_fresh JSObject.empty 0 vs Hnd).
Qed.
End IndicesObject.

(** X3.  In a graph whose vertex registry
    holds every vertex under its own key, [getVerticesIndices] returns the
    same object in both variants: its keys are the keys of the vertex
    registry in the same order, its values are [0, 1, ..., n-1], the vertex
    at position [p] of [getAllVertices] has index [p], and every index in
    the object is below [n] and is the position of the vertex registered
    under that key. *)
Theorem getVerticesIndices_positions (s : State) :
  registryKeyed s ->
  let vs := JSObject.values (vertices (this s)) in
  exists indices,
    A.getVerticesIndices s = (Return indices, s) /\
    B.getVerticesIndices s = (Return indices, s) /\
    JSObject.keys indices = JSObject.keys (vertices (this s)) /\
    JSObject.values indices = seq 0 (List.length vs) /\
    (forall p v, nth_error vs p = Some v ->
       JSObject.get JSObject.noMembers indices (vertexKey (heap s) v) = Ref p) /\
    (forall k p, JSObject.get JSObject.noMembers indices k = Ref p ->
       nth_error vs p = JSObject.own (vertices (this s)) k /\ p < List.length vs).
Proof.
  intros Hreg vs. subst vs. pose proof Hreg as [Hwf Hkeyed].
  pose proof (keyed_values_NoDup s Hwf Hkeyed) as Hnd.
  assert (Hproto : forall v, In v (JSObject.values (vertices (this s))) ->
                     vertexKey (heap s) v <> "__proto__"%string).
  { intros v Hv. now apply (keyed_not_proto s v Hreg). }
  assert (Hord : JSObject.ordered
                   (map (vertexKey (heap s)) (JSObject.values (vertices (this s))))).
  { rewrite <- (keyed_keys s Hkeyed). apply Hwf. }
  exists (indicesOf (heap s) (JSObject.values (vertices (this s)))).
  split; [reflexivity|]. split; [reflexivity|].
  split; [|split; [|split]].
  - unfold JSObject.keys at 1. rewrite (indicesOf_keyed _ _ Hnd Hproto Hord), (keyed_keys s Hkeyed).
    rewrite <- (length_map (vertexKey (heap s)) (JSObject.values (vertices (this s)))) at 1.
    assert (G : forall (A B : Type) (l : list A) (l' : list B),
              List.length l = List.length l' -> map fst (combine l l') = l).
    { induction l; destruct l'; simpl; intros; try discriminate; f_equal; auto. }
    apply G. now rewrite length_seq.
  - unfold JSObject.values at 1. rewrite (indicesOf_keyed _ _ Hnd Hproto Hord).
    assert (G : forall (A B : Type) (l : list A) (l' : list B),
              List.length l = List.length l' -> map snd (combine l l') = l').
    { induction l; destruct l'; simpl; intros; try discriminate; f_equal; auto. }
    apply G. now rewrite length_map, length_seq.
  - intros p v Hp. apply indices_position; auto. apply Hproto. eapply nth_error_In; eauto.
  - intros k p Hp. pose proof (indices_lt _ _ _ _ Hp) as Hlt.
    apply indices_bound in Hp. destruct Hp as (v & Hv & <-). split; [|exact Hlt].
    rewrite Hv. symmetry.
    assert (Hin : In v (JSObject.values (vertices (this s)))) by (eapply nth_error_In; eauto).
    unfold JSObject.values in Hin. apply in_map_iff in Hin.
    destruct Hin as ([k v'] & <- & Hin). simpl.
    rewrite (Hkeyed _ _ Hin). now apply JSObjectFacts.In_own.
Qed.

(* ================================================================= *)
(** ** When getAdjacencyMatrix returns *)

Section MatrixShape.
Context `{VL : VertexLookup} `{MB : Members}.
Variable s : State.

Local Abbreviation h := (heap s).
Local Abbreviation vs := (JSObject.values (vertices (this s))).
Local Abbreviation size := (List.length (JSObject.values (vertices (this s)))).

(** X5.  [getAdjacencyMatrix] leaves the state
    as it is, and returns an [n] by [n] matrix for [n] registered vertices
    or throws a [TypeError], in both variants.  Variant B returns exactly
    when no registered vertex that reports a neighbour has the key
    ["__proto__"], for which the index object takes no index; so it returns
    in every graph whose vertices are registered under their own keys.
    Variant A returns exactly when [findEdge] finds an edge for every
    registered vertex and every neighbour that vertex reports. *)
Theorem getAdjacencyMatrix_returns :
  ((exists m, B.getAdjacencyMatrix s = (Return m, s) /\ square size m) \/
   B.getAdjacencyMatrix s = (Throw TypeError, s)) /\
  ((exists m, B.getAdjacencyMatrix s = (Return m, s)) <->
   (forall v, In v vs -> getNeighbors h v <> [] -> vertexKey h v <> "__proto__"%string)) /\
  (registryKeyed s -> exists m, B.getAdjacencyMatrix s = (Return m, s) /\ square size m) /\
  ((exists m, A.getAdjacencyMatrix s = (Return m, s) /\ square size m) \/
   A.getAdjacencyMatrix s = (Throw TypeError, s)) /\
  ((exists m, A.getAdjacencyMatrix s = (Return m, s)) <->
   (forall v n, In v vs -> In n (getNeighbors h v) -> lookupA s v n <> None)).
Proof.
  rewrite A_matrix_unfold, B_matrix_unfold. split; [|split; [|split; [|split]]].
  - destruct (fillB s) as [m|x] eqn:E.
    + left. exists m. split; [reflexivity | now apply B_matrix_square].
    + right. now rewrite (B_matrix_throws s x E).
  - split.
    + intros [m Hm] v Hv Hn Hk.
      destruct (getNeighbors h v) as [|n ns] eqn:En; [now apply Hn|].
      rewrite (B_matrix_fails s v n Hv) in Hm; [discriminate | | exact Hk].
      rewrite En. now left.
    + intros Hkeys. destruct (B_matrix_returns s Hkeys) as (m & -> & _). eauto.
  - intros Hreg. destruct (B_matrix_returns s) as (m & -> & Hsq); [|eauto].
    intros v Hv _. now apply keyed_not_proto.
  - destruct (fillA s) as [m|x] eqn:E.
    + left. exists m. split; [reflexivity | now apply A_matrix_square].
    + right. now rewrite (A_matrix_throws s x E).
  - split.
    + intros [m Hm] v n Hv Hn Hnone.
      rewrite (A_matrix_fails s v n Hv Hn Hnone) in Hm. discriminate.
    + intros Hfound. destruct (A_matrix_returns s Hfound) as (m & -> & _). eauto.
Qed.

(** X6.  When no registered vertex
    reports a neighbour, both variants return the matrix that holds
    [Infinity] in every cell. *)
Theorem getAdjacencyMatrix_without_neighbours :
  (forall v, In v vs -> getNeighbors h v = []) ->
  A.getAdjacencyMatrix s = (Return (blank size), s) /\
  B.getAdjacencyMatrix s = (Return (blank size), s) /\
  (forall i j, i < size -> j < size -> cell (blank size) i j = Some Infinity).
Proof.
  intros Hnone. rewrite A_matrix_unfold, B_matrix_unfold. split; [|split].
  - f_equal. unfold fillA. cbv zeta. apply forEachLocal_unchanged.
    intros [p v] m Hp. apply In_indexed in Hp.
    rewrite (Hnone v) by (eapply nth_error_In; eauto). reflexivity.
  - f_equal. unfold fillB. cbv zeta. apply forEachLocal_unchanged.
    intros v m Hv. now rewrite (Hnone v Hv).
  - intros i j. apply blank_cell.
Qed.
End MatrixShape.

(* ================================================================= *)
(** ** Reachable graphs *)

Section OnReachable.
Context `{EK : EdgeKey} `{MB : Members}.

(** X12.  In every state that a graph of either
    variant reaches from the empty graph by [addVertex], [addEdge],
    [deleteEdge] and [reverse], returning or throwing, each registry is a
    well-formed object (no key twice, keys in enumeration order, no own
    property ["__proto__"]), every vertex is registered under its own key,
    and every edge is registered under the key it has now. *)
Theorem reachable_registries_keyed (s : State) :
  reachable performA s \/ reachable performB s ->
  registryKeyed s /\ edgeRegistryKeyed s.
Proof.
  destruct reachable_keyed as [HA HB]. destruct reachable_edgeKeyed as [HA' HB'].
  intros [H|H]; split; auto.
Qed.
End OnReachable.

Lemma oneEdgeA_reachable : reachable (performA (EK:=joinedKey)) Witnesses.oneEdgeA.
Proof. apply (reachable_call (performA (EK:=joinedKey)) _ (AddEdge 0)). apply reachable_new. Qed.

Lemma oneEdgeB_reachable : reachable (performB (EK:=joinedKey)) Witnesses.oneEdgeB.
Proof. apply (reachable_call (performB (EK:=joinedKey)) _ (AddEdge 0)). apply reachable_new. Qed.

Lemma undirectedA_reachable : reachable (performA (EK:=joinedKey)) Witnesses.undirectedA.
Proof. apply (reachable_call (performA (EK:=joinedKey)) _ (AddEdge 0)). apply reachable_new. Qed.

Lemma undirectedB_reachable : reachable (performB (EK:=joinedKey)) Witnesses.undirectedB.
Proof. apply (reachable_call (performB (EK:=joinedKey)) _ (AddEdge 0)). apply reachable_new. Qed.

Lemma twoEdgesA_reachable : reachable (performA (EK:=joinedKey)) Witnesses.twoEdgesA.
Proof.
  apply (reachable_call (performA (EK:=joinedKey)) _ (AddEdge 1)). apply oneEdgeA_reachable.
Qed.

Lemma twoEdgesB_reachable : reachable (performB (EK:=joinedKey)) Witnesses.twoEdgesB.
Proof.
  apply (reachable_call (performB (EK:=joinedKey)) _ (AddEdge 1)). apply oneEdgeB_reachable.
Qed.

Local Open Scope string_scope.

Lemma getVerticesIndices_positions_witness :
  exists indices,
    A.getVerticesIndices Witnesses.oneEdgeA = (Return indices, Witnesses.oneEdgeA) /\
    JSObject.get JSObject.noMembers indices "B" = Ref 1.
Proof.
  destruct (getVerticesIndices_positions Witnesses.oneEdgeA
              (proj1 (reachable_keyed (EK:=joinedKey)) _ oneEdgeA_reachable))
    as (indices & HA & _ & _ & _ & Hpos & _).
  exists indices. split; [exact HA|]. exact (Hpos 1 1 eq_refl).
Defined.

Lemma toString_variants_witness :
  exists a b,
    A.toString Witnesses.oneEdgeA = (Return a, Witnesses.oneEdgeA) /\
    B.toString Witnesses.oneEdgeA = (Return b, Witnesses.oneEdgeA) /\
    a = "A,B" /\ b = "A, B".
Proof.
  destruct (toString_variants Witnesses.oneEdgeA) as (a & b & HA & HB & Hkeyed & _).
  exists a, b. split; [exact HA|]. split; [exact HB|].
  exact (Hkeyed (proj2 (proj1 (reachable_keyed (EK:=joinedKey)) _ oneEdgeA_reachable))).
Defined.

Lemma getAdjacencyMatrix_returns_witness :
  let s := Witnesses.oneEdgeA in
  (exists m, B.getAdjacencyMatrix (VL:=incidentLookup) s = (Return m, s) /\ square 2 m) /\
  (exists m, A.getAdjacencyMatrix (VL:=incidentLookup) s = (Return m, s)).
Proof.
  destruct (getAdjacencyMatrix_returns (VL:=incidentLookup) Witnesses.oneEdgeA)
    as (_ & _ & HB & _ & HA).
  split.
  - apply HB. exact (proj1 (reachable_keyed (EK:=joinedKey)) _ oneEdgeA_reachable).
  - apply HA.
    intros v n Hv Hn. vm_compute in Hv. destruct Hv as [<-|[<-|[]]]; vm_compute in Hn.
    + destruct Hn as [<-|[]]. vm_compute. discriminate.
    + destruct Hn.
Defined.

Lemma getAdjacencyMatrix_without_neighbours_witness :
  let s := after (A.addVertex 0) (Scenario.start true) in
  A.getAdjacencyMatrix (VL:=incidentLookup) s = (Return [[Infinity]], s) /\
  B.getAdjacencyMatrix (VL:=incidentLookup) s = (Return [[Infinity]], s).
Proof.
  destruct (getAdjacencyMatrix_without_neighbours (VL:=incidentLookup)
              (after (A.addVertex 0) (Scenario.start true))) as (HA & HB & _).
  - intros v Hv. reflexivity.
  - split; [exact HA | exact HB].
Defined.

Lemma reachable_registries_keyed_witness :
  (registryKeyed Witnesses.oneEdgeA /\ edgeRegistryKeyed (EK:=joinedKey) Witnesses.oneEdgeA) /\
  (registryKeyed Witnesses.undirectedB /\ edgeRegistryKeyed (EK:=joinedKey) Witnesses.undirectedB).
Proof.
  split.
  - apply (reachable_registries_keyed (EK:=joinedKey) Witnesses.oneEdgeA).
    left. apply (reachable_call (performA (EK:=joinedKey)) _ (AddEdge 0)). apply reachable_new.
  - apply (reachable_registries_keyed (EK:=joinedKey) Witnesses.undirectedB).
    right. apply (reachable_call (performB (EK:=joinedKey)) _ (AddEdge 0)). apply reachable_new.
Defined.

Local Close Scope string_scope.

(* ================================================================= *)
(** ** Keys that read as nothing *)

Section EdgesPrototype.
Context `{EK : EdgeKey} `{MB : Members}.

(** The class never replaces the prototype of the edge registry: it
    assigns a key only after a read of that key gave nothing. *)
Lemma A_addEdge_edges_proto (e : eref) (s : State) :
  JSObject.proto (edges (this (after (A.addEdge e) s))) = JSObject.proto (edges (this s)).
Proof.
  destruct (truthy (edgeAt s (GraphEdge.key (heap s) e))) eqn:Hreg.
  - unfold after. now rewrite (A_addEdge_duplicate _ _ Hreg).
  - apply JSObjectFacts.falsy_Nothing in Hreg. pose proof Hreg as Hfresh.
    apply JSObjectFacts.get_Nothing in Hfresh.
    assert (Hp : JSObject.proto (JSObject.assign (edges (this s)) (GraphEdge.key (heap s) e) e)
                 = JSObject.proto (edges (this s))).
    { apply JSObjectFacts.proto_assign. left. tauto. }
    revert Hreg Hp. unfold_A. run_js.
    destruct s as [[vs es d] h]; simpl. unfold GraphEdge.key.
    intros Hreg Hp.
    destruct (JSObject.get (vertexMember h) vs (vertexKey h (startVertex h e))) as [a| |];
      destruct (JSObject.get (vertexMember h) vs (vertexKey h (endVertex h e))) as [b| |];
      simpl; rewrite ?JSObjectFacts.get_assign_same; simpl; rewrite Hreg; simpl;
      destruct d; simpl; exact Hp.
Qed.

Lemma B_addEdge_edges_proto (e : eref) (s : State) :
  JSObject.proto (edges (this (after (B.addEdge e) s))) = JSObject.proto (edges (this s)).
Proof.
  destruct (truthy (edgeAt s (GraphEdge.key (heap s) e))) eqn:Hreg.
  - unfold after. now rewrite (B_addEdge_duplicate_atomic _ _ Hreg).
  - apply JSObjectFacts.falsy_Nothing in Hreg.
    unfold after. rewrite (B_addEdge_fresh _ _ Hreg). simpl.
    apply JSObjectFacts.get_Nothing in Hreg.
    apply JSObjectFacts.proto_assign. left. tauto.
Qed.

Lemma A_deleteEdge_edges_proto (e : eref) (s : State) :
  JSObject.proto (edges (this (after (A.deleteEdge e) s))) = JSObject.proto (edges (this s)).
Proof.
  unfold_A. run_js.
  destruct (truthy (JSObject.get _ (edges (this s)) _)); simpl; [|reflexivity].
  destruct (JSObject.get _ (vertices (this s)) (vertexKey (heap s) (startVertex (heap s) e)));
    simpl; try reflexivity.
  destruct (JSObject.get _ (vertices (this s)) (vertexKey (heap s) (endVertex (heap s) e)));
    simpl; reflexivity.
Qed.

Lemma B_deleteEdge_edges_proto (e : eref) (s : State) :
  JSObject.proto (edges (this (after (B.deleteEdge e) s))) = JSObject.proto (edges (this s)).
Proof.
  unfold_B. run_js.
  destruct (truthy (JSObject.get _ (edges (this s)) _)); simpl; reflexivity.
Qed.

Lemma reverse_body_edges_proto (deleteEdge addEdge : eref -> M completion) (e : eref) :
  preserves edgesPristine (deleteEdge e) ->
  preserves edgesPristine (addEdge e) ->
  preserves edgesPristine (deleteEdge e ;; GraphEdge.reverse e ;; addEdge e).
Proof.
  intros Hdel Hadd.
  apply preserves_bind; [exact Hdel | intros _].
  apply preserves_bind; [|intros _; exact Hadd].
  unfold GraphEdge.reverse. apply preserves_modify. intros t Ht. exact Ht.
Qed.

Lemma performA_edges_proto (c : call) : preserves edgesPristine (performA c).
Proof.
  assert (Hadd : forall e, preserves edgesPristine (A.addEdge e)).
  { intros e s H. unfold edgesPristine, JSObject.pristine in *.
    now rewrite A_addEdge_edges_proto. }
  assert (Hdel : forall e, preserves edgesPristine (A.deleteEdge e)).
  { intros e s H. unfold edgesPristine, JSObject.pristine in *.
    now rewrite A_deleteEdge_edges_proto. }
  destruct c as [v|e|e|]; simpl; auto.
  - intros s H. rewrite addVertex_after. exact H.
  - unfold A.reverse. apply preserves_bind; [apply preserves_reads|].
    intros es. apply preserves_bind; [|intros _; apply preserves_ret].
    apply preserves_forEach. intros e. now apply reverse_body_edges_proto.
Qed.

Lemma performB_edges_proto (c : call) : preserves edgesPristine (performB c).
Proof.
  assert (Hadd : forall e, preserves edgesPristine (B.addEdge e)).
  { intros e s H. unfold edgesPristine, JSObject.pristine in *.
    now rewrite B_addEdge_edges_proto. }
  assert (Hdel : forall e, preserves edgesPristine (B.deleteEdge e)).
  { intros e s H. unfold edgesPristine, JSObject.pristine in *.
    now rewrite B_deleteEdge_edges_proto. }
  destruct c as [v|e|e|]; simpl; auto.
  - intros s H. rewrite B_addVertex_after, addVertex_after. exact H.
  - unfold B.reverse. apply preserves_bind; [apply preserves_reads|].
    intros es. apply preserves_bind; [|intros _; apply preserves_ret].
    apply preserves_forEach. intros e. now apply reverse_body_edges_proto.
Qed.

(** In every state a graph can reach, the edge registry has
    [Object.prototype] as its prototype. *)
Lemma reachable_edges_pristine :
  (forall s, reachable performA s -> JSObject.pristine (edges (this s))) /\
  (forall s, reachable performB s -> JSObject.pristine (edges (this s))).
Proof.
  split.
  - apply (reachable_ind_preserved edgesPristine); [reflexivity | apply performA_edges_proto].
  - apply (reachable_ind_preserved edgesPristine); [reflexivity | apply performB_edges_proto].
Qed.

(** X17.  [deleteEdge] of an edge whose key
    reads as nothing in the edge registry throws the edge-not-found error
    and leaves the state as it was, in both variants; and only then does
    either variant throw that error.  In a graph built through the public
    operations a key reads as nothing exactly when it is not in the edge
    registry and is not a name of [Object.prototype]. *)
Theorem deleteEdge_unregistered_fails (s : State) (e : eref) :
  (edgeAt s (GraphEdge.key (heap s) e) = Nothing ->
     A.deleteEdge e s = (Throw EdgeNotFoundError, s) /\
     B.deleteEdge e s = (Throw EdgeNotFoundError, s)) /\
  (outcome (A.deleteEdge e) s = Throw EdgeNotFoundError \/
   outcome (B.deleteEdge e) s = Throw EdgeNotFoundError ->
     edgeAt s (GraphEdge.key (heap s) e) = Nothing) /\
  (reachable performA s \/ reachable performB s ->
     (edgeAt s (GraphEdge.key (heap s) e) = Nothing <->
      JSObject.own (edges (this s)) (GraphEdge.key (heap s) e) = None /\
      JSObject.inheritedName (GraphEdge.key (heap s) e) = false)).
Proof.
  split; [|split].
  - intros Habsent. split; [now apply A_deleteEdge_absent | now apply B_deleteEdge_absent].
  - intros H. apply JSObjectFacts.falsy_Nothing.
    destruct (truthy (edgeAt s (GraphEdge.key (heap s) e))) eqn:Hreg; [|reflexivity].
    exfalso. destruct H as [H|H].
    + revert H. unfold_A. run_js. rewrite Hreg. simpl.
      destruct (JSObject.get _ (vertices (this s)) (vertexKey (heap s) (startVertex (heap s) e)));
        simpl; try discriminate.
      destruct (JSObject.get _ (vertices (this s)) (vertexKey (heap s) (endVertex (heap s) e)));
        simpl; discriminate.
    + unfold outcome in H. rewrite (B_deleteEdge_present _ _ Hreg) in H. discriminate.
  - intros Hreach.
    assert (Hp : JSObject.pristine (edges (this s))).
    { destruct reachable_edges_pristine as [HA HB]. destruct Hreach; auto. }
    unfold edgeAt. rewrite (JSObjectFacts.get_pristine _ _ _ Hp).
    destruct (JSObject.own (edges (this s)) (GraphEdge.key (heap s) e)).
    + split; [discriminate | intros [H _]; discriminate].
    + destruct (JSObject.inheritedName (GraphEdge.key (heap s) e)).
      * split; [discriminate | intros [_ H]; discriminate].
      * split; [auto | reflexivity].
Qed.
End EdgesPrototype.

Lemma deleteEdge_unregistered_fails_witness :
  let s := Witnesses.oneEdgeA in
  A.deleteEdge (EK:=joinedKey) 1 s = (Throw EdgeNotFoundError, s) /\
  B.deleteEdge (EK:=joinedKey) 1 s = (Throw EdgeNotFoundError, s).
Proof.
  intros s.
  destruct (deleteEdge_unregistered_fails (EK:=joinedKey) s 1) as (Hthrows & _ & Hiff).
  apply Hthrows. apply Hiff.
  - left. exact oneEdgeA_reachable.
  - split; reflexivity.
Defined.

(* ================================================================= *)
(** ** Edges and their endpoints, over plain vertex keys *)

Section PlainEndpoints.
Context `{EK : EdgeKey} `{MB : Members}.

(** X18.  Over vertex objects none of whose
    keys is a name of [Object.prototype]: in every state that a graph of
    either variant reaches from the empty graph by [addVertex], [addEdge],
    [deleteEdge] and [reverse], returning or throwing, every registered
    edge has the keys of both its endpoints in the vertex registry; and in
    every state whose vertex registry still has [Object.prototype] as its
    prototype, [addEdge] of an edge whose key reads as nothing returns,
    with the edge registered under its key and both endpoint keys
    registered. *)
Theorem registered_edges_have_vertices :
  (forall s, reachable performA s \/ reachable performB s ->
     plainVertexKeys (heap s) ->
     edgesHaveVertices s /\ keysHaveVertices s) /\
  (forall s e,
     plainVertices s -> edgeAt s (GraphEdge.key (heap s) e) = Nothing ->
     let k := GraphEdge.key (heap s) e in
     let ka := vertexKey (heap s) (startVertex (heap s) e) in
     let kb := vertexKey (heap s) (endVertex (heap s) e) in
     (outcome (A.addEdge e) s = Return This /\
      JSObject.own (edges (this (after (A.addEdge e) s))) k = Some e /\
      JSObject.own (vertices (this (after (A.addEdge e) s))) ka <> None /\
      JSObject.own (vertices (this (after (A.addEdge e) s))) kb <> None) /\
     (outcome (B.addEdge e) s = Return Undefined /\
      JSObject.own (edges (this (after (B.addEdge e) s))) k = Some e /\
      JSObject.own (vertices (this (after (B.addEdge e) s))) ka <> None /\
      JSObject.own (vertices (this (after (B.addEdge e) s))) kb <> None)).
Proof.
  split.
  - intros s Hreach Hplain. destruct reachable_settled as [HA HB].
    destruct Hreach as [H|H]; [destruct (HA s H Hplain) as (_ & H1 & H2)
                              | destruct (HB s H Hplain) as (_ & H1 & H2)]; auto.
  - intros s e [Hplain Hpr] Hfresh k ka kb. subst k ka kb.
    assert (Hown : JSObject.own (JSObject.assign (edges (this s)) (GraphEdge.key (heap s) e) e)
                     (GraphEdge.key (heap s) e) = Some e).
    { apply JSObjectFacts.own_assign_same. left.
      apply JSObjectFacts.get_Nothing in Hfresh. tauto. }
    split.
    + unfold outcome, after.
      rewrite (A_addEdge_fresh s e Hfresh (lookup_plain_not_Foreign _ _ Hplain Hpr _)
                 (lookup_plain_not_Foreign _ _ Hplain Hpr _)).
      simpl. split; [reflexivity|]. split; [exact Hown|].
      now apply ensuredBoth_has.
    + unfold outcome, after. rewrite (B_addEdge_fresh s e Hfresh).
      simpl. split; [reflexivity|]. split; [exact Hown|]. split.
      * apply ensured_mono. now apply ensured_has.
      * apply ensured_has; [exact Hplain | now apply ensured_pristine].
Qed.
End PlainEndpoints.

Lemma scenario_plain : plainVertexKeys Scenario.heap0.
Proof. intros [|[|v]]; reflexivity. Qed.

Lemma registered_edges_have_vertices_witness :
  (edgesHaveVertices Witnesses.twoEdgesA /\ edgesHaveVertices Witnesses.twoEdgesB) /\
  outcome (A.addEdge (EK:=joinedKey) 0) (Scenario.start true) = Return This /\
  outcome (B.addEdge (EK:=joinedKey) 0) (Scenario.start true) = Return Undefined /\
  JSObject.own (vertices (this Witnesses.oneEdgeA)) "A"%string <> None /\
  JSObject.own (vertices (this Witnesses.oneEdgeB)) "B"%string <> None.
Proof.
  destruct (registered_edges_have_vertices (EK:=joinedKey)) as [Hinv Hadd].
  split.
  - split.
    + apply (Hinv Witnesses.twoEdgesA); [left; exact twoEdgesA_reachable|].
      intros [|[|v]]; reflexivity.
    + apply (Hinv Witnesses.twoEdgesB); [right; exact twoEdgesB_reachable|].
      intros [|[|v]]; reflexivity.
  - destruct (Hadd (Scenario.start true) 0) as [(HA & _ & HAa & _) (HB & _ & _ & HBb)].
    + split; [exact scenario_plain | reflexivity].
    + reflexivity.
    + split; [exact HA|]. split; [exact HB|]. split; [exact HAa | exact HBb].
Defined.

(* ================================================================= *)
(** ** The vertex registry *)

Section VertexRegistry.
Context `{EK : EdgeKey} `{VL : VertexLookup} `{MB : Members}.

(** X1.  [addVertex(v)] always returns, the
    graph itself in variant A and nothing in variant B, and leads both
    variants to the same state: the edge registry, the flag and the heap
    are untouched, and [getVertexByKey] of the key of [v] then gives [v].
    Unless the key is ["__proto__"] and not an own property, in which case
    [v] becomes the prototype of the registry and the own properties stay
    as they were, every other key answers as before.  A key that is new,
    and is neither ["__proto__"] nor an array index, is added at the end of
    the enumeration, so [getAllVertices] gives the former vertices followed
    by [v]; a key that was registered keeps its place. *)
Theorem addVertex_then_getVertexByKey (s : State) (v : vref) :
  let k := vertexKey (heap s) v in
  let s' := after (A.addVertex v) s in
  A.addVertex v s = (Return This, s') /\
  B.addVertex v s = (Return Undefined, s') /\
  outcome (A.getVertexByKey k) s' = Return (Ref v) /\
  outcome (B.getVertexByKey k) s' = Return (Ref v) /\
  edges (this s') = edges (this s) /\ isDirected (this s') = isDirected (this s) /\
  heap s' = heap s /\
  (k <> "__proto__"%string \/ JSObject.own (vertices (this s)) k <> None ->
     JSObject.proto (vertices (this s')) = JSObject.proto (vertices (this s)) /\
     forall k', k' <> k ->
       outcome (A.getVertexByKey k') s' = outcome (A.getVertexByKey k') s) /\
  (k = "__proto__"%string -> JSObject.own (vertices (this s)) k = None ->
     JSObject.proto (vertices (this s')) = Some v /\
     JSObject.props (vertices (this s')) = JSObject.props (vertices (this s))) /\
  (JSObject.own (vertices (this s)) k = None -> k <> "__proto__"%string ->
   JSObject.arrayIndex k = None ->
     outcome A.getAllVertices s' = Return (JSObject.values (vertices (this s)) ++ [v])) /\
  (JSObject.own (vertices (this s)) k <> None ->
     JSObject.keys (vertices (this s')) = JSObject.keys (vertices (this s))).
Proof.
  intros k s'. subst k s'. rewrite addVertex_after.
  split; [reflexivity|]. split; [reflexivity|].
  split; [unfold outcome; simpl; now rewrite JSObjectFacts.get_assign_same|].
  split; [unfold outcome; simpl; now rewrite JSObjectFacts.get_assign_same|].
  split; [reflexivity|]. split; [reflexivity|]. split; [reflexivity|].
  split; [|split; [|split]].
  - intros Hk. split; [now apply JSObjectFacts.proto_assign|].
    intros k' Hne. unfold outcome. simpl. now rewrite JSObjectFacts.get_assign_other.
  - intros Hk Hnone. simpl. unfold JSObject.assign. rewrite Hnone, Hk. simpl. auto.
  - intros Hnone Hk Hidx. unfold outcome. simpl.
    unfold JSObject.values. rewrite (JSObjectFacts.assign_append _ _ _ Hnone Hk Hidx).
    now rewrite map_app.
  - intros Hsome. simpl. now apply JSObjectFacts.keys_assign_present.
Qed.

Lemma ensured_own_keeps (h : Store) (vs : JSObject.t vref) (a : vref) (k : string) (r : vref) :
  JSObject.own vs k = Some r -> JSObject.own (ensured h vs a) k = Some r.
Proof.
  intros Hr. destruct (ensured_cases h vs a) as [->|[Hget ->]]; [exact Hr|].
  apply JSObjectFacts.get_Nothing in Hget.
  rewrite JSObjectFacts.own_assign_other; [exact Hr|]. intros ->. destruct Hget. congruence.
Qed.

Lemma ensured_truthy (h : Store) (vs : JSObject.t vref) (a : vref) :
  truthy (JSObject.get (vertexMember h) (ensured h vs a) (vertexKey h a)) = true.
Proof.
  rewrite ensured_get. now destruct (JSObject.get (vertexMember h) vs (vertexKey h a)).
Qed.

Lemma ensured_again (h : Store) (vs : JSObject.t vref) (a : vref) :
  ensured h (ensured h vs a) a = ensured h vs a.
Proof. unfold ensured at 1. now rewrite ensured_truthy. Qed.

Lemma B_ensureVertexExists_after (s : State) (v : vref) :
  B._ensureVertexExists v s
  = (Return Undefined, B.setVertices s (ensured (heap s) (vertices (this s)) v)).
Proof.
  unfold B._ensureVertexExists, ensured. unfold_B. run_js.
  destruct s as [[vs es d] h]; simpl.
  destruct (truthy (JSObject.get (vertexMember h) vs (vertexKey h v))); reflexivity.
Qed.

(** X2.  [_ensureVertexExists(v)]
    (variant B) always returns and never replaces a registered vertex.
    Afterwards the key of [v] reads as what it read as before, or as [v] if
    it read as nothing; when it read as something, an inherited name
    included, the state is unchanged.  Every own property of the registry
    stays, every other key reads as before, calling it again changes
    nothing, and the edge registry and the heap are untouched. *)
Theorem ensureVertexExists_keeps_registered (s : State) (v : vref) :
  let k := vertexKey (heap s) v in
  let s' := after (B._ensureVertexExists v) s in
  B._ensureVertexExists v s = (Return Undefined, s') /\
  vertexAt s' k = match vertexAt s k with
                  | Nothing => Ref v
                  | x => x
                  end /\
  (truthy (vertexAt s k) = true -> s' = s) /\
  (forall k' r, JSObject.own (vertices (this s)) k' = Some r ->
     JSObject.own (vertices (this s')) k' = Some r) /\
  (forall k', k' <> k -> vertexAt s' k' = vertexAt s k') /\
  B._ensureVertexExists v s' = (Return Undefined, s') /\
  edges (this s') = edges (this s) /\ heap s' = heap s.
Proof.
  intros k s'. subst k s'. unfold after. rewrite B_ensureVertexExists_after. simpl.
  split; [reflexivity|].
  split; [unfold vertexAt; simpl; apply ensured_get|].
  split.
  { unfold vertexAt, ensured. intros ->. now destruct s as [[vs es d] h]. }
  split; [intros k' r; simpl; apply ensured_own_keeps|].
  split; [intros k' Hne; unfold vertexAt; simpl; apply ensured_get_other; congruence|].
  split; [|split; reflexivity].
  rewrite B_ensureVertexExists_after. simpl. now rewrite ensured_again.
Qed.
End VertexRegistry.

Lemma addVertex_then_getVertexByKey_witness :
  let s := Scenario.start true in
  outcome (A.getVertexByKey "A"%string) (after (A.addVertex 0) s) = Return (Ref 0) /\
  outcome A.getAllVertices (after (A.addVertex 0) s) = Return [0] /\
  JSObject.keys (vertices (this (after (A.addVertex 0) Witnesses.oneEdgeA)))
  = JSObject.keys (vertices (this Witnesses.oneEdgeA)).
Proof.
  intros s.
  destruct (addVertex_then_getVertexByKey s 0) as (_ & _ & Hget & _ & _ & _ & _ & _ & _ & Hall & _).
  destruct (addVertex_then_getVertexByKey Witnesses.oneEdgeA 0)
    as (_ & _ & _ & _ & _ & _ & _ & _ & _ & _ & Hkeys).
  split; [exact Hget|]. split.
  - apply Hall; [reflexivity | discriminate | reflexivity].
  - apply Hkeys. discriminate.
Defined.

Lemma ensureVertexExists_keeps_registered_witness :
  let s := Witnesses.oneEdgeB in
  vertexAt (after (B._ensureVertexExists 2) s) "C"%string = Ref 2 /\
  after (B._ensureVertexExists 0) s = s /\
  after (B._ensureVertexExists 0) (Inherited.start true) = Inherited.start true.
Proof.
  intros s.
  destruct (ensureVertexExists_keeps_registered s 2) as (_ & Hget & _).
  destruct (ensureVertexExists_keeps_registered s 0) as (_ & _ & Hsame & _).
  destruct (ensureVertexExists_keeps_registered (Inherited.start true) 0) as (_ & _ & Hinh & _).
  split; [exact Hget|]. split; [apply Hsame; reflexivity | apply Hinh; reflexivity].
Defined.

(* ================================================================= *)
(** ** addEdge, then findEdge or deleteEdge *)

Section Resolution.
Context `{MB : Members}.
Variable h : Store.
Implicit Types (vs : JSObject.t vref) (a b : vref).

Lemma ensured_resolved vs a :
  JSObject.get (vertexMember h) vs (vertexKey h a) <> Foreign ->
  JSObject.get (vertexMember h) (ensured h vs a) (vertexKey h a) = Ref (resolved h vs a).
Proof.
  intros Hnf. rewrite ensured_get. unfold resolved.
  destruct (JSObject.get (vertexMember h) vs (vertexKey h a)); congruence.
Qed.

Lemma ensuredBoth_end vs a b :
  JSObject.get (vertexMember h) vs (vertexKey h b) <> Foreign ->
  JSObject.get (vertexMember h) (ensuredBoth h vs a b) (vertexKey h b)
  = Ref (resolved h vs b).
Proof.
  intros Hnf. unfold ensuredBoth, resolved.
  destruct (JSObject.get (vertexMember h) vs (vertexKey h b)) as [r| |] eqn:E; simpl;
    [|congruence|apply JSObjectFacts.get_assign_same].
  destruct (ensured_cases h vs a) as [->|[Hget ->]]; [exact E|].
  rewrite JSObjectFacts.get_assign_other; [exact E | congruence |].
  apply JSObjectFacts.get_Nothing in Hget. left. tauto.
Qed.

Lemma ensuredBoth_start vs a b :
  (vertexKey h a = vertexKey h b -> a = b) ->
  JSObject.get (vertexMember h) vs (vertexKey h a) <> Foreign ->
  JSObject.get (vertexMember h) vs (vertexKey h b) <> Foreign ->
  JSObject.get (vertexMember h) (ensuredBoth h vs a b) (vertexKey h a)
  = Ref (resolved h vs a).
Proof.
  intros Hsame Ha Hb. destruct (string_dec (vertexKey h a) (vertexKey h b)) as [Heq|Hne].
  - rewrite (Hsame Heq). now apply ensuredBoth_end.
  - destruct (ensuredBoth_cases h vs a b) as [->|[Hget ->]]; [now apply ensured_resolved|].
    apply JSObjectFacts.get_Nothing in Hget.
    rewrite JSObjectFacts.get_assign_other; [now apply ensured_resolved | exact Hne |].
    left. tauto.
Qed.

(** When two endpoints with one key are one object, the two variants
    register the same vertices. *)
Lemma ensured_both_ways vs a b :
  (vertexKey h a = vertexKey h b -> a = b) ->
  ensured h (ensured h vs a) b = ensuredBoth h vs a b.
Proof.
  intros Hsame. destruct (string_dec (vertexKey h a) (vertexKey h b)) as [Heq|Hne].
  - rewrite <- (Hsame Heq). rewrite ensured_again. unfold ensuredBoth.
    destruct (truthy (JSObject.get (vertexMember h) vs (vertexKey h a))) eqn:E; [reflexivity|].
    apply JSObjectFacts.falsy_Nothing in E. unfold ensured. rewrite E. simpl.
    symmetry. apply JSObjectFacts.assign_again.
    apply JSObjectFacts.get_Nothing in E.
    apply JSObjectFacts.own_assign_same. left. tauto.
  - unfold ensuredBoth. unfold ensured at 1. now rewrite ensured_get_other.
Qed.
End Resolution.

Section Lists.
Variables (h : Store) (e : eref).

Lemma filter_absent (l : list eref) :
  ~ In e l -> filter (fun e' => negb (Nat.eqb e' e)) l = l.
Proof.
  induction l as [|x l IH]; simpl; [reflexivity|]. intros Hn.
  destruct (Nat.eqb x e) eqn:E; simpl.
  - apply Nat.eqb_eq in E. exfalso. apply Hn. now left.
  - f_equal. apply IH. intros Hin. apply Hn. now right.
Qed.

(** The adjacency lists after the edge has been connected. *)
Lemma connected_edges (d : bool) (a b v : vref) :
  vertexEdges (connected d h a b e) v
  = vertexEdges h v ++ (if Nat.eqb v a then [e] else [])
      ++ (if negb d && Nat.eqb v b then [e] else []).
Proof.
  unfold connected. destruct d; simpl.
  - destruct (Nat.eqb v a) eqn:Ea; [apply Nat.eqb_eq in Ea; subst v|]; now rewrite ?app_nil_r.
  - destruct (Nat.eqb v b) eqn:Eb; [apply Nat.eqb_eq in Eb; subst v|];
      (destruct (Nat.eqb _ a) eqn:Ea; [apply Nat.eqb_eq in Ea; subst|]);
      simpl; rewrite ?Nat.eqb_refl, ?Ea, ?app_nil_r, <- ?app_assoc; reflexivity.
Qed.

Lemma filter_connected (l : list eref) (c1 c2 : bool) :
  ~ In e l ->
  filter (fun e' => negb (Nat.eqb e' e))
    (l ++ (if c1 then [e] else []) ++ (if c2 then [e] else [])) = l.
Proof.
  intros Hl. induction l as [|x l IH]; simpl.
  - destruct c1, c2; simpl; rewrite ?Nat.eqb_refl; reflexivity.
  - destruct (Nat.eqb x e) eqn:E; simpl.
    + apply Nat.eqb_eq in E. exfalso. apply Hl. now left.
    + f_equal. apply IH. intros Hin. apply Hl. now right.
Qed.

(** Dropping the edge from the two vertices it was connected to gives the
    lists back, when no list held the edge before. *)
Lemma dropped_connected (d : bool) (a b v : vref) :
  (forall u, ~ In e (vertexEdges h u)) ->
  vertexEdges (GraphVertex.dropped (GraphVertex.dropped (connected d h a b e) a e) b e) v
  = vertexEdges h v.
Proof.
  intros Hfree.
  unfold GraphVertex.dropped at 1. cbn [vertexEdges GraphVertex.with_edges].
  unfold GraphVertex.dropped at 1 2. cbn [vertexEdges GraphVertex.with_edges].
  rewrite !connected_edges.
  destruct (Nat.eqb v b) eqn:Eb; [apply Nat.eqb_eq in Eb; subst v|].
  - destruct (Nat.eqb b a) eqn:Eba.
    + apply Nat.eqb_eq in Eba. subst b. rewrite ?Nat.eqb_refl.
      transitivity (filter (fun e' => negb (Nat.eqb e' e)) (vertexEdges h a)).
      * f_equal. exact (filter_connected _ true (negb d && true) (Hfree a)).
      * now apply filter_absent.
    + rewrite ?Nat.eqb_refl. exact (filter_connected _ false (negb d && true) (Hfree b)).
  - destruct (Nat.eqb v a) eqn:Ea; [apply Nat.eqb_eq in Ea; subst v|].
    + rewrite ?Nat.eqb_refl. exact (filter_connected _ true (negb d && (a =? b)) (Hfree a)).
    + rewrite andb_false_r. simpl. now rewrite !app_nil_r.
Qed.
End Lists.

Section AfterAddEdge.
Context `{EK : EdgeKey} `{MB : Members}.
Variables (s : State) (e : eref).

Local Abbreviation h := (heap s).
Local Abbreviation a := (startVertex (heap s) e).
Local Abbreviation b := (endVertex (heap s) e).
Local Abbreviation ra := (resolved (heap s) (vertices (this s)) (startVertex (heap s) e)).
Local Abbreviation rb := (resolved (heap s) (vertices (this s)) (endVertex (heap s) e)).
Local Abbreviation d := (isDirected (this s)).

Lemma addedA_fields :
  vertexKey (heap (addedA s e)) = vertexKey h /\
  startVertex (heap (addedA s e)) = startVertex h /\
  endVertex (heap (addedA s e)) = endVertex h /\
  weight (heap (addedA s e)) = weight h.
Proof. apply connected_fields. Qed.

Lemma addedB_fields :
  vertexKey (heap (addedB s e)) = vertexKey h /\
  startVertex (heap (addedB s e)) = startVertex h /\
  endVertex (heap (addedB s e)) = endVertex h /\
  weight (heap (addedB s e)) = weight h.
Proof. apply connected_fields. Qed.

Lemma addedA_key : GraphEdge.key (heap (addedA s e)) e = GraphEdge.key h e.
Proof. unfold GraphEdge.key. now destruct addedA_fields as (-> & -> & -> & _). Qed.

Lemma addedB_key : GraphEdge.key (heap (addedB s e)) e = GraphEdge.key h e.
Proof. unfold GraphEdge.key. now destruct addedB_fields as (-> & -> & -> & _). Qed.

(** In variant A a start vertex whose key reads as a value that is not a
    vertex ends the call in a [TypeError], after the edge has been
    registered. *)
Lemma A_addEdge_foreign_start :
  edgeAt s (GraphEdge.key h e) = Nothing ->
  vertexAt s (vertexKey h a) = Foreign ->
  outcome (A.addEdge e) s = Throw TypeError /\
  edges (this (after (A.addEdge e) s)) = JSObject.assign (edges (this s)) (GraphEdge.key h e) e.
Proof.
  unfold_A. run_js. destruct s as [[vs es dir] h0]; simpl. unfold GraphEdge.key.
  intros Hfresh Hstart. rewrite Hstart. simpl.
  destruct (JSObject.get (vertexMember h0) vs (vertexKey h0 (endVertex h0 e))) as [w| |];
    simpl; rewrite ?JSObjectFacts.get_assign_same; simpl; rewrite Hfresh; simpl;
    destruct dir; simpl; split; reflexivity.
Qed.

(** What the endpoint keys read as after the call, variant A. *)
Lemma addedA_start :
  JSObject.pristine (vertices (this s)) ->
  vertexAt s (vertexKey h a) <> Foreign -> vertexAt s (vertexKey h b) <> Foreign ->
  (vertexKey h a = vertexKey h b -> a = b) ->
  vertexAt (addedA s e) (vertexKey (heap (addedA s e)) (startVertex (heap (addedA s e)) e))
  = Ref ra.
Proof.
  intros Hpr Ha Hb Hsame. unfold vertexAt.
  destruct addedA_fields as (-> & -> & _). cbn [addedA this vertices].
  rewrite (JSObjectFacts.get_pristine_any _ (vertexMember h)).
  - now apply ensuredBoth_start.
  - unfold JSObject.pristine. now rewrite ensuredBoth_proto.
Qed.

Lemma addedA_end :
  JSObject.pristine (vertices (this s)) ->
  vertexAt s (vertexKey h b) <> Foreign ->
  vertexAt (addedA s e) (vertexKey (heap (addedA s e)) (endVertex (heap (addedA s e)) e))
  = Ref rb.
Proof.
  intros Hpr Hb. unfold vertexAt.
  destruct addedA_fields as (-> & _ & -> & _). cbn [addedA this vertices].
  rewrite (JSObjectFacts.get_pristine_any _ (vertexMember h)).
  - now apply ensuredBoth_end.
  - unfold JSObject.pristine. now rewrite ensuredBoth_proto.
Qed.

Hypothesis Hfresh : edgeAt s (GraphEdge.key h e) = Nothing.

Lemma fresh_key : GraphEdge.key h e <> "__proto__"%string.
Proof. apply JSObjectFacts.get_Nothing in Hfresh. tauto. Qed.

Lemma fresh_own : JSObject.own (edges (this s)) (GraphEdge.key h e) = None.
Proof. apply JSObjectFacts.get_Nothing in Hfresh. tauto. Qed.

(** X7.  An [addEdge] of an edge whose key reads as
    nothing in the edge registry registers the edge under that key.
    Variant B returns: it appends the edge to the adjacency list of the
    start vertex of the edge, and in an undirected graph to that of its
    end vertex as well (twice to the same list for a loop), and changes no
    other list.  Variant A returns the graph when neither endpoint key
    reads as a value that is not a vertex, and does the same to the
    objects that the endpoint keys resolve to in the registry before the
    call; when the key of the start vertex reads as such a value (a name of
    [Object.prototype]) it ends in a [TypeError] with the edge
    registered. *)
Theorem addEdge_connects :
  let sa := after (A.addEdge e) s in
  let sb := after (B.addEdge e) s in
  (B.addEdge e s = (Return Undefined, sb) /\
   JSObject.own (edges (this sb)) (GraphEdge.key h e) = Some e /\
   (forall v, vertexEdges (heap sb) v
      = vertexEdges h v ++ (if Nat.eqb v a then [e] else [])
          ++ (if negb d && Nat.eqb v b then [e] else []))) /\
  (vertexAt s (vertexKey h a) <> Foreign -> vertexAt s (vertexKey h b) <> Foreign ->
   A.addEdge e s = (Return This, sa) /\
   JSObject.own (edges (this sa)) (GraphEdge.key h e) = Some e /\
   (forall v, vertexEdges (heap sa) v
      = vertexEdges h v ++ (if Nat.eqb v ra then [e] else [])
          ++ (if negb d && Nat.eqb v rb then [e] else []))) /\
  (vertexAt s (vertexKey h a) = Foreign ->
   outcome (A.addEdge e) s = Throw TypeError /\
   JSObject.own (edges (this sa)) (GraphEdge.key h e) = Some e).
Proof.
  intros sa sb. subst sa sb.
  assert (Hown : JSObject.own (JSObject.assign (edges (this s)) (GraphEdge.key h e) e)
                   (GraphEdge.key h e) = Some e).
  { apply JSObjectFacts.own_assign_same. left. exact fresh_key. }
  split; [|split].
  - unfold after. rewrite (B_addEdge_fresh s e Hfresh). simpl fst. simpl snd.
    split; [reflexivity|]. split; [exact Hown|]. intros v. apply connected_edges.
  - intros Ha Hb. unfold after. rewrite (A_addEdge_fresh s e Hfresh Ha Hb). simpl fst. simpl snd.
    split; [reflexivity|]. split; [exact Hown|]. intros v. apply connected_edges.
  - intros Ha. destruct (A_addEdge_foreign_start Hfresh Ha) as [Hthrow Hedges].
    split; [exact Hthrow|]. now rewrite Hedges.
Qed.

(** X8.  After an [addEdge] of an edge whose key
    read as nothing, [findEdge] from the start vertex of the edge asks a
    vertex object that holds the new edge: variant B the start vertex
    itself, variant A the object that the key of the start vertex resolves
    to (provided the vertex registry has [Object.prototype] as its
    prototype, neither endpoint key reads as a value that is not a vertex,
    and the two endpoints are one object whenever they have one key). *)
Theorem findEdge_after_addEdge `{VL : VertexLookup} (n : vref) :
  let sa := after (A.addEdge e) s in
  let sb := after (B.addEdge e) s in
  (JSObject.pristine (vertices (this s)) ->
   vertexAt s (vertexKey h a) <> Foreign -> vertexAt s (vertexKey h b) <> Foreign ->
   (vertexKey h a = vertexKey h b -> a = b) ->
     A.findEdge a n sa = (Return (findEdge (heap sa) ra n), sa) /\
     In e (vertexEdges (heap sa) ra)) /\
  (B.findEdge (Some a) n sb = (Return (findEdge (heap sb) a n), sb) /\
   In e (vertexEdges (heap sb) a)).
Proof.
  intros sa sb. subst sa sb. unfold after. split.
  - intros Hpr Ha Hb Hsame. rewrite (A_addEdge_fresh s e Hfresh Ha Hb). simpl snd.
    destruct (A_findEdge_resolves_by_key (addedA s e) a n) as (_ & Hreg & _). split.
    + apply Hreg. pose proof (addedA_start Hpr Ha Hb Hsame) as Hstart.
      destruct addedA_fields as (_ & Hs & _). now rewrite Hs in Hstart.
    + simpl. rewrite connected_edges, Nat.eqb_refl. apply in_or_app. right. now left.
  - rewrite (B_addEdge_fresh s e Hfresh). simpl snd. split; [reflexivity|].
    simpl. rewrite connected_edges, Nat.eqb_refl. apply in_or_app. right. now left.
Qed.

(** X9.  [addEdge(e)] followed by
    [deleteEdge(e)], for an edge whose key reads as nothing in the edge
    registry and that no vertex holds: both calls return, the edge
    registry is the one before the two calls, entry for entry, and so is
    every adjacency list; the endpoints of every edge and the flag are
    unchanged.  The vertices that [addEdge] registered stay registered.
    (Variant A: provided the vertex registry has [Object.prototype] as its
    prototype, neither endpoint key reads as a value that is not a vertex,
    and the two endpoints are one object whenever they have one key.) *)
Theorem addEdge_then_deleteEdge :
  (forall u, ~ In e (vertexEdges h u)) ->
  (JSObject.pristine (vertices (this s)) ->
   vertexAt s (vertexKey h a) <> Foreign -> vertexAt s (vertexKey h b) <> Foreign ->
   (vertexKey h a = vertexKey h b -> a = b) ->
   exists s2, (A.addEdge e ;; A.deleteEdge e) s = (Return Undefined, s2) /\
     edges (this s2) = edges (this s) /\
     vertices (this s2) = ensuredBoth h (vertices (this s)) a b /\
     isDirected (this s2) = d /\
     (forall v, vertexEdges (heap s2) v = vertexEdges h v) /\
     startVertex (heap s2) = startVertex h /\ endVertex (heap s2) = endVertex h) /\
  (exists s2, (B.addEdge e ;; B.deleteEdge e) s = (Return Undefined, s2) /\
     edges (this s2) = edges (this s) /\
     vertices (this s2) = ensured h (ensured h (vertices (this s)) a) b /\
     isDirected (this s2) = d /\
     (forall v, vertexEdges (heap s2) v = vertexEdges h v) /\
     startVertex (heap s2) = startVertex h /\ endVertex (heap s2) = endVertex h).
Proof.
  intros Hfree. split.
  - intros Hpr Ha Hb Hsame.
    assert (Hreg : truthy (edgeAt (addedA s e) (GraphEdge.key (heap (addedA s e)) e)) = true).
    { rewrite addedA_key. unfold edgeAt. simpl. now rewrite JSObjectFacts.get_assign_same. }
    pose proof (addedA_start Hpr Ha Hb Hsame) as Hva.
    pose proof (addedA_end Hpr Hb) as Hvb.
    exists (deletedA (addedA s e) e ra rb). split.
    + unfold bind. rewrite (A_addEdge_fresh s e Hfresh Ha Hb).
      apply (A_deleteEdge_present _ e ra rb Hreg Hva Hvb).
    + split; [|split; [reflexivity|split; [reflexivity|split]]].
      * unfold deletedA. cbn [this edges]. rewrite addedA_key.
        change (edges (this (addedA s e)))
          with (JSObject.assign (edges (this s)) (GraphEdge.key h e) e).
        apply JSObjectFacts.delete_assign_fresh; [exact fresh_own | exact fresh_key].
      * intros v. apply dropped_connected. exact Hfree.
      * unfold deletedA. cbn [heap]. split; apply addedA_fields.
  - assert (Hreg : truthy (edgeAt (addedB s e) (GraphEdge.key (heap (addedB s e)) e)) = true).
    { rewrite addedB_key. unfold edgeAt. simpl. now rewrite JSObjectFacts.get_assign_same. }
    exists (deletedB (addedB s e) e). split.
    + unfold bind. rewrite (B_addEdge_fresh s e Hfresh).
      apply (B_deleteEdge_present _ e Hreg).
    + split; [|split; [reflexivity|split; [reflexivity|split]]].
      * unfold deletedB. cbn [this edges]. rewrite addedB_key.
        change (edges (this (addedB s e)))
          with (JSObject.assign (edges (this s)) (GraphEdge.key h e) e).
        apply JSObjectFacts.delete_assign_fresh; [exact fresh_own | exact fresh_key].
      * intros v. unfold deletedB. cbn [heap].
        destruct addedB_fields as (_ & -> & -> & _).
        apply dropped_connected. exact Hfree.
      * unfold deletedB. cbn [heap]. split; apply addedB_fields.
Qed.
End AfterAddEdge.

(* ================================================================= *)
(** ** Where the variants agree, and the same call twice *)

Section EnsuredTruthy.
Context `{MB : Members}.
Variables (h : Store) (vs : JSObject.t vref) (a b : vref).

(** Once both endpoints have been ensured, both keys read as something. *)
Lemma ensuredBoth_truthy :
  truthy (JSObject.get (vertexMember h) (ensuredBoth h vs a b) (vertexKey h a)) = true /\
  truthy (JSObject.get (vertexMember h) (ensuredBoth h vs a b) (vertexKey h b)) = true.
Proof.
  destruct (ensuredBoth_cases h vs a b) as [Heq|[Hget Heq]]; rewrite Heq.
  - split; [apply ensured_truthy|].
    unfold ensuredBoth in Heq.
    destruct (truthy (JSObject.get (vertexMember h) vs (vertexKey h b))) eqn:Hb.
    + destruct (ensured_cases h vs a) as [->|[Hga ->]]; [exact Hb|].
      destruct (string_dec (vertexKey h b) (vertexKey h a)) as [E|E].
      * rewrite E. now rewrite JSObjectFacts.get_assign_same.
      * rewrite JSObjectFacts.get_assign_other; [exact Hb | exact E |].
        apply JSObjectFacts.get_Nothing in Hga. left. tauto.
    + rewrite <- Heq. now rewrite JSObjectFacts.get_assign_same.
  - split; [|now rewrite JSObjectFacts.get_assign_same].
    destruct (string_dec (vertexKey h a) (vertexKey h b)) as [E|E].
    + rewrite E. now rewrite JSObjectFacts.get_assign_same.
    + rewrite JSObjectFacts.get_assign_other; [apply ensured_truthy | exact E |].
      apply JSObjectFacts.get_Nothing in Hget. left. tauto.
Qed.
End EnsuredTruthy.

Section VariantsAgree.
Context `{EK : EdgeKey} `{VL : VertexLookup} `{MB : Members}.
Variables (s : State) (e : eref).

Local Abbreviation h := (heap s).
Local Abbreviation vs := (vertices (this s)).
Local Abbreviation a := (startVertex (heap s) e).
Local Abbreviation b := (endVertex (heap s) e).

Lemma added_same :
  ownKey s a -> ownKey s b -> (vertexKey h a = vertexKey h b -> a = b) ->
  addedA s e = addedB s e.
Proof.
  intros Ha Hb Hsame. unfold addedA, addedB. cbv zeta.
  rewrite (ownKey_resolved s a Ha), (ownKey_resolved s b Hb).
  now rewrite (ensured_both_ways h vs a b Hsame).
Qed.

(** X10.  Where the two variants do the same.  [addEdge]
    returns in both, the graph in variant A and nothing in variant B, and
    leads to the same state, when the key of the edge reads as nothing and
    each endpoint is registered under its key or has a key that reads as
    nothing (two endpoints with one key being one object).  When both
    endpoints are registered under their keys, [addEdge] leads both
    variants to the same state and throws in one exactly when it throws in
    the other, and [deleteEdge] gives the same result and state in both.
    [findEdge] agrees for a start vertex whose key reads as that
    vertex. *)
Theorem variants_agree :
  (ownKey s a -> ownKey s b -> (vertexKey h a = vertexKey h b -> a = b) ->
   edgeAt s (GraphEdge.key h e) = Nothing ->
   after (A.addEdge e) s = after (B.addEdge e) s /\
   outcome (A.addEdge e) s = Return This /\ outcome (B.addEdge e) s = Return Undefined) /\
  (JSObject.own vs (vertexKey h a) = Some a ->
   JSObject.own vs (vertexKey h b) = Some b ->
   after (A.addEdge e) s = after (B.addEdge e) s /\
   (forall x, outcome (A.addEdge e) s = Throw x <-> outcome (B.addEdge e) s = Throw x) /\
   A.deleteEdge e s = B.deleteEdge e s) /\
  (forall v n, vertexAt s (vertexKey h v) = Ref v ->
   A.findEdge v n s = B.findEdge (Some v) n s).
Proof.
  assert (Hfresh : ownKey s a -> ownKey s b -> (vertexKey h a = vertexKey h b -> a = b) ->
            edgeAt s (GraphEdge.key h e) = Nothing ->
            A.addEdge e s = (Return This, addedB s e) /\
            B.addEdge e s = (Return Undefined, addedB s e)).
  { intros Ha Hb Hsame Hnew.
    rewrite (A_addEdge_fresh s e Hnew (ownKey_not_Foreign s a Ha) (ownKey_not_Foreign s b Hb)).
    rewrite (B_addEdge_fresh s e Hnew). now rewrite (added_same Ha Hb Hsame). }
  split; [|split].
  - intros Ha Hb Hsame Hnew. destruct (Hfresh Ha Hb Hsame Hnew) as [HA HB].
    unfold after, outcome. rewrite HA, HB. auto.
  - intros Ha Hb.
    pose proof (vertexAt_own s _ _ Ha) as Hta. pose proof (vertexAt_own s _ _ Hb) as Htb.
    destruct (truthy (edgeAt s (GraphEdge.key h e))) eqn:E.
    + assert (HA : A.addEdge e s = (Throw DuplicateEdgeError, s)).
      { apply A_addEdge_duplicate_registered; [exact E | now rewrite Hta | now rewrite Htb]. }
      unfold after, outcome.
      rewrite HA, (B_addEdge_duplicate_atomic s e E).
      rewrite (A_deleteEdge_present s e a b E Hta Htb), (B_deleteEdge_present s e E).
      split; [reflexivity|]. split; [tauto | reflexivity].
    + apply JSObjectFacts.falsy_Nothing in E.
      destruct (Hfresh (or_introl Ha) (or_introl Hb)) as [HA HB]; [|exact E|].
      { intros Hk. rewrite Hk in Ha. rewrite Ha in Hb. now injection Hb. }
      unfold after, outcome. rewrite HA, HB.
      rewrite (A_deleteEdge_absent s e E), (B_deleteEdge_absent s e E).
      split; [reflexivity|]. split; [|reflexivity].
      intros x. simpl. split; discriminate.
  - intros v n Hv.
    destruct (A_findEdge_resolves_by_key s v n) as (_ & Hreg & _).
    rewrite (Hreg v Hv). symmetry. apply B_findEdge_asks_argument.
Qed.
End VariantsAgree.

Section Repeated.
Context `{EK : EdgeKey} `{MB : Members}.
Variables (s : State) (e : eref).

Local Abbreviation h := (heap s).
Local Abbreviation a := (startVertex (heap s) e).
Local Abbreviation b := (endVertex (heap s) e).

Lemma A_deleteEdge_returns (x : completion) (s1 : State) :
  A.deleteEdge e s = (Return x, s1) -> exists v w, s1 = deletedA s e v w.
Proof.
  destruct (truthy (edgeAt s (GraphEdge.key h e))) eqn:E.
  - destruct (vertexAt s (vertexKey h a)) as [v| |] eqn:Ev;
      [destruct (vertexAt s (vertexKey h b)) as [w| |] eqn:Ew| |].
    + rewrite (A_deleteEdge_present s e v w E Ev Ew). intros [= _ <-]. eauto.
    + revert E Ev Ew. unfold_A. run_js. intros E Ev Ew.
      rewrite E. simpl. rewrite Ev. simpl. rewrite Ew. discriminate.
    + revert E Ev Ew. unfold_A. run_js. intros E Ev Ew.
      rewrite E. simpl. rewrite Ev. simpl. rewrite Ew. discriminate.
    + revert E Ev. unfold_A. run_js. intros E Ev. rewrite E. simpl. rewrite Ev. discriminate.
    + revert E Ev. unfold_A. run_js. intros E Ev. rewrite E. simpl. rewrite Ev. discriminate.
  - apply JSObjectFacts.falsy_Nothing in E.
    rewrite (A_deleteEdge_absent s e E). discriminate.
Qed.

(** Once its key is deleted, a key that is no name of [Object.prototype]
    reads as nothing. *)
Lemma deleted_reads_nothing (via : eref -> string -> value eref) (k : string) :
  JSObject.wf (edges (this s)) -> JSObject.pristine (edges (this s)) ->
  JSObject.inheritedName k = false ->
  JSObject.get via (JSObject.delete (edges (this s)) k) k = Nothing.
Proof.
  intros Hwf Hpr Hk. rewrite JSObjectFacts.get_pristine by exact Hpr.
  now rewrite (JSObjectFacts.own_delete_same _ _ Hwf), Hk.
Qed.

(** X11.  The same call twice.  After an [addEdge(e)]
    that found the key of [e] reading as nothing, a second [addEdge(e)]
    throws the duplicate-edge error and leaves the state that the first
    call produced, in both variants (in variant A provided the first call
    returned: neither endpoint key reads as a value that is not a vertex,
    and the vertex registry has [Object.prototype] as its prototype).
    After a [deleteEdge(e)] that returned, on an edge registry that is
    well formed and has [Object.prototype] as its prototype, and for a key
    that is no name of [Object.prototype], a second [deleteEdge(e)] throws
    the edge-not-found error and leaves the state that the first call
    produced. *)
Theorem repeated_call_fails :
  (edgeAt s (GraphEdge.key h e) = Nothing ->
   (JSObject.pristine (vertices (this s)) ->
    vertexAt s (vertexKey h a) <> Foreign -> vertexAt s (vertexKey h b) <> Foreign ->
    (A.addEdge e ;; A.addEdge e) s = (Throw DuplicateEdgeError, after (A.addEdge e) s)) /\
   (B.addEdge e ;; B.addEdge e) s = (Throw DuplicateEdgeError, after (B.addEdge e) s)) /\
  (JSObject.wf (edges (this s)) -> JSObject.pristine (edges (this s)) ->
   JSObject.inheritedName (GraphEdge.key h e) = false ->
   (forall x, outcome (A.deleteEdge e) s = Return x ->
      (A.deleteEdge e ;; A.deleteEdge e) s
      = (Throw EdgeNotFoundError, after (A.deleteEdge e) s)) /\
   (forall x, outcome (B.deleteEdge e) s = Return x ->
      (B.deleteEdge e ;; B.deleteEdge e) s
      = (Throw EdgeNotFoundError, after (B.deleteEdge e) s))).
Proof.
  split.
  - intros Hfresh. split.
    + intros Hpr Ha Hb. unfold after, bind.
      rewrite (A_addEdge_fresh s e Hfresh Ha Hb). cbn [fst snd].
      assert (Hpr' : JSObject.pristine (vertices (this (addedA s e)))).
      { unfold JSObject.pristine. simpl. now rewrite ensuredBoth_proto. }
      destruct (ensuredBoth_truthy h (vertices (this s)) a b) as [Hta Htb].
      apply A_addEdge_duplicate_registered.
      * rewrite (addedA_key s e). unfold edgeAt. simpl.
        now rewrite JSObjectFacts.get_assign_same.
      * unfold vertexAt. destruct (addedA_fields s e) as (-> & -> & _).
        cbn [addedA this vertices] in *.
        now rewrite (JSObjectFacts.get_pristine_any _ (vertexMember h) _ _ Hpr').
      * unfold vertexAt. destruct (addedA_fields s e) as (-> & _ & -> & _).
        cbn [addedA this vertices] in *.
        now rewrite (JSObjectFacts.get_pristine_any _ (vertexMember h) _ _ Hpr').
    + unfold after, bind. rewrite (B_addEdge_fresh s e Hfresh). cbn [fst snd].
      apply B_addEdge_duplicate_atomic.
      rewrite (addedB_key s e). unfold edgeAt. simpl.
      now rewrite JSObjectFacts.get_assign_same.
  - intros Hwf Hpr Hk. split; intros x Hret; unfold after, bind; unfold outcome in Hret.
    + destruct (A.deleteEdge e s) as [[y|y] s1] eqn:Hrun; cbn [fst snd] in *; [|discriminate].
      destruct (A_deleteEdge_returns _ _ Hrun) as (v & w & ->).
      apply A_deleteEdge_absent. now apply deleted_reads_nothing.
    + destruct (truthy (edgeAt s (GraphEdge.key h e))) eqn:E.
      * rewrite (B_deleteEdge_present s e E). cbn [fst snd].
        apply B_deleteEdge_absent. now apply deleted_reads_nothing.
      * apply JSObjectFacts.falsy_Nothing in E.
        rewrite (B_deleteEdge_absent s e E) in Hret. discriminate.
Qed.
End Repeated.

Section AtomicOnReachable.
Context `{EK : EdgeKey} `{MB : Members}.

(** X13.  With a key derivation that tells
    pairs of endpoint keys apart, over vertex objects none of whose keys is
    a name of [Object.prototype], [addEdge] of variant A on a graph that
    was only changed through its public operations, for an edge whose key
    is no name of [Object.prototype], either returns, having added the
    edge, or throws the duplicate-edge error and leaves the whole state as
    it was. *)
Theorem A_addEdge_atomic_on_reachable (s : State) (e : eref) :
  keyInjective EK ->
  reachable performA s ->
  plainVertexKeys (heap s) ->
  JSObject.inheritedName (GraphEdge.key (heap s) e) = false ->
  A.addEdge e s = (Return This, addedA s e) \/ A.addEdge e s = (Throw DuplicateEdgeError, s).
Proof.
  intros Hinj Hreach Hplain Hk.
  destruct (proj1 reachable_settled s Hreach Hplain) as ([_ Hpr] & Hhave & Hkeys).
  pose proof (proj1 reachable_edges_pristine s Hreach) as Hepr.
  destruct (JSObject.own (edges (this s)) (GraphEdge.key (heap s) e)) as [r|] eqn:E.
  - right. apply A_addEdge_duplicate_registered.
    + now rewrite (edgeAt_own _ _ _ E).
    + destruct (Hkeys _ _ (JSObjectFacts.own_In _ _ _ E)) as (ka & kb & Heq & Ha & Hb).
      apply Hinj in Heq. destruct Heq as [<- <-].
      unfold vertexAt. rewrite (lookup_plain _ _ Hplain Hpr).
      match goal with
      | |- truthy (match ?x with _ => _ end) = true => destruct x; [reflexivity | congruence]
      end.
    + destruct (Hkeys _ _ (JSObjectFacts.own_In _ _ _ E)) as (ka & kb & Heq & Ha & Hb).
      apply Hinj in Heq. destruct Heq as [<- <-].
      unfold vertexAt. rewrite (lookup_plain _ _ Hplain Hpr).
      match goal with
      | |- truthy (match ?x with _ => _ end) = true => destruct x; [reflexivity | congruence]
      end.
  - left. apply A_addEdge_fresh.
    + unfold edgeAt. rewrite (JSObjectFacts.get_pristine _ _ _ Hepr). now rewrite E, Hk.
    + now apply lookup_plain_not_Foreign.
    + now apply lookup_plain_not_Foreign.
Qed.
End AtomicOnReachable.

Lemma addEdge_connects_witness :
  let s := Witnesses.oneEdgeA in
  vertexEdges (heap (after (A.addEdge (EK:=joinedKey) 1) s)) 1 = [1] /\
  vertexEdges (heap (after (B.addEdge (EK:=joinedKey) 1) s)) 2 = [] /\
  vertexEdges (heap (after (B.addEdge (EK:=joinedKey) 1) Witnesses.undirectedB)) 2 = [1].
Proof.
  destruct (addEdge_connects (EK:=joinedKey) Witnesses.oneEdgeA 1 eq_refl)
    as ((_ & _ & HB) & HA & _).
  destruct (addEdge_connects (EK:=joinedKey) Witnesses.undirectedB 1 eq_refl)
    as ((_ & _ & HU) & _).
  destruct HA as (_ & _ & HA); [discriminate | discriminate |].
  split; [exact (HA 1)|]. split; [exact (HB 2) | exact (HU 2)].
Defined.

Lemma findEdge_after_addEdge_witness :
  let s := Witnesses.oneEdgeA in
  outcome (A.findEdge (VL:=incidentLookup) 1 2) (after (A.addEdge (EK:=joinedKey) 1) s)
    = Return (Some 1) /\
  outcome (B.findEdge (VL:=incidentLookup) (Some 1) 2) (after (B.addEdge (EK:=joinedKey) 1) s)
    = Return (Some 1).
Proof.
  destruct (findEdge_after_addEdge (EK:=joinedKey) (VL:=incidentLookup)
              Witnesses.oneEdgeA 1 eq_refl 2) as (HA & HB & _).
  destruct HA as [HA _]; [reflexivity | discriminate | discriminate | discriminate |].
  split; [exact (f_equal fst HA) | exact (f_equal fst HB)].
Defined.

Lemma addEdge_then_deleteEdge_witness :
  let s := Witnesses.oneEdgeA in
  (exists s2, (A.addEdge (EK:=joinedKey) 1 ;; A.deleteEdge (EK:=joinedKey) 1) s
              = (Return Undefined, s2) /\
     edges (this s2) = edges (this s) /\
     forall v, vertexEdges (heap s2) v = vertexEdges (heap s) v) /\
  (exists s2, (B.addEdge (EK:=joinedKey) 1 ;; B.deleteEdge (EK:=joinedKey) 1) s
              = (Return Undefined, s2) /\
     edges (this s2) = edges (this s) /\
     forall v, vertexEdges (heap s2) v = vertexEdges (heap s) v).
Proof.
  assert (Hfree : forall u, ~ In 1 (vertexEdges (heap Witnesses.oneEdgeA) u)).
  { intros [|u]; vm_compute; intuition discriminate. }
  destruct (addEdge_then_deleteEdge (EK:=joinedKey) Witnesses.oneEdgeA 1 eq_refl Hfree)
    as (HA & s2 & HB & HBe & _ & _ & HBv & _).
  destruct HA as (s1 & HA & HAe & _ & _ & HAv & _);
    [reflexivity | discriminate | discriminate | discriminate |].
  split; [exists s1 | exists s2]; auto.
Defined.

Lemma variants_agree_witness :
  after (A.addEdge (EK:=joinedKey) 1) (Scenario.start false)
    = after (B.addEdge (EK:=joinedKey) 1) (Scenario.start false) /\
  after (A.addEdge (EK:=joinedKey) 2) Witnesses.undirectedA
    = after (B.addEdge (EK:=joinedKey) 2) Witnesses.undirectedA /\
  A.deleteEdge (EK:=joinedKey) 0 Witnesses.undirectedA
    = B.deleteEdge (EK:=joinedKey) 0 Witnesses.undirectedA /\
  A.findEdge (VL:=incidentLookup) 0 1 Witnesses.undirectedA
    = B.findEdge (VL:=incidentLookup) (Some 0) 1 Witnesses.undirectedA.
Proof.
  destruct (variants_agree (EK:=joinedKey) (VL:=incidentLookup) (Scenario.start false) 1)
    as (Hfresh & _).
  destruct (variants_agree (EK:=joinedKey) (VL:=incidentLookup) Witnesses.undirectedA 2)
    as (_ & Hadd & _).
  destruct (variants_agree (EK:=joinedKey) (VL:=incidentLookup) Witnesses.undirectedA 0)
    as (_ & Hdel & Hfind).
  split; [|split; [|split]].
  - apply Hfresh; [right; reflexivity | right; reflexivity | discriminate | reflexivity].
  - apply Hadd; reflexivity.
  - apply Hdel; reflexivity.
  - apply Hfind. reflexivity.
Defined.

Lemma repeated_call_fails_witness :
  let s := Witnesses.oneEdgeA in
  outcome (A.addEdge (EK:=joinedKey) 1 ;; A.addEdge (EK:=joinedKey) 1) s
    = Throw DuplicateEdgeError /\
  outcome (B.addEdge (EK:=joinedKey) 1 ;; B.addEdge (EK:=joinedKey) 1) s
    = Throw DuplicateEdgeError /\
  outcome (A.deleteEdge (EK:=joinedKey) 0 ;; A.deleteEdge (EK:=joinedKey) 0) s
    = Throw EdgeNotFoundError /\
  outcome (B.deleteEdge (EK:=joinedKey) 0 ;; B.deleteEdge (EK:=joinedKey) 0) s
    = Throw EdgeNotFoundError.
Proof.
  destruct (repeated_call_fails (EK:=joinedKey) Witnesses.oneEdgeA 1) as (Hadd & _).
  destruct (repeated_call_fails (EK:=joinedKey) Witnesses.oneEdgeA 0) as (_ & Hdel).
  destruct (Hadd eq_refl) as [HA HB].
  assert (Hwf : JSObject.wf (edges (this Witnesses.oneEdgeA))).
  { apply (proj1 (reachable_edgeKeyed (EK:=joinedKey)) _ oneEdgeA_reachable). }
  destruct (Hdel Hwf eq_refl eq_refl) as [HdelA HdelB].
  unfold outcome.
  rewrite (HA eq_refl), HB, (HdelA Undefined eq_refl), (HdelB Undefined eq_refl);
    [auto | discriminate | discriminate].
Defined.

Lemma marked_injective : keyInjective Witnesses.markedKey.
Proof.
  intros a. induction a as [|x a IH]; intros b [|y c] d; simpl; intros H.
  - now injection H.
  - discriminate.
  - discriminate.
  - injection H as <- H. apply IH in H. destruct H as [<- <-]. auto.
Qed.

Lemma A_addEdge_atomic_on_reachable_witness :
  A.addEdge (EK:=Witnesses.markedKey) 0 Witnesses.markedA
  = (Throw DuplicateEdgeError, Witnesses.markedA).
Proof.
  destruct (A_addEdge_atomic_on_reachable (EK:=Witnesses.markedKey) Witnesses.markedA 0
              marked_injective) as [H|H].
  - apply (reachable_call (performA (EK:=Witnesses.markedKey)) _ (AddEdge 0)).
    apply reachable_new.
  - exact scenario_plain.
  - reflexivity.
  - discriminate H.
  - exact H.
Defined.

(* ================================================================= *)
(** ** reverse on graphs without opposite edges *)

Section Pass.
Context `{EK : EdgeKey}.
Variables (h0 : Store) (I : State -> Prop) (E : eref -> Prop) (body : eref -> M completion).
Hypothesis Hbody : iteration h0 I E body.

Lemma ready_next (e : eref) (rest done : list eref) :
  ready h0 E (e :: rest) done -> ready h0 E rest (done ++ [e]).
Proof.
  intros (Hnd & Hdisj & Hrnd & Hrr & Hrk & Hpl & HE).
  inversion Hnd as [|? ? Hnotin Hnd']; subst.
  inversion Hrnd as [|? ? Hrnotin Hrnd']; subst.
  repeat split.
  - exact Hnd'.
  - intros x Hx Hin. apply in_app_or in Hin. destruct Hin as [Hin|[<-|[]]].
    + apply (Hdisj x); [now right | exact Hin].
    + contradiction.
  - exact Hrnd'.
  - intros x y Hx Hy. apply in_app_or in Hy. destruct Hy as [Hy|[<-|[]]].
    + apply Hrr; [now right | exact Hy].
    + intros Heq. apply Hrnotin. rewrite <- Heq. now apply in_map.
  - intros x y Hx Hy. apply Hrk; now right.
  - apply Hpl. now right.
  - apply Hpl. now right.
  - intros x Hx. apply HE. now right.
Qed.

Lemma pass (rest : list eref) : forall done t,
  ready h0 E rest done -> I t ->
  edges (this t) = listed (entries h0 rest ++ reversedEntries h0 done) ->
  flipped h0 done (heap t) ->
  exists t', forEach rest body t = (Return tt, t') /\ I t' /\
    edges (this t') = listed (reversedEntries h0 (done ++ rest)) /\
    flipped h0 (done ++ rest) (heap t').
Proof.
  induction rest as [|e rest IH]; intros done t Hready HI Hedges Hflip.
  - exists t. rewrite app_nil_r. simpl in Hedges.
    split; [reflexivity | split; [exact HI | split; [exact Hedges | exact Hflip]]].
  - pose proof Hready as (Hnd & Hdisj & Hrnd & Hrr & Hrk & Hpl & HE).
    inversion Hnd as [|? ? Hnotin Hnd']; subst.
    assert (H1 : ~ In e done) by (apply Hdisj; now left).
    assert (H2 : forall y, In y rest -> reversedKey h0 e <> GraphEdge.key h0 y).
    { intros y Hy. apply Hrk; [now left | now right |]. intros <-. contradiction. }
    assert (H3 : forall y, In y done -> reversedKey h0 e <> reversedKey h0 y).
    { intros y Hy. apply Hrr; [now left | exact Hy]. }
    destruct (Hbody e t rest done HI (HE e (or_introl eq_refl)) Hedges Hflip H1
                (Hpl e (or_introl eq_refl)) H2 H3)
      as (x & t1 & Hrun & HI1 & Hedges1 & Hflip1).
    destruct (IH (done ++ [e]) t1 (ready_next e rest done Hready) HI1 Hedges1 Hflip1)
      as (t' & Hrun' & HI' & Hedges' & Hflip').
    exists t'. rewrite <- app_assoc in Hedges', Hflip'. simpl in Hedges', Hflip'.
    split; [|split; [exact HI' | split; [exact Hedges' | exact Hflip']]].
    simpl. unfold bind. rewrite Hrun. exact Hrun'.
Qed.
End Pass.

Section Membership.
Variables (h : Store) (v : vref) (e : eref).

Lemma In_appended (u : vref) (x : eref) :
  In x (vertexEdges (GraphVertex.appended h v e) u) <->
  In x (vertexEdges h u) \/ (u = v /\ x = e).
Proof.
  simpl. destruct (Nat.eqb u v) eqn:E.
  - apply Nat.eqb_eq in E. subst u. rewrite in_app_iff. simpl. intuition.
  - apply Nat.eqb_neq in E. intuition.
Qed.

Lemma In_dropped (u : vref) (x : eref) :
  In x (vertexEdges (GraphVertex.dropped h v e) u) <->
  In x (vertexEdges h u) /\ ~ (u = v /\ x = e).
Proof.
  simpl. destruct (Nat.eqb u v) eqn:E.
  - apply Nat.eqb_eq in E. subst u. rewrite filter_In, negb_true_iff, Nat.eqb_neq. intuition.
  - apply Nat.eqb_neq in E. intuition.
Qed.
End Membership.

Section Entries.
Context `{EK : EdgeKey}.
Variable h0 : Store.

Lemma keys_entries (rest done : list eref) :
  map fst (entries h0 rest ++ reversedEntries h0 done)
  = map (GraphEdge.key h0) rest ++ map (reversedKey h0) done.
Proof.
  unfold entries, reversedEntries. now rewrite map_app, !map_map.
Qed.

Lemma reversedEntries_snoc (done : list eref) (e : eref) :
  reversedEntries h0 done ++ [(reversedKey h0 e, e)] = reversedEntries h0 (done ++ [e]).
Proof. unfold reversedEntries. now rewrite map_app. Qed.

Lemma flipped_key (done : list eref) (h : Store) (e : eref) :
  flipped h0 done h -> ~ In e done -> GraphEdge.key h e = GraphEdge.key h0 e.
Proof.
  intros [Hkey Hends] Hnotin. destruct (Hends e) as [_ Horig].
  destruct (Horig Hnotin) as [Hs He]. unfold GraphEdge.key. now rewrite Hkey, Hs, He.
Qed.

(** Swapping the endpoints of an edge that was not flipped yet. *)
Lemma flipped_snoc (done : list eref) (h h' : Store) (e : eref) :
  flipped h0 done h -> ~ In e done ->
  vertexKey h' = vertexKey h ->
  (forall x, startVertex h' x = if Nat.eqb x e then endVertex h e else startVertex h x) ->
  (forall x, endVertex h' x = if Nat.eqb x e then startVertex h e else endVertex h x) ->
  flipped h0 (done ++ [e]) h'.
Proof.
  intros [Hkey Hends] Hnotin Hkey' Hs He. split; [congruence|].
  intros x. rewrite Hs, He. destruct (Hends e) as [_ Horig].
  destruct (Horig Hnotin) as [Hse Hee]. destruct (Hends x) as [Hdone Hrest].
  destruct (Nat.eqb x e) eqn:E.
  - apply Nat.eqb_eq in E. subst x. split; [auto|].
    intros Hn. exfalso. apply Hn. apply in_or_app. right. now left.
  - apply Nat.eqb_neq in E. split.
    + intros Hin. apply in_app_or in Hin. destruct Hin as [Hin|[->|[]]]; [auto | congruence].
    + intros Hn. apply Hrest. intros Hin. apply Hn. apply in_or_app. now left.
Qed.

(** The registry during a pass: the edge to process is its first entry,
    and its reversed key reads as nothing once the entry is deleted. *)
Lemma listed_first (via : eref -> string -> value eref) (e : eref) (l : list (string * eref)) :
  JSObject.get via (listed ((GraphEdge.key h0 e, e) :: l)) (GraphEdge.key h0 e) = Ref e.
Proof. unfold JSObject.get, JSObject.own, listed. simpl. now rewrite String.eqb_refl. Qed.

Lemma listed_delete_first (e : eref) (l : list (string * eref)) :
  JSObject.delete (listed ((GraphEdge.key h0 e, e) :: l)) (GraphEdge.key h0 e) = listed l.
Proof. unfold JSObject.delete, listed. simpl. now rewrite String.eqb_refl. Qed.

Lemma listed_fresh (via : eref -> string -> value eref) (e : eref) (rest done : list eref) :
  plainKey (reversedKey h0 e) ->
  (forall y, In y rest -> reversedKey h0 e <> GraphEdge.key h0 y) ->
  (forall y, In y done -> reversedKey h0 e <> reversedKey h0 y) ->
  JSObject.get via (listed (entries h0 rest ++ reversedEntries h0 done)) (reversedKey h0 e)
  = Nothing.
Proof.
  intros [Hinh _] Hrk Hrr. rewrite JSObjectFacts.get_pristine by reflexivity.
  rewrite Hinh.
  assert (Hnone : JSObject.own (listed (entries h0 rest ++ reversedEntries h0 done))
                    (reversedKey h0 e) = None).
  { apply JSObjectFacts.own_None_notin. unfold JSObject.keys, listed. simpl.
    rewrite keys_entries. intros Hin. apply in_app_or in Hin.
    destruct Hin as [Hin|Hin]; apply in_map_iff in Hin; destruct Hin as (y & Hy & Hin).
    - now apply (Hrk y Hin).
    - now apply (Hrr y Hin). }
  now rewrite Hnone.
Qed.

Lemma listed_assign (via : eref -> string -> value eref) (k : string) (e : eref)
    (l : list (string * eref)) :
  JSObject.get via (listed l) k = Nothing -> JSObject.arrayIndex k = None ->
  JSObject.assign (listed l) k e = listed (l ++ [(k, e)]).
Proof.
  intros Hget Hidx. apply JSObjectFacts.get_Nothing in Hget. destruct Hget as [Hown Hk].
  rewrite (JSObjectFacts.assign_fresh _ _ _ Hown Hk). unfold listed. simpl. f_equal.
  apply JSObjectFacts.insert_append. intros k' _. now apply JSObjectFacts.precedes_plain.
Qed.
End Entries.

Section IterationB.
Context `{EK : EdgeKey} `{MB : Members}.
Variables (h0 : Store) (d : bool) (track : Prop).

Lemma B_iteration_adjacency (t : State) (e : eref) (v : vref) (x : eref) :
  isDirected (this t) = false ->
  In e (vertexEdges (heap t) (startVertex (heap t) e)) ->
  In e (vertexEdges (heap t) (endVertex (heap t) e)) ->
  In x (vertexEdges (heap (addedB (flippedB t e) e)) v) <-> In x (vertexEdges (heap t) v).
Proof.
  intros Hd Hina Hinb.
  unfold addedB, flippedB, deletedB, connected. cbv zeta. cbn [heap this isDirected].
  rewrite Hd. rewrite !In_appended.
  change (vertexEdges (GraphEdge.swapped ?h e) v) with (vertexEdges h v).
  rewrite !In_dropped.
  cbn [startVertex endVertex GraphEdge.swapped GraphVertex.dropped GraphVertex.with_edges].
  rewrite Nat.eqb_refl.
  destruct (Nat.eq_dec x e) as [->|Hx].
  - destruct (Nat.eq_dec v (startVertex (heap t) e)) as [->|Hva];
      [|destruct (Nat.eq_dec v (endVertex (heap t) e)) as [->|Hvb]]; intuition.
  - intuition.
Qed.

Lemma B_iteration :
  iteration h0 (keepsB h0 d track) (joinedB h0 d track)
    (fun edge => B.deleteEdge edge ;; GraphEdge.reverse edge ;; B.addEdge edge).
Proof.
  intros e t rest done [Hd Hadj] HE Hedges Hflip Hnotin Hplain Hrk Hrr.
  pose proof (flipped_key h0 done (heap t) e Hflip Hnotin) as Hkey0.
  pose proof Hflip as [Hkey Hends]. destruct (Hends e) as [_ Horig].
  destruct (Horig Hnotin) as [Hs He].
  assert (Hget : truthy (edgeAt t (GraphEdge.key (heap t) e)) = true).
  { unfold edgeAt. rewrite Hedges, Hkey0. simpl. now rewrite listed_first. }
  assert (Hedges2 : edges (this (flippedB t e))
                    = listed (entries h0 rest ++ reversedEntries h0 done)).
  { simpl. rewrite Hedges, Hkey0. simpl. apply listed_delete_first. }
  assert (Hkey2 : GraphEdge.key (heap (flippedB t e)) e = reversedKey h0 e).
  { unfold GraphEdge.key, reversedKey. simpl. rewrite Nat.eqb_refl. now rewrite Hkey, Hs, He. }
  assert (Hfresh : edgeAt (flippedB t e) (GraphEdge.key (heap (flippedB t e)) e) = Nothing).
  { unfold edgeAt. rewrite Hedges2, Hkey2. now apply listed_fresh. }
  exists Undefined, (addedB (flippedB t e) e). split; [|split; [|split]].
  - unfold bind. rewrite (B_deleteEdge_present t e Hget).
    apply (B_addEdge_fresh (flippedB t e) e Hfresh).
  - split; [exact Hd|]. intros Htrack. specialize (Hadj Htrack).
    destruct (HE Htrack) as (Hfalse & Hina & Hinb).
    intros v x. rewrite <- (Hadj v x). apply B_iteration_adjacency.
    + congruence.
    + rewrite Hs. now apply Hadj.
    + rewrite He. now apply Hadj.
  - change (edges (this (addedB (flippedB t e) e)))
      with (JSObject.assign (edges (this (flippedB t e)))
              (GraphEdge.key (heap (flippedB t e)) e) e).
    unfold edgeAt in Hfresh. rewrite Hedges2, Hkey2 in *.
    rewrite (listed_assign _ _ _ _ Hfresh (proj2 Hplain)).
    now rewrite <- app_assoc, reversedEntries_snoc.
  - apply (flipped_snoc h0 done (heap t) _ e Hflip Hnotin).
    + unfold addedB, connected. cbn [heap]. destruct (isDirected (this (flippedB t e))); reflexivity.
    + intros x. unfold addedB, connected. cbn [heap]. destruct (isDirected (this (flippedB t e))); reflexivity.
    + intros x. unfold addedB, connected. cbn [heap]. destruct (isDirected (this (flippedB t e))); reflexivity.
Qed.
End IterationB.

Section IterationA.
Context `{EK : EdgeKey} `{MB : Members}.
Variables (h0 : Store) (vs0 : JSObject.t vref) (d : bool) (track : Prop).

Lemma ensuredBoth_registered (h : Store) (vs : JSObject.t vref) (u v a b : vref) :
  JSObject.get (vertexMember h) vs (vertexKey h u) = Ref a ->
  JSObject.get (vertexMember h) vs (vertexKey h v) = Ref b ->
  ensuredBoth h vs u v = vs /\ resolved h vs u = a /\ resolved h vs v = b.
Proof.
  intros Hu Hv. unfold ensuredBoth, ensured, resolved. now rewrite Hu, Hv.
Qed.

Lemma A_iteration_adjacency (t : State) (e : eref) (a b : vref) (v : vref) (x : eref) :
  isDirected (this t) = false ->
  In e (vertexEdges (heap t) a) ->
  In e (vertexEdges (heap t) b) ->
  In x (vertexEdges
          (connected false (heap (flippedA t e a b)) b a e) v) <-> In x (vertexEdges (heap t) v).
Proof.
  intros Hd Hina Hinb.
  unfold flippedA, deletedA, connected. cbv zeta. cbn [heap this isDirected].
  rewrite !In_appended.
  change (vertexEdges (GraphEdge.swapped ?h e) v) with (vertexEdges h v).
  rewrite !In_dropped.
  destruct (Nat.eq_dec x e) as [->|Hx].
  - destruct (Nat.eq_dec v a) as [->|Hva]; [|destruct (Nat.eq_dec v b) as [->|Hvb]]; intuition.
  - intuition.
Qed.

Lemma A_iteration :
  iteration h0 (keepsA h0 vs0 d track) (joinedA h0 vs0 d track)
    (fun edge => A.deleteEdge edge ;; GraphEdge.reverse edge ;; A.addEdge edge).
Proof.
  intros e t rest done (Hvs & Hd & Hadj) (a & b & Ha & Hb & HE) Hedges Hflip Hnotin
    Hplain Hrk Hrr.
  pose proof (flipped_key h0 done (heap t) e Hflip Hnotin) as Hkey0.
  pose proof Hflip as [Hkey Hends]. destruct (Hends e) as [_ Horig].
  destruct (Horig Hnotin) as [Hs He].
  assert (Hget : truthy (edgeAt t (GraphEdge.key (heap t) e)) = true).
  { unfold edgeAt. rewrite Hedges, Hkey0. simpl. now rewrite listed_first. }
  assert (Hta : vertexAt t (vertexKey (heap t) (startVertex (heap t) e)) = Ref a).
  { apply vertexAt_own. now rewrite Hvs, Hkey, Hs. }
  assert (Htb : vertexAt t (vertexKey (heap t) (endVertex (heap t) e)) = Ref b).
  { apply vertexAt_own. now rewrite Hvs, Hkey, He. }
  set (t2 := flippedA t e a b).
  assert (Hedges2 : edges (this t2) = listed (entries h0 rest ++ reversedEntries h0 done)).
  { simpl. rewrite Hedges, Hkey0. simpl. apply listed_delete_first. }
  assert (Hkey2 : GraphEdge.key (heap t2) e = reversedKey h0 e).
  { unfold GraphEdge.key, reversedKey. simpl. rewrite Nat.eqb_refl. now rewrite Hkey, Hs, He. }
  assert (Hfresh : edgeAt t2 (GraphEdge.key (heap t2) e) = Nothing).
  { unfold edgeAt. rewrite Hedges2, Hkey2. now apply listed_fresh. }
  assert (H2b : vertexAt t2 (vertexKey (heap t2) (startVertex (heap t2) e)) = Ref b).
  { apply vertexAt_own. simpl. rewrite Nat.eqb_refl. now rewrite Hvs, Hkey, He. }
  assert (H2a : vertexAt t2 (vertexKey (heap t2) (endVertex (heap t2) e)) = Ref a).
  { apply vertexAt_own. simpl. rewrite Nat.eqb_refl. now rewrite Hvs, Hkey, Hs. }
  destruct (ensuredBoth_registered _ _ _ _ _ _ H2b H2a) as (Hens & Hrb & Hra).
  assert (Hadded : addedA t2 e =
            {| this := {| vertices := vertices (this t);
                          edges := JSObject.assign (edges (this t2))
                                     (GraphEdge.key (heap t2) e) e;
                          isDirected := isDirected (this t) |};
               heap := connected (isDirected (this t)) (heap t2) b a e |}).
  { unfold addedA. cbv zeta. rewrite Hens, Hrb, Hra. reflexivity. }
  exists This, (addedA t2 e). split; [|split; [|split]].
  - unfold bind. rewrite (A_deleteEdge_present t e a b Hget Hta Htb).
    apply (A_addEdge_fresh t2 e Hfresh).
    + rewrite H2b. discriminate.
    + rewrite H2a. discriminate.
  - rewrite Hadded. split; [exact Hvs|]. split; [exact Hd|].
    intros Htrack. specialize (Hadj Htrack).
    destruct (HE Htrack) as (Hfalse & Hina & Hinb).
    intros v x. rewrite <- (Hadj v x). cbn [heap]. rewrite Hd, Hfalse.
    apply A_iteration_adjacency; [congruence | now apply Hadj | now apply Hadj].
  - rewrite Hadded. cbn [this edges].
    unfold edgeAt in Hfresh. rewrite Hedges2, Hkey2 in *.
    rewrite (listed_assign _ _ _ _ Hfresh (proj2 Hplain)).
    now rewrite <- app_assoc, reversedEntries_snoc.
  - rewrite Hadded. cbn [heap].
    apply (flipped_snoc h0 done (heap t) _ e Hflip Hnotin).
    + unfold connected. destruct (isDirected (this t)); reflexivity.
    + intros x. unfold connected. destruct (isDirected (this t)); reflexivity.
    + intros x. unfold connected. destruct (isDirected (this t)); reflexivity.
Qed.
End IterationA.

Lemma entries_of_keyed `{EK : EdgeKey} (h : Store) (l : list (string * eref)) :
  (forall k e, In (k, e) l -> k = GraphEdge.key h e) ->
  l = entries h (map snd l).
Proof.
  unfold entries.
  induction l as [|[k e] l IH]; intros Hkeyed; simpl; [reflexivity|].
  rewrite <- IH by (intros k' e' Hin; apply Hkeyed; now right).
  now rewrite <- (Hkeyed k e (or_introl eq_refl)).
Qed.

Lemma listed_of_keyed `{EK : EdgeKey} (h : Store) (o : JSObject.t eref) :
  JSObject.pristine o ->
  (forall k e, In (k, e) (JSObject.props o) -> k = GraphEdge.key h e) ->
  o = listed (entries h (JSObject.values o)).
Proof.
  destruct o as [l p]. unfold JSObject.pristine, listed, JSObject.values. simpl.
  intros -> Hkeyed. f_equal. now apply entries_of_keyed.
Qed.

Section ReversePass.
Context `{EK : EdgeKey} `{MB : Members}.
Variable s : State.

Local Abbreviation h0 := (heap s).
Local Abbreviation es := (JSObject.values (edges (this s))).

Hypothesis Hnd : NoDup (JSObject.keys (edges (this s))).
Hypothesis Hpr : JSObject.pristine (edges (this s)).
Hypothesis Hkeyed : edgesKeyed s.
Hypothesis Hopp : noOppositeEdges s.
Hypothesis Hplain : plainReversedKeys s.

Lemma keyed_entries : edges (this s) = listed (entries h0 es).
Proof. exact (listed_of_keyed h0 _ Hpr Hkeyed). Qed.

Lemma keys_NoDup : NoDup (map (GraphEdge.key h0) es).
Proof.
  unfold JSObject.keys in Hnd. rewrite keyed_entries in Hnd at 1.
  unfold entries, listed in Hnd. simpl in Hnd. now rewrite map_map in Hnd.
Qed.

Lemma start_ready (E : eref -> Prop) :
  (forall e, In e es -> E e) -> ready h0 E es [].
Proof.
  intros HE. destruct Hopp as [Hrnd Hrk]. repeat split; auto.
  - apply (NoDup_map_inv _ _ keys_NoDup).
  - now apply Hplain.
  - now apply Hplain.
Qed.

Lemma A_reverse_unfold :
  A.reverse s
  = (forEach es (fun edge => A.deleteEdge edge ;; GraphEdge.reverse edge ;; A.addEdge edge) ;;
     ret This) s.
Proof. reflexivity. Qed.

Lemma B_reverse_unfold :
  B.reverse s
  = (forEach es (fun edge => B.deleteEdge edge ;; GraphEdge.reverse edge ;; B.addEdge edge) ;;
     ret Undefined) s.
Proof. reflexivity. Qed.

Lemma B_reverse_pass (track : Prop) :
  (track -> isDirected (this s) = false /\ attachedB s) ->
  exists s1, B.reverse s = (Return Undefined, s1) /\
    edges (this s1) = listed (reversedEntries h0 es) /\
    flipped h0 es (heap s1) /\
    (track -> sameAdjacency h0 (heap s1)).
Proof.
  intros Htrack.
  destruct (pass h0 (keepsB h0 (isDirected (this s)) track)
              (joinedB h0 (isDirected (this s)) track) _
              (B_iteration h0 (isDirected (this s)) track) es [] s)
    as (s1 & Hrun & [_ Hadj] & Hedges & Hflip).
  - apply start_ready. intros e He. unfold joinedB. intros Ht. destruct (Htrack Ht) as [Hd Hatt].
    split; [exact Hd | now apply Hatt].
  - split; [reflexivity|]. intros _ v x. reflexivity.
  - now rewrite app_nil_r, <- keyed_entries.
  - split; [reflexivity|]. intros x. split; [intros [] | auto].
  - exists s1. split; [|auto].
    rewrite B_reverse_unfold. unfold bind at 1. now rewrite Hrun.
Qed.

Lemma A_reverse_pass (track : Prop) :
  edgesHaveVertices s ->
  (track -> isDirected (this s) = false /\ attachedA s) ->
  exists s1, A.reverse s = (Return This, s1) /\
    edges (this s1) = listed (reversedEntries h0 es) /\
    flipped h0 es (heap s1) /\
    vertices (this s1) = vertices (this s) /\
    (track -> sameAdjacency h0 (heap s1)).
Proof.
  intros Hhave Htrack.
  destruct (pass h0 (keepsA h0 (vertices (this s)) (isDirected (this s)) track)
              (joinedA h0 (vertices (this s)) (isDirected (this s)) track) _
              (A_iteration h0 (vertices (this s)) (isDirected (this s)) track) es [] s)
    as (s1 & Hrun & (Hvs & _ & Hadj) & Hedges & Hflip).
  - apply start_ready. intros e He.
    assert (Hin : exists k, In (k, e) (JSObject.props (edges (this s)))).
    { unfold JSObject.values in He. apply in_map_iff in He.
      destruct He as ([k e'] & <- & Hin). eauto. }
    destruct Hin as [k Hin]. destruct (Hhave k e Hin) as [Ha Hb].
    destruct (JSObject.own (vertices (this s)) (vertexKey h0 (startVertex h0 e)))
      as [a|] eqn:Ea; [|congruence].
    destruct (JSObject.own (vertices (this s)) (vertexKey h0 (endVertex h0 e)))
      as [b|] eqn:Eb; [|congruence].
    exists a, b. split; [exact Ea|]. split; [exact Eb|].
    intros Ht. destruct (Htrack Ht) as [Hd Hatt].
    destruct (Hatt e He) as (a' & b' & Ha' & Hb' & Hina & Hinb).
    rewrite Ea in Ha'. rewrite Eb in Hb'. injection Ha' as <-. injection Hb' as <-. auto.
  - split; [reflexivity|]. split; [reflexivity|]. intros _ v x. reflexivity.
  - now rewrite app_nil_r, <- keyed_entries.
  - split; [reflexivity|]. intros x. split; [intros [] | auto].
  - exists s1. split; [|auto].
    rewrite A_reverse_unfold. unfold bind at 1. now rewrite Hrun.
Qed.
End ReversePass.

Section ReverseTwice.
Context `{EK : EdgeKey} `{MB : Members}.
Variable s : State.

Local Abbreviation h0 := (heap s).
Local Abbreviation es := (JSObject.values (edges (this s))).

Hypothesis Hnd : NoDup (JSObject.keys (edges (this s))).
Hypothesis Hpr : JSObject.pristine (edges (this s)).
Hypothesis Hkeyed : edgesKeyed s.
Hypothesis Hopp : noOppositeEdges s.

(** What the first pass leaves is a graph that the second pass can
    process. *)
Lemma reversed_values (s1 : State) :
  edges (this s1) = listed (reversedEntries h0 es) -> JSObject.values (edges (this s1)) = es.
Proof.
  intros ->. unfold JSObject.values, reversedEntries, listed. simpl.
  rewrite map_map. apply map_id.
Qed.

Lemma reversed_key (s1 : State) (e : eref) :
  flipped h0 es (heap s1) -> In e es ->
  GraphEdge.key (heap s1) e = reversedKey h0 e /\
  reversedKey (heap s1) e = GraphEdge.key h0 e.
Proof.
  intros [Hkey Hends] He. destruct (Hends e) as [Hdone _].
  destruct (Hdone He) as [Hs Hend].
  unfold GraphEdge.key, reversedKey. now rewrite Hkey, Hs, Hend.
Qed.

Lemma reversed_ready (s1 : State) :
  plainEdgeKeys s ->
  edges (this s1) = listed (reversedEntries h0 es) ->
  flipped h0 es (heap s1) ->
  NoDup (JSObject.keys (edges (this s1))) /\ JSObject.pristine (edges (this s1)) /\
  edgesKeyed s1 /\ noOppositeEdges s1 /\ plainReversedKeys s1.
Proof.
  intros Hplain Hedges Hflip. destruct Hopp as [Hrnd Hrk].
  split; [|split; [|split; [|split]]].
  - unfold JSObject.keys. rewrite Hedges. unfold reversedEntries, listed. simpl.
    now rewrite map_map.
  - now rewrite Hedges.
  - intros k e Hin. rewrite Hedges in Hin. unfold reversedEntries, listed in Hin.
    simpl in Hin. apply in_map_iff in Hin. destruct Hin as (e' & [= <- <-] & He').
    symmetry. now apply reversed_key.
  - unfold noOppositeEdges. rewrite (reversed_values s1 Hedges). split.
    + rewrite (map_ext_in _ (GraphEdge.key h0)).
      * apply (keys_NoDup s Hnd Hpr Hkeyed).
      * intros e He. now apply reversed_key.
    + intros e e' He He' Hne.
      destruct (reversed_key s1 e Hflip He) as [_ ->].
      destruct (reversed_key s1 e' Hflip He') as [-> _].
      intros Heq. apply (Hrk e' e He' He); congruence.
  - intros e He. rewrite (reversed_values s1 Hedges) in He.
    destruct (reversed_key s1 e Hflip He) as [_ ->]. now apply Hplain.
Qed.

Lemma flipped_twice (h1 h2 : Store) :
  flipped h0 es h1 -> flipped h1 es h2 ->
  forall x, startVertex h2 x = startVertex h0 x /\ endVertex h2 x = endVertex h0 x.
Proof.
  intros [_ H1] [_ H2] x.
  destruct (H1 x) as [H1in H1out]. destruct (H2 x) as [H2in H2out].
  destruct (in_dec Nat.eq_dec x es) as [Hin|Hout].
  - destruct (H2in Hin) as [-> ->]. destruct (H1in Hin) as [-> ->]. auto.
  - destruct (H2out Hout) as [-> ->]. now apply H1out.
Qed.

Lemma reversed_back (s1 : State) :
  edges (this s1) = listed (reversedEntries h0 es) ->
  flipped h0 es (heap s1) ->
  listed (reversedEntries (heap s1) (JSObject.values (edges (this s1)))) = edges (this s).
Proof.
  intros Hedges Hflip. rewrite (reversed_values s1 Hedges).
  etransitivity; [|symmetry; apply (keyed_entries s Hpr Hkeyed)].
  unfold reversedEntries, entries. f_equal.
  apply map_ext_in. intros e He. f_equal. now apply reversed_key.
Qed.

Hypothesis Hrev : plainReversedKeys s.

(** Variant B: on a graph without opposite edges, [reverse] applied twice
    returns and gives back the edge registry and the endpoints of every
    edge. *)
Lemma B_reverse_twice_restores :
  plainEdgeKeys s ->
  exists s2, (B.reverse ;; B.reverse) s = (Return Undefined, s2) /\
    edges (this s2) = edges (this s) /\
    forall x, startVertex (heap s2) x = startVertex h0 x /\
              endVertex (heap s2) x = endVertex h0 x.
Proof.
  intros Hplain.
  destruct (B_reverse_pass s Hnd Hpr Hkeyed Hopp Hrev False)
    as (s1 & Hrun1 & Hedges1 & Hflip1 & _); [intros []|].
  destruct (reversed_ready s1 Hplain Hedges1 Hflip1) as (Hnd1 & Hpr1 & Hkeyed1 & Hopp1 & Hrev1).
  destruct (B_reverse_pass s1 Hnd1 Hpr1 Hkeyed1 Hopp1 Hrev1 False)
    as (s2 & Hrun2 & Hedges2 & Hflip2 & _); [intros []|].
  exists s2. split; [|split].
  - unfold bind. now rewrite Hrun1.
  - rewrite Hedges2. now apply reversed_back.
  - rewrite (reversed_values s1 Hedges1) in Hflip2. now apply (flipped_twice (heap s1)).
Qed.

Lemma reversed_have_vertices (s1 : State) :
  edgesHaveVertices s ->
  edges (this s1) = listed (reversedEntries h0 es) ->
  flipped h0 es (heap s1) ->
  vertices (this s1) = vertices (this s) ->
  edgesHaveVertices s1.
Proof.
  intros Hhave Hedges Hflip Hvs k e Hin. rewrite Hedges in Hin.
  unfold reversedEntries, listed in Hin. simpl in Hin. apply in_map_iff in Hin.
  destruct Hin as (e' & [= <- <-] & He').
  destruct Hflip as [Hkey Hends]. destruct (Hends e') as [Hdone _].
  destruct (Hdone He') as [-> ->]. rewrite Hkey, Hvs.
  unfold JSObject.values in He'. apply in_map_iff in He'.
  destruct He' as ([k0 e0] & <- & Hin0). destruct (Hhave k0 e0 Hin0). simpl. auto.
Qed.

(** Variant A, where the edges have their endpoints registered. *)
Lemma A_reverse_twice_restores :
  plainEdgeKeys s ->
  edgesHaveVertices s ->
  exists s2, (A.reverse ;; A.reverse) s = (Return This, s2) /\
    edges (this s2) = edges (this s) /\
    vertices (this s2) = vertices (this s) /\
    forall x, startVertex (heap s2) x = startVertex h0 x /\
              endVertex (heap s2) x = endVertex h0 x.
Proof.
  intros Hplain Hhave.
  destruct (A_reverse_pass s Hnd Hpr Hkeyed Hopp Hrev False Hhave)
    as (s1 & Hrun1 & Hedges1 & Hflip1 & Hvs1 & _); [intros []|].
  destruct (reversed_ready s1 Hplain Hedges1 Hflip1) as (Hnd1 & Hpr1 & Hkeyed1 & Hopp1 & Hrev1).
  pose proof (reversed_have_vertices s1 Hhave Hedges1 Hflip1 Hvs1) as Hhave1.
  destruct (A_reverse_pass s1 Hnd1 Hpr1 Hkeyed1 Hopp1 Hrev1 False Hhave1)
    as (s2 & Hrun2 & Hedges2 & Hflip2 & Hvs2 & _); [intros []|].
  exists s2. split; [|split; [|split]].
  - unfold bind. now rewrite Hrun1.
  - rewrite Hedges2. now apply reversed_back.
  - congruence.
  - rewrite (reversed_values s1 Hedges1) in Hflip2. now apply (flipped_twice (heap s1)).
Qed.

(** On an undirected graph whose edges are in the adjacency lists of both
    their endpoints, one [reverse] returns and every vertex has the same
    incident edges as before. *)
Lemma B_reverse_keeps_adjacency :
  isDirected (this s) = false -> attachedB s ->
  exists s1, B.reverse s = (Return Undefined, s1) /\ sameAdjacency h0 (heap s1).
Proof.
  intros Hd Hatt.
  destruct (B_reverse_pass s Hnd Hpr Hkeyed Hopp Hrev True) as (s1 & Hrun1 & _ & _ & Hadj);
    [auto|].
  exists s1. auto.
Qed.

Lemma attached_have_vertices : attachedA s -> edgesHaveVertices s.
Proof.
  intros Hatt k e Hin.
  assert (He : In e es).
  { unfold JSObject.values. change e with (snd (k, e)). now apply in_map. }
  destruct (Hatt e He) as (a & b & -> & -> & _). split; discriminate.
Qed.

Lemma A_reverse_keeps_adjacency :
  isDirected (this s) = false -> attachedA s ->
  exists s1, A.reverse s = (Return This, s1) /\ sameAdjacency h0 (heap s1).
Proof.
  intros Hd Hatt.
  destruct (A_reverse_pass s Hnd Hpr Hkeyed Hopp Hrev True (attached_have_vertices Hatt))
    as (s1 & Hrun1 & _ & _ & _ & Hadj); [auto|].
  exists s1. auto.
Qed.
End ReverseTwice.

Section Reversal.
Context `{EK : EdgeKey} `{MB : Members}.
Variable s : State.

Local Abbreviation h0 := (heap s).
Local Abbreviation es := (JSObject.values (edges (this s))).

(** X14.  [reverse] on a graph whose edge
    registry is well formed, has [Object.prototype] as its prototype and
    holds each edge under its current key, in which no registered edge is
    the reversal of another and every reversed key is a plain key (no name
    of [Object.prototype], no array index): the call returns, the graph in
    variant A and nothing in variant B, the edge registry holds the same
    edges in the same order, each under its reversed key, and exactly the
    registered edges have their endpoints swapped.  Variant A needs every
    endpoint key registered, and then leaves the vertex registry as it
    was. *)
Theorem reverse_flips_registered_edges :
  edgeRegistryKeyed s -> JSObject.pristine (edges (this s)) ->
  noOppositeEdges s -> plainReversedKeys s ->
  (edgesHaveVertices s ->
   exists s1, A.reverse s = (Return This, s1) /\
     edges (this s1) = listed (reversedEntries h0 es) /\
     flipped h0 es (heap s1) /\
     vertices (this s1) = vertices (this s)) /\
  (exists s1, B.reverse s = (Return Undefined, s1) /\
     edges (this s1) = listed (reversedEntries h0 es) /\
     flipped h0 es (heap s1)).
Proof.
  intros [(Hnd & _) Hkeyed] Hpr Hopp Hrev. split.
  - intros Hhave.
    destruct (A_reverse_pass s Hnd Hpr Hkeyed Hopp Hrev False Hhave)
      as (s1 & Hrun & He & Hf & Hv & _); [intros []|].
    exists s1. auto.
  - destruct (B_reverse_pass s Hnd Hpr Hkeyed Hopp Hrev False) as (s1 & Hrun & He & Hf & _);
      [intros []|].
    exists s1. auto.
Qed.

(** X15.  Under the same conditions, and when the
    keys of the registered edges are plain keys as well, [reverse] applied
    twice returns and gives back the edge registry, entry for entry, and
    the endpoints of every edge (and in variant A the vertex registry). *)
Theorem reverse_twice_restores :
  edgeRegistryKeyed s -> JSObject.pristine (edges (this s)) ->
  noOppositeEdges s -> plainReversedKeys s -> plainEdgeKeys s ->
  (edgesHaveVertices s ->
   exists s2, (A.reverse ;; A.reverse) s = (Return This, s2) /\
     edges (this s2) = edges (this s) /\
     vertices (this s2) = vertices (this s) /\
     forall x, startVertex (heap s2) x = startVertex h0 x /\
               endVertex (heap s2) x = endVertex h0 x) /\
  (exists s2, (B.reverse ;; B.reverse) s = (Return Undefined, s2) /\
     edges (this s2) = edges (this s) /\
     forall x, startVertex (heap s2) x = startVertex h0 x /\
               endVertex (heap s2) x = endVertex h0 x).
Proof.
  intros [(Hnd & _) Hkeyed] Hpr Hopp Hrev Hplain. split.
  - intros Hhave. exact (A_reverse_twice_restores s Hnd Hpr Hkeyed Hopp Hrev Hplain Hhave).
  - exact (B_reverse_twice_restores s Hnd Hpr Hkeyed Hopp Hrev Hplain).
Qed.

(** X16.  In an undirected graph that meets the
    conditions of [reverse_flips_registered_edges] and in which every
    registered edge is held by both its endpoint vertices (variant A: by
    the vertices registered under its endpoint keys), [reverse] returns
    and every vertex holds the same set of edges as before. *)
Theorem reverse_keeps_adjacency :
  edgeRegistryKeyed s -> JSObject.pristine (edges (this s)) ->
  noOppositeEdges s -> plainReversedKeys s -> isDirected (this s) = false ->
  (attachedA s -> exists s1, A.reverse s = (Return This, s1) /\ sameAdjacency h0 (heap s1)) /\
  (attachedB s ->
   exists s1, B.reverse s = (Return Undefined, s1) /\ sameAdjacency h0 (heap s1)).
Proof.
  intros [(Hnd & _) Hkeyed] Hpr Hopp Hrev Hd. split; intros Hatt.
  - exact (A_reverse_keeps_adjacency s Hnd Hpr Hkeyed Hopp Hrev Hd Hatt).
  - exact (B_reverse_keeps_adjacency s Hnd Hpr Hkeyed Hopp Hrev Hd Hatt).
Qed.
End Reversal.

(** The graphs of the scenario with the edges A -> B and B -> C. *)
Lemma twoEdges_noOpposite (s : State) :
  JSObject.values (edges (this s)) = [0; 1] -> heap s = heap Witnesses.twoEdgesA \/
  heap s = heap Witnesses.twoEdgesB \/ heap s = heap Witnesses.twoUndirectedA \/
  heap s = heap Witnesses.twoUndirectedB ->
  noOppositeEdges (EK:=joinedKey) s /\ plainReversedKeys (EK:=joinedKey) s /\
  plainEdgeKeys (EK:=joinedKey) s.
Proof.
  intros Hes Hheap. unfold noOppositeEdges, plainReversedKeys, plainEdgeKeys. cbv zeta.
  rewrite Hes.
  destruct Hheap as [-> | [-> | [-> | ->]]];
    (split; [split; [repeat constructor; simpl; intuition discriminate
                    | intros e e' [<-|[<-|[]]] [<-|[<-|[]]] Hne; try (now destruct Hne);
                      discriminate]
            | split; intros e [<-|[<-|[]]]; split; reflexivity]).
Qed.

Lemma twoEdges_haveVertices (s : State) :
  JSObject.props (edges (this s)) = [("A_B", 0); ("B_C", 1)]%string ->
  JSObject.props (vertices (this s)) = [("A", 0); ("B", 1); ("C", 2)]%string ->
  vertexKey (heap s) = vertexKey Scenario.heap0 ->
  startVertex (heap s) = startVertex Scenario.heap0 ->
  endVertex (heap s) = endVertex Scenario.heap0 ->
  edgesHaveVertices s.
Proof.
  intros He Hv Hk Hs Hend k e Hin. rewrite He in Hin.
  unfold JSObject.own. rewrite Hv, Hk, Hs, Hend.
  destruct Hin as [[= <- <-]|[[= <- <-]|[]]]; split; discriminate.
Qed.

Lemma reverse_flips_registered_edges_witness :
  (exists s1, A.reverse (EK:=joinedKey) Witnesses.twoEdgesA = (Return This, s1) /\
     JSObject.props (edges (this s1)) = [("B_A", 0); ("C_B", 1)]%string /\
     startVertex (heap s1) 1 = 2 /\ endVertex (heap s1) 1 = 1) /\
  (exists s1, B.reverse (EK:=joinedKey) Witnesses.twoEdgesB = (Return Undefined, s1) /\
     JSObject.props (edges (this s1)) = [("B_A", 0); ("C_B", 1)]%string /\
     startVertex (heap s1) 1 = 2 /\ endVertex (heap s1) 1 = 1).
Proof.
  destruct (twoEdges_noOpposite Witnesses.twoEdgesA eq_refl (or_introl eq_refl))
    as (HoppA & HrevA & _).
  destruct (twoEdges_noOpposite Witnesses.twoEdgesB eq_refl (or_intror (or_introl eq_refl)))
    as (HoppB & HrevB & _).
  destruct (reverse_flips_registered_edges (EK:=joinedKey) Witnesses.twoEdgesA
              (proj1 (reachable_edgeKeyed (EK:=joinedKey)) _ twoEdgesA_reachable)
              eq_refl HoppA HrevA) as (HA & _).
  destruct (reverse_flips_registered_edges (EK:=joinedKey) Witnesses.twoEdgesB
              (proj2 (reachable_edgeKeyed (EK:=joinedKey)) _ twoEdgesB_reachable)
              eq_refl HoppB HrevB) as (_ & s2 & HB & HBe & _ & HBf).
  destruct HA as (s1 & HA & HAe & (_ & HAf) & _).
  { now apply twoEdges_haveVertices. }
  split; [exists s1 | exists s2]; (split; [assumption|]).
  - split; [now rewrite HAe|]. apply (HAf 1). right. now left.
  - split; [now rewrite HBe|]. apply (HBf 1). right. now left.
Defined.

Lemma reverse_twice_restores_witness :
  (exists s2, (A.reverse (EK:=joinedKey) ;; A.reverse (EK:=joinedKey)) Witnesses.twoEdgesA
              = (Return This, s2) /\
     JSObject.props (edges (this s2)) = [("A_B", 0); ("B_C", 1)]%string /\
     startVertex (heap s2) 1 = 1 /\ endVertex (heap s2) 1 = 2) /\
  (exists s2, (B.reverse (EK:=joinedKey) ;; B.reverse (EK:=joinedKey)) Witnesses.twoEdgesB
              = (Return Undefined, s2) /\
     JSObject.props (edges (this s2)) = [("A_B", 0); ("B_C", 1)]%string /\
     startVertex (heap s2) 1 = 1 /\ endVertex (heap s2) 1 = 2).
Proof.
  destruct (twoEdges_noOpposite Witnesses.twoEdgesA eq_refl (or_introl eq_refl))
    as (HoppA & HrevA & HplA).
  destruct (twoEdges_noOpposite Witnesses.twoEdgesB eq_refl (or_intror (or_introl eq_refl)))
    as (HoppB & HrevB & HplB).
  destruct (reverse_twice_restores (EK:=joinedKey) Witnesses.twoEdgesA
              (proj1 (reachable_edgeKeyed (EK:=joinedKey)) _ twoEdgesA_reachable)
              eq_refl HoppA HrevA HplA) as (HA & _).
  destruct (reverse_twice_restores (EK:=joinedKey) Witnesses.twoEdgesB
              (proj2 (reachable_edgeKeyed (EK:=joinedKey)) _ twoEdgesB_reachable)
              eq_refl HoppB HrevB HplB) as (_ & s2 & HB & HBe & HBf).
  destruct HA as (s1 & HA & HAe & _ & HAf).
  { now apply twoEdges_haveVertices. }
  split; [exists s1 | exists s2]; (split; [assumption|]).
  - split; [now rewrite HAe | exact (HAf 1)].
  - split; [now rewrite HBe | exact (HBf 1)].
Defined.

Lemma twoUndirectedA_reachable :
  reachable (performA (EK:=joinedKey)) Witnesses.twoUndirectedA.
Proof.
  apply (reachable_call (performA (EK:=joinedKey)) _ (AddEdge 1)). apply undirectedA_reachable.
Qed.

Lemma twoUndirectedB_reachable :
  reachable (performB (EK:=joinedKey)) Witnesses.twoUndirectedB.
Proof.
  apply (reachable_call (performB (EK:=joinedKey)) _ (AddEdge 1)). apply undirectedB_reachable.
Qed.

Lemma reverse_keeps_adjacency_witness :
  (exists s1, A.reverse (EK:=joinedKey) Witnesses.twoUndirectedA = (Return This, s1) /\
     forall x, In x (vertexEdges (heap s1) 1) <-> x = 0 \/ x = 1) /\
  (exists s1, B.reverse (EK:=joinedKey) Witnesses.twoUndirectedB = (Return Undefined, s1) /\
     forall x, In x (vertexEdges (heap s1) 1) <-> x = 0 \/ x = 1).
Proof.
  destruct (twoEdges_noOpposite Witnesses.twoUndirectedA eq_refl
              (or_intror (or_intror (or_introl eq_refl)))) as (HoppA & HrevA & _).
  destruct (twoEdges_noOpposite Witnesses.twoUndirectedB eq_refl
              (or_intror (or_intror (or_intror eq_refl)))) as (HoppB & HrevB & _).
  destruct (reverse_keeps_adjacency (EK:=joinedKey) Witnesses.twoUndirectedA
              (proj1 (reachable_edgeKeyed (EK:=joinedKey)) _ twoUndirectedA_reachable)
              eq_refl HoppA HrevA eq_refl) as (HA & _).
  destruct (reverse_keeps_adjacency (EK:=joinedKey) Witnesses.twoUndirectedB
              (proj2 (reachable_edgeKeyed (EK:=joinedKey)) _ twoUndirectedB_reachable)
              eq_refl HoppB HrevB eq_refl) as (_ & HB).
  destruct HA as (s1 & HA & HAadj).
  { intros e He. vm_compute in He. destruct He as [<-|[<-|[]]].
    - exists 0, 1. repeat split; vm_compute; auto.
    - exists 1, 2. repeat split; vm_compute; auto. }
  destruct HB as (s2 & HB & HBadj).
  { intros e He. vm_compute in He. destruct He as [<-|[<-|[]]]; split; vm_compute; auto. }
  split; [exists s1 | exists s2]; (split; [assumption|]); intros x.
  - rewrite (HAadj 1 x). vm_compute. intuition.
  - rewrite (HBadj 1 x). vm_compute. intuition.
Defined.
